(** * BunBunBash: the whack-a-bunny game core, embedded in Rocq

    The repository ships two near-duplicate variants of the browser game:
    the current one ([src/unnamed/part_000], module [Part000] below) and an
    older one ([src/game/app/static/game-files/whackabunny.js], module
    [Whackabunny]).  Both are single-threaded JavaScript: a global
    [gameState] object, three [Mole] objects, and callbacks registered with
    [setTimeout], [setInterval] and [requestAnimationFrame].

    Modelling choices.
    - JavaScript numbers are modelled exactly: integers that only ever hold
      integral values ([score], [timeLeft], [difficultyLevel]) as [Z], the
      others (animation progress, delays, coordinates, [Math.random()]
      draws) as rationals [Q].  Rounding of IEEE doubles is not modelled
      in the game state; module [Double] computes the delay samples of
      [show()] and [hide()] in binary64, where their rounding decides a
      bound.
    - The browser's timer queue is an explicit store of pending callbacks;
      closures are defunctionalised into the type [Callback].  Which pending
      callback fires next is left to the environment (any pending one may
      fire), which over-approximates the real-time order.
    - [Math.random()] draws are inputs supplied with the event that
      consumes them.
    - A [TypeError] (property access on [undefined]) is the failure of the
      state-and-error monad [M].
    - Rendering, audio, the red-flash overlay and console output do not
      influence the game logic and are left out of [World], and so is
      [resize()], which only rewrites the coordinates of the moles.  The
      playback rate of the music and the opacity of the red flash are
      modelled on their own, as functions of the values they read. *)

From Stdlib Require Import ZArith QArith Lqa Lia Bool String Ascii.
From Stdlib Require Floats.
From stdpp Require Import base tactics option list.

Local Open Scope Z_scope.

(** ** JavaScript primitives *)

Module Js.

(** [Math.max] on two numbers. *)
Definition Math_max (a b : Q) : Q :=
  if Qlt_le_dec a b then b else a.

(** The comparison [a < b] as a boolean. *)
Definition lt (a b : Q) : bool :=
  if Qlt_le_dec a b then true else false.

(** The comparison [a >= b]. *)
Definition ge (a b : Q) : bool :=
  if Qlt_le_dec a b then false else true.

(** The comparison [a <= b]. *)
Definition le (a b : Q) : bool :=
  if Qlt_le_dec b a then false else true.

(** The comparison [a > b]. *)
Definition gt (a b : Q) : bool :=
  if Qlt_le_dec b a then true else false.

(** [arr[i]] for a number [i] holding an integer: [undefined] ([None])
    outside the array. *)
Definition index {A : Type} (arr : list A) (i : Z) : option A :=
  if i <? 0 then None else arr !! Z.to_nat i.

(** [String.prototype.toLowerCase] on the ASCII range. *)
Definition lowerChar (c : ascii) : ascii :=
  let n := nat_of_ascii c in
  if (Nat.leb 65 n && Nat.leb n 90)%bool then ascii_of_nat (n + 32) else c.

Fixpoint toLowerCase (s : string) : string :=
  match s with
  | EmptyString => EmptyString
  | String c s' => String (lowerChar c) (toLowerCase s')
  end.

End Js.

(** JavaScript numbers as the engine has them: IEEE 754 binary64 with
    round-to-nearest-even, the primitive floats of Rocq. *)
Module Double.
Import Floats.

(** The double of an integer literal. *)
Definition ofZ (z : Z) : float :=
  match z with
  | Z0 => 0%float
  | Zpos _ => of_uint63 (Uint63.of_Z z)
  | Zneg p => (- of_uint63 (Uint63.of_Z (Zpos p)))%float
  end.

(** The double of a decimal literal, given as a fraction of integers that
    are doubles themselves: the correctly rounded quotient. *)
Definition ofQ (q : Q) : float := (ofZ (Qnum q) / ofZ (Zpos (Qden q)))%float.

(** [Math.random() * (max - min) + min], the sample of [show()] and
    [hide()], for the draw [r]. *)
Definition sample (lo hi r : float) : float := (r * (hi - lo) + lo)%float.

(** A value [Math.random()] may return: [0 <= r < 1]. *)
Definition isDraw (r : float) : bool := (0 <=? r)%float && (r <? 1)%float.

(** The largest double below 1, [1 - 2^-53]. *)
Definition largestDraw : float := 0x1.fffffffffffffp-1%float.

(** The sample for the largest draw is the upper bound itself. *)
Definition reachesMax (lo hi : Q) : bool :=
  (sample (ofQ lo) (ofQ hi) largestDraw =? ofQ hi)%float.

End Double.

(** ** Data model *)

(** One row of the [difficultySettings] table. *)
Record DifficultySettings := mkSettings {
  minShowTime : Q;
  maxShowTime : Q;
  minHideTime : Q;
  maxHideTime : Q;
  animationSpeed : Q
}.

(** The fields of a [Mole] object ([radius] is the constant 180). *)
Record Mole := mkMole {
  id : nat;
  x : Q;
  y : Q;
  baseY : Q;
  isVisible : bool;
  isHit : bool;
  isGoodMole : bool;
  visibilityTimer : option nat;
  animationProgress : Q;
  isAnimating : bool;
  isBashAnimating : bool;
  bashFrame : nat;
  bashTimer : option nat
}.

(** The global [gameState] object.  [gameEnded] exists in part_000 only;
    whackabunny.js never reads or writes it. *)
Record GameState := mkGameState {
  running : bool;
  paused : bool;
  score : Z;
  timeLeft : Z;
  gameTimer : option nat;
  difficultyLevel : Z;
  gameEnded : bool
}.

(** The closures handed to the browser, one constructor per closure in the
    source; [i] is the index in [this.moles] of the captured mole. *)
Inductive Callback :=
| CbShow (i : nat)      (* () => mole.show() *)
| CbHide (i : nat)      (* () => this.hide() *)
| CbBash1 (i : nat)     (* outer closure of startBashAnimation *)
| CbBash2 (i : nat)     (* inner closure of startBashAnimation *)
| CbTick                (* the setInterval closure of start() *)
| CbFrame.              (* () => this.gameLoop() *)

Inductive TimerKind :=
| Timeout (delay : Q)
| Interval (delay : Q)
| AnimationFrame.

(** A pending callback of the browser's event loop. *)
Record Timer := mkTimer {
  handle : nat;
  kind : TimerKind;
  callback : Callback
}.

(** The whole program state: [gameState], the game object's [moles] and
    [animationId], and the browser's pending callbacks.  Handles are
    positive, hence truthy, and never reused. *)
Record World := mkWorld {
  gameState : GameState;
  moles : list Mole;
  animationId : option nat;
  timers : list Timer;
  nextHandle : nat
}.

(** *** Field updates *)

Definition set_y (v : Q) (m : Mole) : Mole :=
  mkMole (id m) (x m) v (baseY m) (isVisible m) (isHit m) (isGoodMole m)
    (visibilityTimer m) (animationProgress m) (isAnimating m)
    (isBashAnimating m) (bashFrame m) (bashTimer m).
Definition set_isVisible (v : bool) (m : Mole) : Mole :=
  mkMole (id m) (x m) (y m) (baseY m) v (isHit m) (isGoodMole m)
    (visibilityTimer m) (animationProgress m) (isAnimating m)
    (isBashAnimating m) (bashFrame m) (bashTimer m).
Definition set_isHit (v : bool) (m : Mole) : Mole :=
  mkMole (id m) (x m) (y m) (baseY m) (isVisible m) v (isGoodMole m)
    (visibilityTimer m) (animationProgress m) (isAnimating m)
    (isBashAnimating m) (bashFrame m) (bashTimer m).
Definition set_isGoodMole (v : bool) (m : Mole) : Mole :=
  mkMole (id m) (x m) (y m) (baseY m) (isVisible m) (isHit m) v
    (visibilityTimer m) (animationProgress m) (isAnimating m)
    (isBashAnimating m) (bashFrame m) (bashTimer m).
Definition set_visibilityTimer (v : option nat) (m : Mole) : Mole :=
  mkMole (id m) (x m) (y m) (baseY m) (isVisible m) (isHit m) (isGoodMole m)
    v (animationProgress m) (isAnimating m)
    (isBashAnimating m) (bashFrame m) (bashTimer m).
Definition set_animationProgress (v : Q) (m : Mole) : Mole :=
  mkMole (id m) (x m) (y m) (baseY m) (isVisible m) (isHit m) (isGoodMole m)
    (visibilityTimer m) v (isAnimating m)
    (isBashAnimating m) (bashFrame m) (bashTimer m).
Definition set_isAnimating (v : bool) (m : Mole) : Mole :=
  mkMole (id m) (x m) (y m) (baseY m) (isVisible m) (isHit m) (isGoodMole m)
    (visibilityTimer m) (animationProgress m) v
    (isBashAnimating m) (bashFrame m) (bashTimer m).
Definition set_isBashAnimating (v : bool) (m : Mole) : Mole :=
  mkMole (id m) (x m) (y m) (baseY m) (isVisible m) (isHit m) (isGoodMole m)
    (visibilityTimer m) (animationProgress m) (isAnimating m)
    v (bashFrame m) (bashTimer m).
Definition set_bashFrame (v : nat) (m : Mole) : Mole :=
  mkMole (id m) (x m) (y m) (baseY m) (isVisible m) (isHit m) (isGoodMole m)
    (visibilityTimer m) (animationProgress m) (isAnimating m)
    (isBashAnimating m) v (bashTimer m).
Definition set_bashTimer (v : option nat) (m : Mole) : Mole :=
  mkMole (id m) (x m) (y m) (baseY m) (isVisible m) (isHit m) (isGoodMole m)
    (visibilityTimer m) (animationProgress m) (isAnimating m)
    (isBashAnimating m) (bashFrame m) v.

Definition set_running (v : bool) (g : GameState) : GameState :=
  mkGameState v (paused g) (score g) (timeLeft g) (gameTimer g)
    (difficultyLevel g) (gameEnded g).
Definition set_paused (v : bool) (g : GameState) : GameState :=
  mkGameState (running g) v (score g) (timeLeft g) (gameTimer g)
    (difficultyLevel g) (gameEnded g).
Definition set_score (v : Z) (g : GameState) : GameState :=
  mkGameState (running g) (paused g) v (timeLeft g) (gameTimer g)
    (difficultyLevel g) (gameEnded g).
Definition set_timeLeft (v : Z) (g : GameState) : GameState :=
  mkGameState (running g) (paused g) (score g) v (gameTimer g)
    (difficultyLevel g) (gameEnded g).
Definition set_gameTimer (v : option nat) (g : GameState) : GameState :=
  mkGameState (running g) (paused g) (score g) (timeLeft g) v
    (difficultyLevel g) (gameEnded g).
Definition set_difficultyLevel (v : Z) (g : GameState) : GameState :=
  mkGameState (running g) (paused g) (score g) (timeLeft g) (gameTimer g)
    v (gameEnded g).
Definition set_gameEnded (v : bool) (g : GameState) : GameState :=
  mkGameState (running g) (paused g) (score g) (timeLeft g) (gameTimer g)
    (difficultyLevel g) v.

Definition set_gameState (v : GameState) (w : World) : World :=
  mkWorld v (moles w) (animationId w) (timers w) (nextHandle w).
Definition set_moles (v : list Mole) (w : World) : World :=
  mkWorld (gameState w) v (animationId w) (timers w) (nextHandle w).
Definition set_animationId (v : option nat) (w : World) : World :=
  mkWorld (gameState w) (moles w) v (timers w) (nextHandle w).
Definition set_timers (v : list Timer) (w : World) : World :=
  mkWorld (gameState w) (moles w) (animationId w) v (nextHandle w).

(** ** The state-and-error monad *)

(** A computation reads and writes the [World] and either completes with a
    value or throws ([None]). *)
Definition M (A : Type) : Type := World -> option (A * World).

Definition ret {A} (a : A) : M A := fun w => Some (a, w).

Definition bind {A B} (c : M A) (k : A -> M B) : M B :=
  fun w => match c w with
           | Some (a, w') => k a w'
           | None => None
           end.

Definition throw {A} : M A := fun _ => None.

Declare Scope js_scope.
Delimit Scope js_scope with js.
Notation "'let*' v ':=' c 'in' k" := (bind c (fun v => k))
  (at level 10, v name, c at level 100, k at level 200) : js_scope.
Notation "c '>>' k" := (bind c (fun _ => k))
  (at level 100, k at level 200, right associativity) : js_scope.
Local Open Scope js_scope.

(** Run a computation for its effect on the world. *)
Definition exec {A} (c : M A) (w : World) : option World :=
  match c w with Some (_, w') => Some w' | None => None end.

Definition getWorld : M World := fun w => Some (w, w).
Definition modifyWorld (f : World -> World) : M unit := fun w => Some (tt, f w).

Definition getGame : M GameState := fun w => Some (gameState w, w).
Definition modifyGame (f : GameState -> GameState) : M unit :=
  modifyWorld (fun w => set_gameState (f (gameState w)) w).

(** Reading a property of a possibly [undefined] value. *)
Definition deref {A} (o : option A) : M A :=
  match o with Some a => ret a | None => throw end.

(** The mole object at index [i] of [this.moles]; methods of a mole take
    this index as their receiver. *)
Definition getMole (i : nat) : M Mole :=
  let* w := getWorld in deref (moles w !! i).

Definition modifyMole (i : nat) (f : Mole -> Mole) : M unit :=
  let* m := getMole i in
  modifyWorld (fun w => set_moles (<[i := f m]> (moles w)) w).

(** [arr.forEach] over the indices of [this.moles]. *)
Fixpoint forIndices (f : nat -> M unit) (idxs : list nat) : M unit :=
  match idxs with
  | [] => ret tt
  | i :: rest => f i >> forIndices f rest
  end.

Definition forEachMole (f : nat -> M unit) : M unit :=
  let* w := getWorld in forIndices f (seq 0 (length (moles w))).

(** *** The browser's timers *)

Definition register (k : TimerKind) (cb : Callback) : M nat :=
  fun w =>
    let h := nextHandle w in
    Some (h, mkWorld (gameState w) (moles w) (animationId w)
               (timers w ++ [mkTimer h k cb]) (S h)).

Definition setTimeout (cb : Callback) (delay : Q) : M nat :=
  register (Timeout delay) cb.
Definition setInterval (cb : Callback) (delay : Q) : M nat :=
  register (Interval delay) cb.
Definition requestAnimationFrame (cb : Callback) : M nat :=
  register AnimationFrame cb.

Definition isAnimationFrame (t : Timer) : bool :=
  match kind t with AnimationFrame => true | _ => false end.

(** [clearTimeout] and [clearInterval] share one pool of handles. *)
Definition clearTimeout (h : nat) : M unit :=
  modifyWorld (fun w =>
    set_timers (filter (fun t => ¬ (handle t = h ∧ isAnimationFrame t = false))
                  (timers w)) w).
Definition clearInterval (h : nat) : M unit := clearTimeout h.

Definition cancelAnimationFrame (h : nat) : M unit :=
  modifyWorld (fun w =>
    set_timers (filter (fun t => ¬ (handle t = h ∧ isAnimationFrame t = true))
                  (timers w)) w).

(** [if (handle) { clear(handle); }] on a handle that may be [null]. *)
Definition whenSome {A} (o : option A) (f : A -> M unit) : M unit :=
  match o with Some a => f a | None => ret tt end.

(** The fragment
    [if (mole.visibilityTimer) { clearTimeout(mole.visibilityTimer);
    mole.visibilityTimer = null; }], which [hide], [start], [reset] and
    [gameOver] all contain, and its twin for [bashTimer]. *)
Definition clearVisibilityTimer (i : nat) : M unit :=
  let* mole := getMole i in
  whenSome (visibilityTimer mole) (fun h =>
    clearTimeout h >> modifyMole i (set_visibilityTimer None)).

Definition clearBashTimer (i : nat) : M unit :=
  let* mole := getMole i in
  whenSome (bashTimer mole) (fun h =>
    clearTimeout h >> modifyMole i (set_bashTimer None)).

(** [if (gameState.gameTimer) { clearInterval(gameState.gameTimer);
    gameState.gameTimer = null; }]. *)
Definition clearGameTimer : M unit :=
  let* g := getGame in
  whenSome (gameTimer g) (fun h =>
    clearInterval h >> modifyGame (set_gameTimer None)).

(** ** Code shared by both variants

    [getDifficultySettings], [Mole.update], [Mole.startBashAnimation],
    [Mole.hit] and [gameLoop] are the same text in both files, up to the
    numbers in the difficulty table (and the red flash, which is not
    modelled). *)

Section Shared.

(** The array literal [difficultySettings] of the variant. *)
Variable difficultySettings : list DifficultySettings.

(** [getDifficultySettings()]: recomputes [gameState.difficultyLevel]
    from [timeLeft] and returns that row of the table ([undefined] when
    the level is not an index of it). *)
Definition getDifficultySettings : M (option DifficultySettings) :=
  let* g := getGame in
  let timeElapsed := 60 - timeLeft g in
  let level := timeElapsed / 10 in   (* Math.floor(timeElapsed / 10) *)
  modifyGame (set_difficultyLevel (Z.min level 5)) >>
  let* g := getGame in
  ret (Js.index difficultySettings (difficultyLevel g)).

(** [Mole.update()]. *)
Definition update (i : nat) : M unit :=
  let* this := getMole i in
  if isAnimating this then
    let* d := getDifficultySettings in
    let* difficulty := deref d in
    (if isVisible this then
       modifyMole i (fun m =>
         set_animationProgress
           (animationProgress m + animationSpeed difficulty)%Q m) >>
       let* this := getMole i in
       if Js.ge (animationProgress this) 1 then
         modifyMole i (fun m =>
           set_isAnimating false (set_animationProgress 1%Q m))
       else ret tt
     else
       modifyMole i (fun m =>
         set_animationProgress
           (animationProgress m - animationSpeed difficulty)%Q m) >>
       let* this := getMole i in
       if Js.le (animationProgress this) 0 then
         modifyMole i (fun m =>
           set_isAnimating false (set_animationProgress 0%Q m))
       else ret tt) >>
    let popHeight := 290%Q in
    modifyMole i (fun m =>
      set_y (baseY m - animationProgress m * popHeight)%Q m)
  else ret tt.

(** [Mole.startBashAnimation()] and its two nested timeout closures. *)
Definition startBashAnimation (i : nat) : M unit :=
  modifyMole i (fun m => set_bashFrame 1 (set_isBashAnimating true m)) >>
  let* h := setTimeout (CbBash1 i) 100%Q in
  modifyMole i (set_bashTimer (Some h)).

Definition bashFrame1Done (i : nat) : M unit :=
  modifyMole i (set_bashFrame 2) >>
  let* h := setTimeout (CbBash2 i) 350%Q in
  modifyMole i (set_bashTimer (Some h)).

Definition bashFrame2Done (i : nat) : M unit :=
  modifyMole i (fun m =>
    set_bashTimer None (set_bashFrame 0 (set_isBashAnimating false m))).

(** [Mole.hit()]; returns whether the strike counted. *)
Definition hit (i : nat) : M bool :=
  let* this := getMole i in
  if isVisible this && negb (isHit this) then
    modifyMole i (set_isHit true) >>
    startBashAnimation i >>
    (if isGoodMole this then
       modifyGame (fun g => set_score (score g + 10) g)
     else
       modifyGame (fun g => set_score (score g - 20) g)) >>
    let* _ := setTimeout (CbHide i) 400%Q in
    ret true
  else ret false.

(** [gameLoop()]: one frame. *)
Definition gameLoop : M unit :=
  forEachMole update >>
  let* g := getGame in
  if running g then
    let* h := requestAnimationFrame CbFrame in
    modifyWorld (set_animationId (Some h))
  else ret tt.

End Shared.

(** The three moles built by the [WhackAMoleGame] constructor on a canvas
    of the given logical size, and the initial [gameState]. *)
Definition newMole (i : nat) (x0 y0 : Q) : Mole :=
  mkMole i x0 y0 y0 false false true None 0%Q false false 0 None.

Definition initialGameState : GameState :=
  mkGameState false false 0 60 None 0 false.

Definition construct (logicalWidth logicalHeight : Q) : World :=
  let holeSpacing := (logicalWidth / 8)%Q in
  mkWorld initialGameState
    [ newMole 0 (holeSpacing * 1.86)%Q (logicalHeight - 50)%Q;
      newMole 1 (holeSpacing * 4.04)%Q (logicalHeight - 50)%Q;
      newMole 2 (holeSpacing * 6.22)%Q (logicalHeight - 50)%Q ]
    None [] 1.

(** What the environment can do to the program. *)
Inductive Event :=
| ClickStart (rs : nat -> Q)   (* start-btn; [rs i] is the draw for mole [i] *)
| ClickPause (rs : nat -> Q)   (* pause-btn *)
| ClickReset                   (* reset-btn *)
| KeyDown (key : string)       (* keydown on the document *)
| Fire (h : nat) (r1 r2 : Q).  (* the browser runs the pending callback [h];
                                  [r1], [r2] are the draws it may consume *)

(** [keyToIndex[key.toLowerCase()]]. *)
Definition keyToIndex (key : string) : option nat :=
  let k := Js.toLowerCase key in
  if String.eqb k "a" then Some 0%nat
  else if String.eqb k "b" then Some 1%nat
  else if String.eqb k "c" then Some 2%nat
  else None.

(** The [keydown] listener: only the keys a, b, c reach [handleKeyPress]. *)
Definition onKeyDown (handleKeyPress : string -> M unit) (key : string)
  : M unit :=
  let key := Js.toLowerCase key in
  if String.eqb key "a" || String.eqb key "b" || String.eqb key "c"
  then handleKeyPress key else ret tt.

(** The pending callback with handle [h], if any. *)
Definition pending (h : nat) (w : World) : option Timer :=
  List.find (fun t => Nat.eqb (handle t) h) (timers w).

(** The browser runs callback [h]: a timeout or animation frame is
    consumed, an interval stays armed. *)
Definition fireWith (run : Callback -> M unit) (h : nat) : M unit :=
  let* w := getWorld in
  match pending h w with
  | None => ret tt
  | Some t =>
      (match kind t with
       | Interval _ => ret tt
       | _ => modifyWorld (fun w =>
                set_timers (filter (fun t' => handle t' ≠ h) (timers w)) w)
       end) >>
      run (callback t)
  end.

(** ** The current variant: [src/unnamed/part_000] *)

Module Part000.

(** The table of [getDifficultySettings], levels 0 to 5. *)
Definition difficultySettings : list DifficultySettings :=
  [ mkSettings 1000 2750 1750 4500 0.025;
    mkSettings 800 2500 1500 4300 0.030;
    mkSettings 650 2300 1300 4000 0.035;
    mkSettings 550 2100 1100 3700 0.040;
    mkSettings 450 1900 900 3500 0.045;
    mkSettings 350 1700 700 3300 0.050 ]%Q.

(** The delay computations of [show()] and [hide()]; [r] is the value of
    [Math.random()].  They are exact here; the code rounds each operation
    to a double (see [Double.sample]). *)
Definition animationBuffer : Q := 500%Q.

Definition baseShowDuration (difficulty : DifficultySettings) (r : Q) : Q :=
  (r * (maxShowTime difficulty - minShowTime difficulty)
   + minShowTime difficulty)%Q.

Definition showDuration (difficulty : DifficultySettings) (r : Q) : Q :=
  Js.Math_max (baseShowDuration difficulty r) animationBuffer.

Definition baseHideDuration (difficulty : DifficultySettings) (r : Q) : Q :=
  (r * (maxHideTime difficulty - minHideTime difficulty)
   + minHideTime difficulty)%Q.

Definition hideDuration (difficulty : DifficultySettings) (r : Q) : Q :=
  Js.Math_max (baseHideDuration difficulty r) animationBuffer.

(** [Mole.show()]; [r1] and [r2] are its two [Math.random()] draws. *)
Definition show (i : nat) (r1 r2 : Q) : M unit :=
  let* g := getGame in
  if negb (running g) || paused g then ret tt else
  let* this := getMole i in
  (* Don't show if already visible or animating *)
  if isVisible this || isAnimating this then ret tt else
  modifyMole i (fun m =>
    set_animationProgress 0%Q
      (set_isAnimating true (set_isHit false (set_isVisible true m)))) >>
  let randomValue := r1 in
  modifyMole i (set_isGoodMole (Js.lt randomValue 0.75%Q)) >>
  let* d := getDifficultySettings difficultySettings in
  let* difficulty := deref d in
  let* h := setTimeout (CbHide i) (showDuration difficulty r2) in
  modifyMole i (set_visibilityTimer (Some h)).

(** [Mole.hide()]; [r] is its [Math.random()] draw. *)
Definition hide (i : nat) (r : Q) : M unit :=
  let* this := getMole i in
  (* Don't hide if already hiding or not visible *)
  if negb (isVisible this) then ret tt else
  modifyMole i (fun m =>
    set_isAnimating true (set_isHit false (set_isVisible false m))) >>
  clearVisibilityTimer i >>
  let* g := getGame in
  if running g && negb (paused g) then
    let* d := getDifficultySettings difficultySettings in
    let* difficulty := deref d in
    let* _ := setTimeout (CbShow i) (hideDuration difficulty r) in
    ret tt
  else ret tt.

(** The body shared by the [forEach] loops of [reset()] and
    [gameOver()]: drop both timers of a mole and its bash animation. *)
Definition clearMoleTimers (i : nat) : M unit :=
  clearVisibilityTimer i >>
  clearBashTimer i >>
  modifyMole i (fun m => set_bashFrame 0 (set_isBashAnimating false m)).

(** [gameOver()]. *)
Definition gameOver : M unit :=
  modifyGame (fun g => set_gameEnded true (set_running false g)) >>
  clearGameTimer >>
  forEachMole (fun i =>
    modifyMole i (set_isVisible false) >>
    clearMoleTimers i).

(** The closure given to [setInterval] by [start()]. *)
Definition tick : M unit :=
  let* g := getGame in
  if negb (paused g) then
    modifyGame (fun g => set_timeLeft (timeLeft g - 1) g) >>
    let* g := getGame in
    if timeLeft g <=? 0 then gameOver else ret tt
  else ret tt.

(** [start()]; [rs i] is the draw for the initial delay of mole [i]. *)
Definition start (rs : nat -> Q) : M unit :=
  let* g := getGame in
  if running g && negb (paused g) then ret tt else
  clearGameTimer >>
  forEachMole (fun i =>
    clearVisibilityTimer i >>
    clearBashTimer i >>
    modifyMole i (fun m =>
      set_bashFrame 0 (set_isBashAnimating false
        (set_animationProgress 0%Q (set_isAnimating false
          (set_isHit false (set_isVisible false m))))))) >>
  modifyGame (fun g =>
    set_gameEnded false (set_difficultyLevel 0 (set_timeLeft 60
      (set_score 0 (set_paused false (set_running true g)))))) >>
  let* _ := getDifficultySettings difficultySettings in
  let* h := setInterval CbTick 1000%Q in
  modifyGame (set_gameTimer (Some h)) >>
  forEachMole (fun i =>
    let randomDelay := (rs i * 3000)%Q in
    let* _ := setTimeout (CbShow i) randomDelay in
    ret tt) >>
  gameLoop difficultySettings.

(** [pause()]. *)
Definition pause (rs : nat -> Q) : M unit :=
  let* g := getGame in
  if negb (running g) then start rs else
  modifyGame (fun g => set_paused (negb (paused g)) g).

(** [reset()]. *)
Definition reset : M unit :=
  modifyGame (fun g =>
    set_gameEnded false (set_timeLeft 60 (set_score 0
      (set_paused false (set_running false g))))) >>
  clearGameTimer >>
  forEachMole (fun i =>
    modifyMole i (fun m => set_isHit false (set_isVisible false m)) >>
    clearMoleTimers i) >>
  let* w := getWorld in
  whenSome (animationId w) cancelAnimationFrame.

(** [handleKeyPress(key)]. *)
Definition handleKeyPress (key : string) : M unit :=
  let* g := getGame in
  if negb (running g) || paused g then ret tt else
  match keyToIndex key with
  | None => ret tt
  | Some moleIndex =>
      let* w := getWorld in
      match moles w !! moleIndex with
      | None => ret tt
      | Some mole =>
          if isVisible mole && Js.gt (animationProgress mole) 0 then
            let* _ := hit moleIndex in ret tt
          else ret tt   (* No penalty for hitting empty slots *)
      end
  end.

(** What each closure does when the browser calls it. *)
Definition runCallback (r1 r2 : Q) (cb : Callback) : M unit :=
  match cb with
  | CbShow i => show i r1 r2
  | CbHide i => hide i r1
  | CbBash1 i => bashFrame1Done i
  | CbBash2 i => bashFrame2Done i
  | CbTick => tick
  | CbFrame => gameLoop difficultySettings
  end.

Definition fire (h : nat) (r1 r2 : Q) : M unit :=
  fireWith (runCallback r1 r2) h.

(** One event of the event loop; [None] is an uncaught [TypeError]. *)
Definition step (e : Event) (w : World) : option World :=
  match e with
  | ClickStart rs => exec (start rs) w
  | ClickPause rs => exec (pause rs) w
  | ClickReset => exec reset w
  | KeyDown key => exec (onKeyDown handleKeyPress key) w
  | Fire h r1 r2 => exec (fire h r1 r2) w
  end.

(** Running a list of events in order. *)
Fixpoint run (es : list Event) (w : World) : option World :=
  match es with
  | [] => Some w
  | e :: es' =>
      match step e w with
      | Some w' => run es' w'
      | None => None
      end
  end.

(** The worlds the page can be in: those built by the constructor and
    evolved by events. *)
Inductive reachable : World -> Prop :=
| reachable_init lw lh : reachable (construct lw lh)
| reachable_step e w w' :
    reachable w -> step e w = Some w' -> reachable w'.

End Part000.

(** ** The older variant: [src/game/app/static/game-files/whackabunny.js] *)

Module Whackabunny.

(** The table of [getDifficultySettings], levels 0 to 5. *)
Definition difficultySettings : list DifficultySettings :=
  [ mkSettings 800 2500 1500 4000 0.02;
    mkSettings 600 2200 1200 3800 0.025;
    mkSettings 500 2000 1000 3500 0.03;
    mkSettings 400 1800 800 3200 0.035;
    mkSettings 300 1600 600 3000 0.04;
    mkSettings 200 1400 400 2800 0.045 ]%Q.

(** The delays of [show()] and [hide()]: the sample itself (exact here,
    rounded to a double in the code, see [Double.sample]). *)
Definition showDuration (difficulty : DifficultySettings) (r : Q) : Q :=
  (r * (maxShowTime difficulty - minShowTime difficulty)
   + minShowTime difficulty)%Q.

Definition hideDuration (difficulty : DifficultySettings) (r : Q) : Q :=
  (r * (maxHideTime difficulty - minHideTime difficulty)
   + minHideTime difficulty)%Q.

(** [Mole.show()]. *)
Definition show (i : nat) (r1 r2 : Q) : M unit :=
  let* g := getGame in
  if negb (running g) || paused g then ret tt else
  modifyMole i (fun m =>
    set_animationProgress 0%Q
      (set_isAnimating true (set_isHit false (set_isVisible true m)))) >>
  let randomValue := r1 in
  modifyMole i (set_isGoodMole (Js.lt randomValue 0.75%Q)) >>
  let* d := getDifficultySettings difficultySettings in
  let* difficulty := deref d in
  let* h := setTimeout (CbHide i) (showDuration difficulty r2) in
  modifyMole i (set_visibilityTimer (Some h)).

(** [Mole.hide()]. *)
Definition hide (i : nat) (r : Q) : M unit :=
  modifyMole i (fun m =>
    set_isAnimating true (set_isHit false (set_isVisible false m))) >>
  clearVisibilityTimer i >>
  let* g := getGame in
  if running g && negb (paused g) then
    let* d := getDifficultySettings difficultySettings in
    let* difficulty := deref d in
    let* _ := setTimeout (CbShow i) (hideDuration difficulty r) in
    ret tt
  else ret tt.

(** [gameOver()]. *)
Definition gameOver : M unit :=
  modifyGame (set_running false) >>
  clearGameTimer >>
  forEachMole (fun i =>
    modifyMole i (set_isVisible false) >>
    clearVisibilityTimer i).

(** The closure given to [setInterval] by [start()]. *)
Definition tick : M unit :=
  let* g := getGame in
  if negb (paused g) then
    modifyGame (fun g => set_timeLeft (timeLeft g - 1) g) >>
    let* g := getGame in
    if timeLeft g <=? 0 then gameOver else ret tt
  else ret tt.

(** [start()]. *)
Definition start (rs : nat -> Q) : M unit :=
  let* g := getGame in
  if running g && negb (paused g) then ret tt else
  clearGameTimer >>
  forEachMole (fun i =>
    clearVisibilityTimer i >>
    clearBashTimer i >>
    modifyMole i (fun m =>
      set_bashFrame 0 (set_isBashAnimating false
        (set_animationProgress 0%Q (set_isAnimating false
          (set_isHit false (set_isVisible false m))))))) >>
  modifyGame (fun g =>
    set_difficultyLevel 0 (set_timeLeft 60
      (set_score 0 (set_paused false (set_running true g))))) >>
  let* h := setInterval CbTick 1000%Q in
  modifyGame (set_gameTimer (Some h)) >>
  forEachMole (fun i =>
    let randomDelay := (rs i * 3000)%Q in
    let* _ := setTimeout (CbShow i) randomDelay in
    ret tt) >>
  gameLoop difficultySettings.

(** [pause()]. *)
Definition pause : M unit :=
  modifyGame (fun g => set_paused (negb (paused g)) g).

(** [reset()]. *)
Definition reset : M unit :=
  modifyGame (fun g =>
    set_timeLeft 60 (set_score 0 (set_paused false (set_running false g)))) >>
  clearGameTimer >>
  forEachMole (fun i =>
    modifyMole i (fun m => set_isHit false (set_isVisible false m)) >>
    clearVisibilityTimer i >>
    clearBashTimer i >>
    modifyMole i (fun m => set_bashFrame 0 (set_isBashAnimating false m))) >>
  let* w := getWorld in
  whenSome (animationId w) cancelAnimationFrame.

(** [handleKeyPress(key)]. *)
Definition handleKeyPress (key : string) : M unit :=
  let* g := getGame in
  if negb (running g) || paused g then ret tt else
  match keyToIndex key with
  | None => ret tt
  | Some moleIndex =>
      let* w := getWorld in
      match moles w !! moleIndex with
      | None => ret tt
      | Some mole => let* _ := hit moleIndex in ret tt
      end
  end.

Definition runCallback (r1 r2 : Q) (cb : Callback) : M unit :=
  match cb with
  | CbShow i => show i r1 r2
  | CbHide i => hide i r1
  | CbBash1 i => bashFrame1Done i
  | CbBash2 i => bashFrame2Done i
  | CbTick => tick
  | CbFrame => gameLoop difficultySettings
  end.

Definition fire (h : nat) (r1 r2 : Q) : M unit :=
  fireWith (runCallback r1 r2) h.

Definition step (e : Event) (w : World) : option World :=
  match e with
  | ClickStart rs => exec (start rs) w
  | ClickPause _ => exec pause w
  | ClickReset => exec reset w
  | KeyDown key => exec (onKeyDown handleKeyPress key) w
  | Fire h r1 r2 => exec (fire h r1 r2) w
  end.

Fixpoint run (es : list Event) (w : World) : option World :=
  match es with
  | [] => Some w
  | e :: es' =>
      match step e w with
      | Some w' => run es' w'
      | None => None
      end
  end.

Inductive reachable : World -> Prop :=
| reachable_init lw lh : reachable (construct lw lh)
| reachable_step e w w' :
    reachable w -> step e w = Some w' -> reachable w'.

End Whackabunny.

(** ** Music speed and red flash (part_000 only) *)

(** The fields of the [Audio] element in [gameState.backgroundMusic] that
    [start()], [pause()], [reset()], [fadeOutMusic()] and
    [updateMusicSpeed()] write. *)
Record Audio := mkAudio {
  playbackRate : Q;
  volume : Q;
  musicPaused : bool;
  currentTime : Q
}.

Definition set_playbackRate (v : Q) (a : Audio) : Audio :=
  mkAudio v (volume a) (musicPaused a) (currentTime a).

(** [updateMusicSpeed()]: [backgroundMusic] is [null] ([None]) when the
    file failed to load. *)
Definition updateMusicSpeed (g : GameState) (backgroundMusic : option Audio)
  : option Audio :=
  match backgroundMusic with
  | None => None
  | Some music =>
      if negb (running g) then Some music else
      let timeElapsed := 60 - timeLeft g in
      let speed := (0.5 + (inject_Z timeElapsed / 60) * 1)%Q in
      Some (set_playbackRate speed music)
  end.

(** The red-flash fields of [gameState]. *)
Record Flash := mkFlash {
  redFlash : bool;
  redFlashOpacity : Q;
  redFlashAnimation : option nat
}.

Definition fadeInDuration : Q := 100%Q.
Definition fadeOutDuration : Q := 700%Q.
Definition totalDuration : Q := (fadeInDuration + fadeOutDuration)%Q.

(** One call of [animateFlash], the closure of [triggerRedFlash()]:
    [elapsed] is [Date.now() - startTime], [next] the handle that
    [requestAnimationFrame(animateFlash)] returns if it is called.  The
    result says whether it was called. *)
Definition animateFlash (elapsed : Q) (next : nat) (f : Flash)
  : Flash * bool :=
  if Js.lt elapsed fadeInDuration then
    (mkFlash (redFlash f) (elapsed / fadeInDuration * 0.5)%Q (Some next),
     true)
  else if Js.lt elapsed totalDuration then
    let fadeOutProgress := ((elapsed - fadeInDuration) / fadeOutDuration)%Q in
    (mkFlash (redFlash f) (0.5 * (1 - fadeOutProgress))%Q (Some next), true)
  else
    (mkFlash false 0%Q None, false).

(** The guard of the overlay in [draw()]:
    [gameState.redFlash && gameState.redFlashOpacity > 0]. *)
Definition flashDrawn (f : Flash) : bool :=
  redFlash f && Js.gt (redFlashOpacity f) 0.

(** * Vocabulary of the theorems *)

(** ** Weakest preconditions *)

(** [wp c Q w]: from [w], the computation [c] does not throw, and its result
    and final world satisfy [Q]. *)
Definition wp {A} (c : M A) (Q : A -> World -> Prop) (w : World) : Prop :=
  match c w with
  | Some (a, w') => Q a w'
  | None => False
  end.


(** ** Difficulty table *)

(** [b] is strictly harder than [a]: every duration bound is shorter and
    the animation is faster. *)
Definition tightens (a b : DifficultySettings) : Prop :=
  (minShowTime b < minShowTime a)%Q /\
  (maxShowTime b < maxShowTime a)%Q /\
  (minHideTime b < minHideTime a)%Q /\
  (maxHideTime b < maxHideTime a)%Q /\
  (animationSpeed a < animationSpeed b)%Q.

(** A table whose consecutive rows tighten. *)
Fixpoint steps_tighten (tbl : list DifficultySettings) : Prop :=
  match tbl with
  | a :: (b :: _) as rest => tightens a b /\ steps_tighten rest
  | _ => True
  end.

(** Tier [t2] of the table is harder than tier [t1]. *)
Definition harder_at (tbl : list DifficultySettings) (t1 t2 : nat) : Prop :=
  exists p1 p2,
    tbl !! t1 = Some p1 /\ tbl !! t2 = Some p2 /\
    (animationSpeed p1 <= animationSpeed p2)%Q /\
    (maxShowTime p2 <= maxShowTime p1)%Q /\
    tightens p1 p2.

(** A usable row: ordered bounds and a positive speed. *)
Definition row_ok (d : DifficultySettings) : Prop :=
  (minShowTime d < maxShowTime d)%Q /\
  (minHideTime d < maxHideTime d)%Q /\
  (0 < animationSpeed d)%Q.

(** ** Difficulty tier *)

(** The tier as the specification words it. *)
Definition tierFor (e : Z) : Z := Z.min (e / 10) 5.

(** The session's elapsed time, as the code derives it. *)
Definition elapsed (w : World) : Z := 60 - timeLeft (gameState w).

(** A world whose clock shows [e] elapsed seconds. *)
Definition atElapsed (e : Z) (w : World) : World :=
  set_gameState (set_timeLeft (60 - e) (gameState w)) w.

(** [gameState.difficultyLevel] once [getDifficultySettings()] has run. *)
Definition levelAfter (tbl : list DifficultySettings) (w : World) : option Z :=
  match getDifficultySettings tbl w with
  | Some (_, w') => Some (difficultyLevel (gameState w'))
  | None => None
  end.

(** ** Strikes *)

(** The score change of a strike that counts. *)
Definition points (m : Mole) : Z := if isGoodMole m then 10 else -20.

(** A running session whose only bunny is hostile, fully up and not yet
    struck, at score 0. *)
Definition hostileUp : World :=
  mkWorld (mkGameState true false 0 55 (Some 1%nat) 0 false)
    [ mkMole 0 186 60 350 true false false (Some 2%nat) 1 false false 0 None ]
    None
    [ mkTimer 1 (Interval 1000) CbTick;
      mkTimer 2 (Timeout 1200) (CbHide 0) ]
    3.

(** A running session whose bunnies are all down. *)
Definition allDown : World :=
  mkWorld (mkGameState true false 30 42 (Some 1%nat) 1 false)
    [ newMole 0 186 350; newMole 1 404 350; newMole 2 622 350 ]
    None
    [ mkTimer 1 (Interval 1000) CbTick;
      mkTimer 7 (Timeout 2000) (CbShow 0) ]
    8.

(** ** Invariants of the event loop *)

Definition progress_ok (m : Mole) : Prop :=
  (0 <= animationProgress m <= 1)%Q.

(** A mole's timer handles were issued already and are not the session
    clock's handle. *)
Definition handle_ok (n : nat) (clock : option nat) (o : option nat) : Prop :=
  forall h, o = Some h -> (h < n)%nat /\ clock <> Some h.

Definition mole_ok (n : nat) (clock : option nat) (m : Mole) : Prop :=
  progress_ok m /\
  handle_ok n clock (visibilityTimer m) /\
  handle_ok n clock (bashTimer m).

(** The mole captured by a closure exists. *)
Definition callback_ok (cb : Callback) : Prop :=
  match cb with
  | CbShow i | CbHide i | CbBash1 i | CbBash2 i => (i < 3)%nat
  | CbTick | CbFrame => True
  end.

(** A pending callback was issued already and captures an existing mole;
    a pending clock tick is the interval held in [gameState.gameTimer] of a
    running session with time left. *)
Definition timer_ok (n : nat) (g : GameState) (t : Timer) : Prop :=
  (handle t < n)%nat /\
  callback_ok (callback t) /\
  (callback t = CbTick ->
     kind t = Interval 1000 /\ gameTimer g = Some (handle t) /\
     running g = true /\ 1 <= timeLeft g).

Definition game_ok (g : GameState) : Prop :=
  0 <= timeLeft g <= 60 /\
  (running g = true -> gameEnded g = false).

(** The handle in [gameState.gameTimer] is that of a pending tick. *)
Definition clock_armed (w : World) : Prop :=
  forall h, gameTimer (gameState w) = Some h ->
    (h < nextHandle w)%nat /\
    exists t, t ∈ timers w /\ handle t = h /\ callback t = CbTick.

Record Inv (w : World) : Prop := mkInv {
  inv_length : length (moles w) = 3%nat;
  inv_moles :
    Forall (mole_ok (nextHandle w) (gameTimer (gameState w))) (moles w);
  inv_timers : Forall (timer_ok (nextHandle w) (gameState w)) (timers w);
  inv_nodup : NoDup (handle <$> timers w);
  inv_game : game_ok (gameState w);
  inv_clock : clock_armed w
}.

(** The part of [gameState] that only the commands and the clock tick
    change. *)
Definition clockOf (w : World)
  : bool * bool * Z * option nat * bool :=
  let g := gameState w in
  (running g, paused g, timeLeft g, gameTimer g, gameEnded g).

(** ** Event traces *)

Definition isCommand (e : Event) : bool :=
  match e with
  | ClickStart _ | ClickPause _ | ClickReset => true
  | _ => false
  end.

(** [e] fires the callback with handle [h]. *)
Definition fires (h : nat) (e : Event) : bool :=
  match e with
  | Fire h' _ _ => Nat.eqb h' h
  | _ => false
  end.

(** How often the callback with handle [h] fires in a trace. *)
Definition ticks (h : nat) (es : list Event) : Z :=
  Z.of_nat (length (List.filter (fires h) es)).

(** No click on a button. *)
Definition quiet (es : list Event) : Prop :=
  Forall (fun e => isCommand e = false) es.

(** The session clock after [n] remaining seconds: armed with handle [h]
    while time is left, stopped and ended at 0; never paused. *)
Definition Clock (h : nat) (n : Z) (w : World) : Prop :=
  let g := gameState w in
  timeLeft g = n /\ paused g = false /\
  if n =? 0
  then running g = false /\ gameEnded g = true /\ gameTimer g = None
  else running g = true /\ gameEnded g = false /\ gameTimer g = Some h.

(** ** Example inputs *)

(** Every [Math.random()] draw is 0. *)
Definition zeroDraws : nat -> Q := fun _ => 0%Q.

(** A running session at 55 elapsed seconds (level 5), bunnies down. *)
Definition lateGame : World :=
  mkWorld (mkGameState true false 40 5 (Some 1%nat) 5 false)
    [ newMole 0 186 350; newMole 1 404 350; newMole 2 622 350 ]
    None
    [ mkTimer 1 (Interval 1000) CbTick ]
    2.

(** The pending callbacks after [if (h) clearTimeout(h)]. *)
Definition withoutTimeout (o : option nat) (ts : list Timer) : list Timer :=
  match o with
  | Some h =>
      filter (fun t => ¬ (handle t = h ∧ isAnimationFrame t = false)) ts
  | None => ts
  end.

(** The fields [show()] writes before it schedules the hide. *)
Definition shown (r1 : Q) (h : nat) (m : Mole) : Mole :=
  set_visibilityTimer (Some h)
    (set_isGoodMole (Js.lt r1 0.75)
       (set_animationProgress 0
          (set_isAnimating true (set_isHit false (set_isVisible true m))))).

(** The fields [hide()] writes. *)
Definition hidden (m : Mole) : Mole :=
  set_visibilityTimer None
    (set_isAnimating true (set_isHit false (set_isVisible false m))).

(** What every callback other than the clock tick guarantees: the
    invariant again, and an untouched clock. *)
Definition quietly {A} (w : World) : A -> World -> Prop :=
  fun _ w' => Inv w' /\ clockOf w' = clockOf w.

(** What the loops over the moles guarantee: the invariant, and
    [gameState] as it was. *)
Definition keeping (w : World) : unit -> World -> Prop :=
  fun _ w' => Inv w' /\ gameState w' = gameState w.

(** What a fired clock tick does to a session whose clock has handle [h]:
    nothing while paused; otherwise one second less, and at 0 the session
    stops and is marked ended. *)
Definition ticked (h : nat) (w w' : World) : Prop :=
  let g := gameState w in
  let g' := gameState w' in
  if paused g then g' = g
  else
    timeLeft g' = timeLeft g - 1 /\ paused g' = false /\
    if timeLeft g - 1 =? 0
    then running g' = false /\ gameEnded g' = true /\ gameTimer g' = None
    else running g' = true /\ gameEnded g' = gameEnded g /\
         gameTimer g' = Some h.

(** ** Reset *)

(** Every [Math.random()] draw is 0.5. *)
Definition halfDraws : nat -> Q := fun _ => 0.5%Q.

(** The fields the [forEach] loop of [reset()] writes. *)
Definition cleared (m : Mole) : Mole :=
  set_bashFrame 0 (set_isBashAnimating false
    (set_bashTimer None (set_visibilityTimer None
       (set_isHit false (set_isVisible false m))))).

(** A mole as [reset()] leaves it: down, not struck, no bash animation, and
    both timer handles [null]. *)
Definition mole_reset (m : Mole) : Prop :=
  isVisible m = false /\ isHit m = false /\
  visibilityTimer m = None /\ bashTimer m = None /\
  isBashAnimating m = false /\ bashFrame m = 0%nat.

(** No pending timeout or interval has the handle [o]. *)
Definition not_pending (o : option nat) (ts : list Timer) : Prop :=
  forall h t, o = Some h -> t ∈ ts -> isAnimationFrame t = false ->
              handle t <> h.

(** The timers after the loop of [reset()] over the moles [ms]. *)
Fixpoint withoutMoleTimers (ms : list Mole) (ts : list Timer) : list Timer :=
  match ms with
  | [] => ts
  | m :: ms' =>
      withoutMoleTimers ms'
        (withoutTimeout (bashTimer m) (withoutTimeout (visibilityTimer m) ts))
  end.

(** A pending timeout whose handle is stored neither in
    [gameState.gameTimer] nor in a mole. *)
Definition untracked (w : World) (t : Timer) : Prop :=
  isAnimationFrame t = false /\
  gameTimer (gameState w) <> Some (handle t) /\
  Forall (fun m => visibilityTimer m <> Some (handle t) /\
                   bashTimer m <> Some (handle t)) (moles w).

(** What [reset()] leaves behind, in terms of the world [w] before it. *)
Definition after_reset (w w' : World) : Prop :=
  let g' := gameState w' in
  score g' = 0 /\ timeLeft g' = 60 /\
  running g' = false /\ paused g' = false /\
  gameTimer g' = None /\
  moles w' = cleared <$> moles w /\
  Forall mole_reset (moles w') /\
  (forall t, t ∈ timers w' -> t ∈ timers w) /\
  not_pending (gameTimer (gameState w)) (timers w') /\
  Forall (fun m => not_pending (visibilityTimer m) (timers w') /\
                   not_pending (bashTimer m) (timers w')) (moles w) /\
  (forall t, t ∈ timers w -> untracked w t -> t ∈ timers w').

(** The invariant of whackabunny.js, which has no [gameEnded] flag. *)
Definition InvW (w : World) : Prop :=
  Inv w /\ gameEnded (gameState w) = false.

(** ** Further vocabulary: the shape of the states and of the steps *)

(** A running session holds the handle of its clock. *)
Definition clock_held (w : World) : Prop :=
  running (gameState w) = true -> gameTimer (gameState w) <> None.

(** The pending callbacks after [if (id) cancelAnimationFrame(id)]. *)
Definition withoutFrame (o : option nat) (ts : list Timer) : list Timer :=
  match o with
  | Some h =>
      filter (fun t => ¬ (handle t = h ∧ isAnimationFrame t = true)) ts
  | None => ts
  end.

(** The world [reset()] leaves behind, given the [gameState] it wrote. *)
Definition resetTo (g' : GameState) (w : World) : World :=
  mkWorld g' (cleared <$> moles w) (animationId w)
    (withoutFrame (animationId w)
       (withoutMoleTimers (moles w)
          (withoutTimeout (gameTimer (gameState w)) (timers w))))
    (nextHandle w).

(** The fields the first loop of [start()] writes. *)
Definition started (m : Mole) : Mole :=
  set_bashFrame 0 (set_isBashAnimating false
    (set_animationProgress 0 (set_isAnimating false
       (set_isHit false (set_isVisible false
          (set_bashTimer None (set_visibilityTimer None m))))))).

(** The fields the loop of [gameOver()] in part_000 writes. *)
Definition gone (m : Mole) : Mole :=
  set_bashFrame 0 (set_isBashAnimating false
    (set_bashTimer None (set_visibilityTimer None (set_isVisible false m)))).

(** The first appearances [start()] schedules, one per mole, with handles
    from [n] on; [rs i] is the draw of mole [i]. *)
Definition showTimers (rs : nat -> Q) (n len : nat) : list Timer :=
  (fun i => mkTimer (n + i) (Timeout (rs i * 3000)) (CbShow i)) <$> seq 0 len.

(** The world a (re)started session begins in; [ended] is the value of
    [gameEnded], which only part_000 resets.  The old clock and the timers
    the moles hold are dropped; the clock, one [show()] per mole and one
    animation frame are scheduled, in this order. *)
Definition startTo (rs : nat -> Q) (ended : bool) (w : World) : World :=
  let n := nextHandle w in
  let len := length (moles w) in
  mkWorld (mkGameState true false 0 60 (Some n) 0 ended)
    (started <$> moles w)
    (Some (S n + len)%nat)
    ((withoutMoleTimers (moles w)
        (withoutTimeout (gameTimer (gameState w)) (timers w)) ++
      [mkTimer n (Interval 1000) CbTick]) ++
     showTimers rs (S n) len ++
     [mkTimer (S n + len) AnimationFrame CbFrame])
    (S (S n + len)).

(** The world [gameOver()] of part_000 leaves behind. *)
Definition gameOverTo (w : World) : World :=
  mkWorld
    (set_gameTimer None (set_gameEnded true (set_running false (gameState w))))
    (gone <$> moles w) (animationId w)
    (withoutMoleTimers (moles w)
       (withoutTimeout (gameTimer (gameState w)) (timers w)))
    (nextHandle w).

(** The level indexes the difficulty table and the score is a multiple of
    10. *)
Definition game_shape (g : GameState) : Prop :=
  0 <= difficultyLevel g <= 5 /\ (10 | score g).

(** The [hide()] callback of mole [i] is pending under the handle stored in
    its [visibilityTimer]. *)
Definition hide_pending (i : nat) (m : Mole) (ts : list Timer) : Prop :=
  exists h d,
    visibilityTimer m = Some h /\ mkTimer h (Timeout d) (CbHide i) ∈ ts.

(** The visibility states of a bunny: at rest it is fully out when visible
    and, in a running session, fully in when hidden; a hidden bunny holds
    no handle. *)
Definition mole_shape (run : bool) (m : Mole) : Prop :=
  (isVisible m = true -> isAnimating m = false ->
   animationProgress m = 1%Q) /\
  (run = true -> isVisible m = false -> isAnimating m = false ->
   animationProgress m = 0%Q) /\
  (isVisible m = false -> visibilityTimer m = None).

(** [ShapeBut skip w]: the shape of [w], except that the pending [hide()]
    of the mole [skip] is not required (the browser has just consumed
    it). *)
Record ShapeBut (skip : option nat) (w : World) : Prop := mkShape {
  shape_game : game_shape (gameState w);
  shape_moles : forall i m,
    moles w !! i = Some m -> mole_shape (running (gameState w)) m;
  shape_hides : forall i m,
    moles w !! i = Some m -> skip <> Some i -> isVisible m = true ->
    hide_pending i m (timers w);
  shape_distinct : forall i j mi mj h,
    i <> j -> moles w !! i = Some mi -> moles w !! j = Some mj ->
    visibilityTimer mi = Some h -> visibilityTimer mj <> Some h
}.

Definition Shape (w : World) : Prop := ShapeBut None w.

(** A session in which bunnies appear and strikes count. *)
Definition active (w : World) : bool :=
  running (gameState w) && negb (paused (gameState w)).

(** What one event may do to a bunny: while it is up, its kind stays and a
    strike stays latched; it comes up only in an active session. *)
Definition mole_foot (act : bool) (m m' : Mole) : Prop :=
  (isVisible m = true -> isGoodMole m' = isGoodMole m) /\
  (isVisible m = true -> isHit m = true -> isVisible m' = true ->
   isHit m' = true) /\
  (isVisible m' = true -> isVisible m = true \/ act = true).

Definition Foot (w w' : World) : Prop :=
  forall i m m', moles w !! i = Some m -> moles w' !! i = Some m' ->
                 mole_foot (active w) m m'.

(** What a callback other than a strike guarantees. *)
Definition calmly (w : World) : unit -> World -> Prop :=
  fun _ w' =>
    Shape w' /\ Foot w w' /\
    score (gameState w') = score (gameState w).

(** The bunnies show the same faces: nothing the player sees of their
    kind, visibility or struck flag differs. *)
Definition same_faces (w w' : World) : Prop :=
  length (moles w') = length (moles w) /\
  forall i m m', moles w !! i = Some m -> moles w' !! i = Some m' ->
    isVisible m' = isVisible m /\ isHit m' = isHit m /\
    isGoodMole m' = isGoodMole m.

(** What a strike guarantees: the shape, and the score changes only when
    the strike counts: in an active session, on a bunny [ok] that is up
    and not yet struck, by the points of its kind. *)
Definition struck (ok : nat -> Mole -> Prop) (w : World)
  : unit -> World -> Prop :=
  fun _ w' =>
    Shape w' /\ Foot w w' /\
    (score (gameState w') = score (gameState w) \/
     active w = true /\
     exists i m, ok i m /\ moles w !! i = Some m /\
       isVisible m = true /\ isHit m = false /\
       score (gameState w') = score (gameState w) + points m).

(** The bunny that [handleKeyPress(key)] of part_000 strikes: the one
    under the key, provided it is out of its hole. *)
Definition under_key (key : string) (i : nat) (m : Mole) : Prop :=
  keyToIndex key = Some i /\ Js.gt (animationProgress m) 0 = true.

(** How one event may change the score: not at all; by the points of the
    bunny under the key, for a key press that counts; to 0, for a click
    on a button. *)
Definition score_step (e : Event) (w w' : World) : Prop :=
  score (gameState w') = score (gameState w) \/
  match e with
  | KeyDown key =>
      active w = true /\
      exists i m, under_key (Js.toLowerCase key) i m /\
        moles w !! i = Some m /\
        isVisible m = true /\ isHit m = false /\
        score (gameState w') = score (gameState w) + points m
  | Fire _ _ _ => False
  | ClickStart _ | ClickPause _ | ClickReset => score (gameState w') = 0
  end.

(** *** More example inputs *)

(** The world after a run from a fresh 800 x 400 page (the page itself
    should an event throw, which none does). *)
Definition after (es : list Event) : World :=
  default (construct 800 400) (Part000.run es (construct 800 400)).

(** A session in which the left bunny, a hostile one, has just begun to
    come up: started, its [show()] fired, one frame drawn. *)
Definition oneUp : World :=
  after [ClickStart halfDraws; Fire 2 0.9 0.5; Fire 5 0 0].

(** The same session, paused. *)
Definition pausedUp : World :=
  after [ClickStart halfDraws; Fire 2 0.9 0.5; Fire 5 0 0;
         ClickPause halfDraws].

(** The left bunny of [oneUp] and of [pausedUp], and the middle one of
    [pausedUp]. *)
Definition oneUpLeft : Mole := default (newMole 0 0 0) (moles oneUp !! 0%nat).

Definition pausedLeft : Mole :=
  default (newMole 0 0 0) (moles pausedUp !! 0%nat).


(** The world after a run of whackabunny.js from a fresh 800 x 400
    page. *)
Definition afterW (es : list Event) : World :=
  default (construct 800 400) (Whackabunny.run es (construct 800 400)).

(** whackabunny.js: a session in which the left bunny is up and has been
    struck. *)
Definition struckUpW : World :=
  afterW [ClickStart halfDraws; Fire 2 0.9 0.5; Fire 5 0 0; KeyDown "a"].

Definition struckLeftW : Mole :=
  default (newMole 0 0 0) (moles struckUpW !! 0%nat).

(** Timer and key events fired at a paused session. *)
Definition pausedEvents : list Event :=
  [Fire 1 0 0; KeyDown "a"; Fire 6 0.3 0.3; Fire 7 0 0].

(** An audio element as [initializeBackgroundMusic()] sets it up. *)
Definition freshMusic : Audio := mkAudio 1 0.3 true 0.
(** * Reasoning about computations *)

Section WpRules.

Context {A B : Type}.

Lemma wp_ret (a : A) Q w : Q a w -> wp (ret a) Q w.
Proof. done. Qed.

Lemma wp_bind (c : M A) (k : A -> M B) Q w :
  wp c (fun a w' => wp (k a) Q w') w -> wp (bind c k) Q w.
Proof. unfold wp, bind. destruct (c w) as [[a w']|]; done. Qed.

Lemma wp_bind_inv (c : M A) (k : A -> M B) Q w :
  wp (bind c k) Q w -> wp c (fun a w' => wp (k a) Q w') w.
Proof. unfold wp, bind. destruct (c w) as [[a w']|]; done. Qed.

Lemma wp_mono (c : M A) (Q Q' : A -> World -> Prop) w :
  wp c Q w -> (forall a w', Q a w' -> Q' a w') -> wp c Q' w.
Proof. unfold wp. destruct (c w) as [[a w']|]; auto. Qed.

Lemma wp_eq (c : M A) Q w :
  wp c Q w <-> exists a w', c w = Some (a, w') /\ Q a w'.
Proof.
  unfold wp. split.
  - destruct (c w) as [[a w']|]; [eauto | done].
  - intros (a & w' & -> & H). done.
Qed.

Lemma wp_deref (o : option A) a Q w :
  o = Some a -> Q a w -> wp (deref o) Q w.
Proof. by intros ->. Qed.

End WpRules.

Lemma wp_getWorld Q w : Q w w -> wp getWorld Q w.
Proof. done. Qed.

Lemma wp_getGame Q w : Q (gameState w) w -> wp getGame Q w.
Proof. done. Qed.

Lemma wp_modifyWorld f (Q : unit -> World -> Prop) w :
  Q tt (f w) -> wp (modifyWorld f) Q w.
Proof. done. Qed.

Lemma wp_modifyGame f (Q : unit -> World -> Prop) w :
  Q tt (set_gameState (f (gameState w)) w) -> wp (modifyGame f) Q w.
Proof. done. Qed.

Lemma wp_getMole i m Q w :
  moles w !! i = Some m -> Q m w -> wp (getMole i) Q w.
Proof. unfold wp, getMole, bind, getWorld. by intros ->. Qed.

Lemma wp_modifyMole i f m (Q : unit -> World -> Prop) w :
  moles w !! i = Some m ->
  Q tt (set_moles (<[i := f m]> (moles w)) w) ->
  wp (modifyMole i f) Q w.
Proof.
  unfold wp, modifyMole, getMole, bind, getWorld. by intros ->.
Qed.

Lemma wp_register k cb (Q : nat -> World -> Prop) w :
  Q (nextHandle w)
    (mkWorld (gameState w) (moles w) (animationId w)
       (timers w ++ [mkTimer (nextHandle w) k cb]) (S (nextHandle w))) ->
  wp (register k cb) Q w.
Proof. done. Qed.

Lemma wp_whenSome {A} (o : option A) (f : A -> M unit) Q w :
  match o with Some a => wp (f a) Q w | None => Q tt w end ->
  wp (whenSome o f) Q w.
Proof. by destruct o. Qed.

(** A loop over indices keeps an invariant that each iteration keeps. *)
Lemma wp_forIndices (I : World -> Prop) f idxs w :
  (forall i w', i ∈ idxs -> I w' -> wp (f i) (fun _ => I) w') ->
  I w -> wp (forIndices f idxs) (fun _ => I) w.
Proof.
  revert w. induction idxs as [|i idxs IH]; intros w Hf HI; [done|].
  cbn [forIndices]. apply wp_bind.
  eapply wp_mono; [apply Hf; [left | done]|].
  intros [] w' HI'. apply IH; [|done].
  intros j w'' Hj. apply Hf. by right.
Qed.

(** The invariant may mention how far the loop has come. *)
Lemma wp_forIndices_upto (I : nat -> World -> Prop) f n k w :
  (forall i w', (k <= i < k + n)%nat -> I i w' ->
     wp (f i) (fun _ => I (S i)) w') ->
  I k w -> wp (forIndices f (seq k n)) (fun _ => I (k + n)%nat) w.
Proof.
  revert k w. induction n as [|n IH]; intros k w Hf HI.
  - cbn. by rewrite Nat.add_0_r.
  - cbn [seq forIndices]. apply wp_bind.
    eapply wp_mono; [apply Hf; [lia | done]|].
    intros [] w' HI'. replace (k + S n)%nat with (S k + n)%nat by lia.
    apply IH; [|done]. intros j w'' Hj. apply Hf. lia.
Qed.

Lemma wp_getDifficultySettings tbl Q w :
  Q (Js.index tbl (Z.min ((60 - timeLeft (gameState w)) / 10) 5))
    (set_gameState
       (set_difficultyLevel (Z.min ((60 - timeLeft (gameState w)) / 10) 5)
          (gameState w)) w) ->
  wp (getDifficultySettings tbl) Q w.
Proof. done. Qed.

Lemma set_visibilityTimer_id m :
  visibilityTimer m = None -> set_visibilityTimer None m = m.
Proof. destruct m; cbn. by intros ->. Qed.

Lemma set_bashTimer_id m : bashTimer m = None -> set_bashTimer None m = m.
Proof. destruct m; cbn. by intros ->. Qed.

Lemma set_gameTimer_id g : gameTimer g = None -> set_gameTimer None g = g.
Proof. destruct g; cbn. by intros ->. Qed.

Lemma wp_clearVisibilityTimer i m (Q : unit -> World -> Prop) w :
  moles w !! i = Some m ->
  Q tt (set_moles (<[i := set_visibilityTimer None m]> (moles w))
          (set_timers (withoutTimeout (visibilityTimer m) (timers w)) w)) ->
  wp (clearVisibilityTimer i) Q w.
Proof.
  intros Hm HQ. unfold clearVisibilityTimer. apply wp_bind.
  apply (wp_getMole i m); [done|].
  destruct (visibilityTimer m) as [h|] eqn:Hv; cbn [whenSome withoutTimeout] in *.
  - apply wp_bind, wp_modifyWorld. by apply (wp_modifyMole i _ m).
  - apply wp_ret. rewrite set_visibilityTimer_id, list_insert_id in HQ by done.
    by destruct w.
Qed.

Lemma wp_clearBashTimer i m (Q : unit -> World -> Prop) w :
  moles w !! i = Some m ->
  Q tt (set_moles (<[i := set_bashTimer None m]> (moles w))
          (set_timers (withoutTimeout (bashTimer m) (timers w)) w)) ->
  wp (clearBashTimer i) Q w.
Proof.
  intros Hm HQ. unfold clearBashTimer. apply wp_bind.
  apply (wp_getMole i m); [done|].
  destruct (bashTimer m) as [h|] eqn:Hv; cbn [whenSome withoutTimeout] in *.
  - apply wp_bind, wp_modifyWorld. by apply (wp_modifyMole i _ m).
  - apply wp_ret. rewrite set_bashTimer_id, list_insert_id in HQ by done.
    by destruct w.
Qed.

Lemma wp_clearGameTimer (Q : unit -> World -> Prop) w :
  Q tt (set_gameState (set_gameTimer None (gameState w))
          (set_timers (withoutTimeout (gameTimer (gameState w)) (timers w))
             w)) ->
  wp clearGameTimer Q w.
Proof.
  intros HQ. unfold clearGameTimer. apply wp_bind, wp_getGame.
  destruct (gameTimer (gameState w)) as [h|] eqn:Hg;
    cbn [whenSome withoutTimeout] in *.
  - by apply wp_bind, wp_modifyWorld, wp_modifyGame.
  - apply wp_ret. rewrite set_gameTimer_id in HQ by done. by destruct w.
Qed.

(** ** Symbolic execution of straight-line code *)

Ltac simpl_world :=
  cbn [gameState moles animationId timers nextHandle
       set_gameState set_moles set_animationId set_timers
       running paused score timeLeft gameTimer difficultyLevel gameEnded
       set_running set_paused set_score set_timeLeft set_gameTimer
       set_difficultyLevel set_gameEnded elapsed tierFor] in *.

Ltac simpl_mole :=
  cbn [id x y baseY isVisible isHit isGoodMole visibilityTimer
       animationProgress isAnimating isBashAnimating bashFrame bashTimer
       set_y set_isVisible set_isHit set_isGoodMole set_visibilityTimer
       set_animationProgress set_isAnimating set_isBashAnimating
       set_bashFrame set_bashTimer] in *.

Ltac solve_lookup :=
  simpl_world;
  repeat (rewrite list_lookup_insert_eq
            by (rewrite ?length_insert; eauto using lookup_lt_Some));
  first [eassumption | reflexivity].

Ltac simpl_goal :=
  cbv beta iota;
  cbn [negb andb orb
       gameState moles animationId timers nextHandle
       set_gameState set_moles set_animationId set_timers
       running paused score timeLeft gameTimer difficultyLevel gameEnded
       set_running set_paused set_score set_timeLeft set_gameTimer
       set_difficultyLevel set_gameEnded].

Ltac wp_step_core :=
  lazymatch goal with
  | |- wp (bind _ _) _ _ => apply wp_bind
  | |- wp (ret _) _ _ => apply wp_ret
  | |- wp getGame _ _ => apply wp_getGame
  | |- wp getWorld _ _ => apply wp_getWorld
  | |- wp (modifyGame _) _ _ => apply wp_modifyGame
  | |- wp (modifyWorld _) _ _ => apply wp_modifyWorld
  | |- wp (getMole _) _ _ => eapply wp_getMole; [solve_lookup|]
  | |- wp (modifyMole _ _) _ _ => eapply wp_modifyMole; [solve_lookup|]
  | |- wp (setTimeout _ _) _ _ => apply wp_register
  | |- wp (setInterval _ _) _ _ => apply wp_register
  | |- wp (requestAnimationFrame _) _ _ => apply wp_register
  | |- wp (register _ _) _ _ => apply wp_register
  | |- wp (clearTimeout _) _ _ => apply wp_modifyWorld
  | |- wp (clearInterval _) _ _ => apply wp_modifyWorld
  | |- wp (cancelAnimationFrame _) _ _ => apply wp_modifyWorld
  | |- wp (whenSome _ _) _ _ => apply wp_whenSome; simpl_mole
  | |- wp (clearVisibilityTimer _) _ _ =>
      eapply wp_clearVisibilityTimer; [solve_lookup|]
  | |- wp (clearBashTimer _) _ _ => eapply wp_clearBashTimer; [solve_lookup|]
  | |- wp clearGameTimer _ _ => apply wp_clearGameTimer
  | |- wp (getDifficultySettings _) _ _ => apply wp_getDifficultySettings
  | |- wp (deref _) _ _ => eapply wp_deref; [simpl_world; eassumption|]
  end.

Ltac wp_step := simpl_goal; wp_step_core; simpl_goal.

Ltac wp_run := repeat wp_step; simpl_goal.

Ltac Qcompare := unfold Qlt, Qle; cbn; lia.

(** * The difficulty scheduler *)

Lemma tightens_trans a b c : tightens a b -> tightens b c -> tightens a c.
Proof.
  unfold tightens. intros (?&?&?&?&?) (?&?&?&?&?).
  repeat split; lra.
Qed.

Lemma steps_tighten_tail a tbl : steps_tighten (a :: tbl) -> steps_tighten tbl.
Proof. destruct tbl; [done | by intros [_ ?]]. Qed.

Lemma steps_tighten_head a tbl t p :
  steps_tighten (a :: tbl) -> tbl !! t = Some p -> tightens a p.
Proof.
  revert a tbl p. induction t as [|t IH]; intros a tbl p Hst Hp.
  - destruct tbl as [|b tbl]; [done|]. injection Hp as <-. apply Hst.
  - destruct tbl as [|b tbl]; [done|]. cbn in Hp.
    apply tightens_trans with b; [apply Hst|].
    apply (IH b tbl p); [by apply steps_tighten_tail in Hst | done].
Qed.

Lemma steps_tighten_lookup tbl :
  steps_tighten tbl ->
  forall t1 t2 p1 p2, (t1 < t2)%nat ->
    tbl !! t1 = Some p1 -> tbl !! t2 = Some p2 -> tightens p1 p2.
Proof.
  induction tbl as [|a tbl IH]; intros Hst t1 t2 p1 p2 Hlt H1 H2; [done|].
  destruct t2 as [|t2]; [lia|]. cbn in H2.
  destruct t1 as [|t1]; cbn in H1.
  - injection H1 as <-. by apply steps_tighten_head with tbl t2.
  - apply (IH (steps_tighten_tail _ _ Hst) t1 t2); [lia | done | done].
Qed.

Lemma Part000_steps_tighten : steps_tighten Part000.difficultySettings.
Proof. cbn. unfold tightens. cbn. repeat split; Qcompare. Qed.

Lemma Whackabunny_steps_tighten : steps_tighten Whackabunny.difficultySettings.
Proof. cbn. unfold tightens. cbn. repeat split; Qcompare. Qed.

Lemma harder_at_of_steps tbl t1 t2 :
  steps_tighten tbl -> length tbl = 6%nat -> (t1 < t2 <= 5)%nat ->
  harder_at tbl t1 t2.
Proof.
  intros Hst Hlen Hlt.
  destruct (lookup_lt_is_Some_2 tbl t1) as [p1 H1]; [lia|].
  destruct (lookup_lt_is_Some_2 tbl t2) as [p2 H2]; [lia|].
  exists p1, p2.
  assert (Ht : tightens p1 p2)
    by (apply (steps_tighten_lookup tbl Hst t1 t2); [lia | done | done]).
  repeat split; try done; destruct Ht as (?&?&?&?&?); lra.
Qed.

(** C1. Monotonic difficulty: for all tiers [t1 < t2] in 0..5, both
    variants' tables have [animationSpeed] non-decreasing and
    [maxShowTime] non-increasing from [t1] to [t2]; moreover every duration
    bound strictly decreases and [animationSpeed] strictly increases. *)
Theorem difficulty_monotonic (t1 t2 : nat) :
  (t1 < t2 <= 5)%nat ->
  harder_at Part000.difficultySettings t1 t2 /\
  harder_at Whackabunny.difficultySettings t1 t2.
Proof.
  intros Hlt. split.
  - apply harder_at_of_steps; [apply Part000_steps_tighten | done | done].
  - apply harder_at_of_steps; [apply Whackabunny_steps_tighten | done | done].
Qed.

Lemma difficulty_monotonic_witness :
  harder_at Part000.difficultySettings 0 5 /\
  harder_at Whackabunny.difficultySettings 0 5.
Proof. apply (difficulty_monotonic 0 5). lia. Defined.

Lemma getDifficultySettings_eq tbl w :
  getDifficultySettings tbl w =
  Some (Js.index tbl (tierFor (elapsed w)),
        set_gameState
          (set_difficultyLevel (tierFor (elapsed w)) (gameState w)) w).
Proof. reflexivity. Qed.

Lemma tierFor_range e : 0 <= e -> 0 <= tierFor e <= 5.
Proof. unfold tierFor. intros He. pose proof (Z.div_pos e 10). lia. Qed.

Lemma tierFor_mono e1 e2 : e1 <= e2 -> tierFor e1 <= tierFor e2.
Proof.
  unfold tierFor. intros He.
  pose proof (Z.div_le_mono e1 e2 10). lia.
Qed.

Lemma index_in_range {A} (tbl : list A) (z : Z) :
  0 <= z < Z.of_nat (length tbl) ->
  exists a, Js.index tbl z = Some a /\ tbl !! Z.to_nat z = Some a.
Proof.
  intros Hz. unfold Js.index.
  destruct (Z.ltb_spec z 0); [lia|].
  destruct (lookup_lt_is_Some_2 tbl (Z.to_nat z)) as [a Ha]; [lia|]. eauto.
Qed.

(** C2. For every elapsed time [e >= 0] (derived as [60 - timeLeft]),
    [getDifficultySettings] stores [min(floor(e/10), 5)] in
    [gameState.difficultyLevel] and returns that row of the table; the tier
    is non-decreasing in [e]; at e = 0, 9, 10, 65 it is 0, 0, 1, 5. *)
Theorem tier_is_min_floor (w : World) (tbl : list DifficultySettings) :
  0 <= elapsed w ->
  length tbl = 6%nat ->
  (exists p,
     getDifficultySettings tbl w =
       Some (Some p,
             set_gameState
               (set_difficultyLevel (tierFor (elapsed w)) (gameState w)) w) /\
     tbl !! Z.to_nat (tierFor (elapsed w)) = Some p) /\
  levelAfter tbl w = Some (Z.min (elapsed w / 10) 5) /\
  (forall w2, elapsed w <= elapsed w2 ->
     exists l1 l2, levelAfter tbl w = Some l1 /\
                   levelAfter tbl w2 = Some l2 /\ l1 <= l2) /\
  levelAfter tbl (atElapsed 0 w) = Some 0 /\
  levelAfter tbl (atElapsed 9 w) = Some 0 /\
  levelAfter tbl (atElapsed 10 w) = Some 1 /\
  levelAfter tbl (atElapsed 65 w) = Some 5.
Proof.
  intros He Hlen. repeat split; try reflexivity.
  - rewrite getDifficultySettings_eq.
    destruct (index_in_range tbl (tierFor (elapsed w))) as (p & Hp & Hp').
    { pose proof (tierFor_range _ He). lia. }
    exists p. by rewrite Hp.
  - intros w2 Hle. do 2 eexists. repeat split.
    apply (tierFor_mono _ _ Hle).
Qed.

Lemma tier_is_min_floor_witness :
  levelAfter Part000.difficultySettings
    (atElapsed 34 (construct 800 400)) = Some 3.
Proof.
  apply (tier_is_min_floor (atElapsed 34 (construct 800 400))
           Part000.difficultySettings);
    [unfold elapsed; cbn; lia | reflexivity].
Defined.
(** * Strikes *)


Lemma hit_counts w i m :
  moles w !! i = Some m -> isVisible m = true -> isHit m = false ->
  wp (hit i)
     (fun r w' =>
        r = true /\
        gameState w' =
          set_score (score (gameState w) + points m) (gameState w) /\
        moles w' =
          <[i := set_bashTimer (Some (nextHandle w))
                   (set_bashFrame 1 (set_isBashAnimating true
                      (set_isHit true m)))]> (moles w) /\
        animationId w' = animationId w /\
        timers w' = timers w ++
          [mkTimer (nextHandle w) (Timeout 100) (CbBash1 i);
           mkTimer (S (nextHandle w)) (Timeout 400) (CbHide i)] /\
        nextHandle w' = S (S (nextHandle w)))
     w.
Proof.
  intros Hm Hv Hh. unfold hit, startBashAnimation, points.
  wp_step. wp_step. rewrite Hv, Hh. cbn [andb negb].
  destruct (isGoodMole m); wp_run; simpl_world;
    rewrite !list_insert_insert_eq, <- app_assoc; done.
Qed.

Lemma hit_misses w i m :
  moles w !! i = Some m -> isVisible m = false \/ isHit m = true ->
  hit i w = Some (false, w).
Proof.
  intros Hm Hc. unfold hit, getMole, bind, getWorld. rewrite Hm. cbn.
  destruct Hc as [-> | ->]; [done | by destruct (isVisible m)].
Qed.

(** C3. A strike on a visible, not yet struck bunny counts: the score
    changes by exactly +10 for a good bunny and -20 for a bad one, whatever
    the difficulty level, and [isHit] becomes true; through
    [handleKeyPress] in both variants.  The score is an integer without
    bounds (the witness below ends at -20). *)
Theorem successful_strike_scores (w : World) (i : nat) (m : Mole) :
  moles w !! i = Some m -> isVisible m = true -> isHit m = false ->
  exists w' m',
    hit i w = Some (true, w') /\
    score (gameState w') =
      score (gameState w) + (if isGoodMole m then 10 else -20) /\
    moles w' !! i = Some m' /\ isHit m' = true /\
    isGoodMole m' = isGoodMole m /\
    (forall key, running (gameState w) = true ->
       paused (gameState w) = false -> keyToIndex key = Some i ->
       Js.gt (animationProgress m) 0 = true ->
       Part000.handleKeyPress key w = Some (tt, w')) /\
    (forall key, running (gameState w) = true ->
       paused (gameState w) = false -> keyToIndex key = Some i ->
       Whackabunny.handleKeyPress key w = Some (tt, w')).
Proof.
  intros Hm Hv Hh.
  destruct (proj1 (wp_eq _ _ _) (hit_counts w i m Hm Hv Hh))
    as (r & w' & Hhit & -> & Hg & Hmo & _).
  exists w'. eexists. split; [done|].
  split; [by rewrite Hg|].
  split; [rewrite Hmo; apply list_lookup_insert_eq; eauto using lookup_lt_Some|].
  split; [done|]. split; [done|].
  split.
  - intros key Hr Hp Hk Hprog.
    unfold Part000.handleKeyPress, bind, getGame, getWorld.
    rewrite Hr, Hp, Hk. cbn [negb orb]. cbv beta iota.
    rewrite Hm, Hv, Hprog. cbn [andb]. cbv beta iota. by rewrite Hhit.
  - intros key Hr Hp Hk.
    unfold Whackabunny.handleKeyPress, bind, getGame, getWorld.
    rewrite Hr, Hp, Hk. cbn [negb orb]. cbv beta iota.
    rewrite Hm. cbv beta iota. by rewrite Hhit.
Qed.

Lemma successful_strike_scores_witness :
  exists w' m',
    hit 0 hostileUp = Some (true, w') /\
    score (gameState w') = -20 /\
    moles w' !! 0%nat = Some m' /\ isHit m' = true.
Proof.
  destruct (successful_strike_scores hostileUp 0
              (mkMole 0 186 60 350 true false false (Some 2%nat) 1
                 false false 0 None))
    as (w' & m' & H1 & H2 & H3 & H4 & _); [reflexivity..|].
  exists w', m'. repeat split; assumption.
Defined.

(** C5. A strike whose target is hidden, already struck or nonexistent
    misses ([hit] returns false) and leaves the whole world unchanged:
    score, every field of every bunny and all pending timers. *)
Theorem missed_strike_changes_nothing (w : World) (i : nat) :
  (moles w !! i = None \/
   exists m, moles w !! i = Some m /\ (isVisible m = false \/ isHit m = true)) ->
  (forall m, moles w !! i = Some m -> hit i w = Some (false, w)) /\
  (forall key, keyToIndex key = Some i ->
     Part000.handleKeyPress key w = Some (tt, w) /\
     Whackabunny.handleKeyPress key w = Some (tt, w)) /\
  (forall key, keyToIndex key = None ->
     Part000.handleKeyPress key w = Some (tt, w) /\
     Whackabunny.handleKeyPress key w = Some (tt, w)).
Proof.
  intros Hc. split; [|split].
  - intros m Hm. apply hit_misses with m; [done|].
    destruct Hc as [Hn | (m' & Hm' & Hc)]; congruence.
  - intros key Hk.
    unfold Part000.handleKeyPress, Whackabunny.handleKeyPress,
      bind, getGame, getWorld.
    destruct (negb (running (gameState w)) || paused (gameState w)); [done|].
    rewrite Hk. cbv beta iota.
    destruct Hc as [-> | (m & Hm & Hc)]; [done|].
    rewrite Hm. cbv beta iota. rewrite (hit_misses w i m Hm Hc).
    split; [|done].
    destruct (isVisible m && Js.gt (animationProgress m) 0); [|done].
    cbv beta iota. by rewrite (hit_misses w i m Hm Hc).
  - intros key Hk.
    unfold Part000.handleKeyPress, Whackabunny.handleKeyPress,
      bind, getGame, getWorld.
    destruct (negb (running (gameState w)) || paused (gameState w)); [done|].
    by rewrite Hk.
Qed.


Lemma missed_strike_changes_nothing_witness :
  hit 0 allDown = Some (false, allDown) /\
  Part000.handleKeyPress "a" allDown = Some (tt, allDown) /\
  Part000.handleKeyPress "x" allDown = Some (tt, allDown).
Proof.
  destruct (missed_strike_changes_nothing allDown 0) as (H1 & H2 & H3).
  { right. exists (newMole 0 186 350). split; [reflexivity | by left]. }
  split; [apply (H1 (newMole 0 186 350)); reflexivity|].
  split; [apply (H2 "a"%string); reflexivity|].
  apply (H3 "x"%string); reflexivity.
Defined.

(** * Starting an appearance *)

Lemma show_skips w i m r1 r2 :
  moles w !! i = Some m -> isVisible m || isAnimating m = true ->
  Part000.show i r1 r2 w = Some (tt, w).
Proof.
  intros Hm Hc. unfold Part000.show, getMole, bind, getGame, getWorld.
  destruct (negb (running (gameState w)) || paused (gameState w)); [done|].
  rewrite Hm. cbn. by rewrite Hc.
Qed.

(** C10. In part_000, [show()] on a bunny that is visible or still
    animating is a no-op: the world is unchanged (no kind re-sampled,
    [isHit] and [animationProgress] kept, no hide timer scheduled).  So a
    pending show callback that fires meanwhile is only consumed. *)
Theorem show_in_flight_is_noop (w : World) (i : nat) (m : Mole) (r1 r2 : Q) :
  moles w !! i = Some m ->
  isVisible m || isAnimating m = true ->
  Part000.show i r1 r2 w = Some (tt, w) /\
  (forall h t d,
     pending h w = Some t -> callback t = CbShow i -> kind t = Timeout d ->
     Part000.fire h r1 r2 w =
       Some (tt, set_timers (filter (fun t' => handle t' <> h) (timers w)) w)).
Proof.
  intros Hm Hc. split; [by apply show_skips with m|].
  intros h t d Hp Hcb Hk.
  unfold Part000.fire, fireWith, bind, getWorld. rewrite Hp, Hk, Hcb.
  cbn [Part000.runCallback modifyWorld].
  by rewrite (show_skips _ i m).
Qed.

Lemma show_in_flight_is_noop_witness :
  Part000.show 0 0 0 hostileUp = Some (tt, hostileUp).
Proof.
  apply (show_in_flight_is_noop hostileUp 0
           (mkMole 0 186 60 350 true false false (Some 2%nat) 1
              false false 0 None) 0 0); reflexivity.
Defined.

(** A stale show callback overlapping the initial one: after start, reset
    and start again, mole 0 has two pending show callbacks (handles 2 and
    7).  Once the first has fired, the second is only consumed. *)
Example overlapping_show_callbacks :
  match Part000.run [ClickStart halfDraws; ClickReset; ClickStart halfDraws;
                     Fire 2 0 0] (construct 800 400) with
  | Some w =>
      (callback <$> pending 7 w) = Some (CbShow 0) /\
      Part000.step (Fire 7 0.9 0.9) w =
        Some (set_timers (filter (fun t => handle t <> 7%nat) (timers w)) w)
  | None => False
  end.
Proof. vm_compute. split; reflexivity. Qed.

(** * Pause *)

(** C9, as the code has it.  In part_000, [pause()] toggles [paused] when
    the session is running and is exactly [start()] when it is not; in
    whackabunny.js, [pause()] only ever toggles [paused]. *)
Theorem pause_toggles_or_starts (w : World) (rs : nat -> Q) :
  Part000.pause rs w =
    (if running (gameState w)
     then Some (tt, set_gameState
                      (set_paused (negb (paused (gameState w))) (gameState w)) w)
     else Part000.start rs w) /\
  Whackabunny.pause w =
    Some (tt, set_gameState
                (set_paused (negb (paused (gameState w))) (gameState w)) w).
Proof.
  split; [|done].
  unfold Part000.pause, bind, getGame. by destruct (running (gameState w)).
Qed.

(** C9 as stated fails in whackabunny.js: on the idle page, the pause
    button does not start the session. *)
Lemma whackabunny_pause_does_not_start :
  running (gameState (construct 800 400)) = false /\
  Whackabunny.step (ClickPause zeroDraws) (construct 800 400) <>
  Whackabunny.step (ClickStart zeroDraws) (construct 800 400).
Proof.
  split; [reflexivity|]. intros H.
  apply (f_equal (fun o => match o with
                           | Some w => running (gameState w)
                           | None => false
                           end)) in H.
  vm_compute in H. discriminate.
Qed.

(** * Scheduled delays *)

Lemma sample_in_range (lo hi r : Q) :
  (lo < hi)%Q -> (0 <= r)%Q -> (r < 1)%Q ->
  (lo <= r * (hi - lo) + lo)%Q /\ (r * (hi - lo) + lo < hi)%Q.
Proof.
  intros Hlh H0 H1.
  assert (0 <= r * (hi - lo))%Q by (apply Qmult_le_0_compat; lra).
  assert (r * (hi - lo) < 1 * (hi - lo))%Q
    by (apply Qmult_lt_compat_r; lra).
  split; lra.
Qed.

Lemma Math_max_spec (a b : Q) :
  (a <= Js.Math_max a b)%Q /\ (b <= Js.Math_max a b)%Q /\
  (Js.Math_max a b = a \/ Js.Math_max a b = b).
Proof.
  unfold Js.Math_max. destruct (Qlt_le_dec a b); repeat split; auto; lra.
Qed.

Lemma Part000_rows_ok : Forall row_ok Part000.difficultySettings.
Proof. repeat constructor; Qcompare. Qed.

Lemma Whackabunny_rows_ok : Forall row_ok Whackabunny.difficultySettings.
Proof. repeat constructor; Qcompare. Qed.

Lemma index_Forall {A} (P : A -> Prop) tbl z a :
  Forall P tbl -> Js.index tbl z = Some a -> P a.
Proof.
  unfold Js.index. intros HP. destruct (z <? 0); [done|].
  intros Ha. by apply (Forall_lookup_1 P tbl (Z.to_nat z)).
Qed.

Lemma Part000_show_schedules w i m r1 r2 d :
  running (gameState w) = true -> paused (gameState w) = false ->
  moles w !! i = Some m ->
  isVisible m = false -> isAnimating m = false ->
  Js.index Part000.difficultySettings (tierFor (elapsed w)) = Some d ->
  wp (Part000.show i r1 r2)
     (fun _ w' =>
        w' = mkWorld
               (set_difficultyLevel (tierFor (elapsed w)) (gameState w))
               (<[i := shown r1 (nextHandle w) m]> (moles w))
               (animationId w)
               (timers w ++
                  [mkTimer (nextHandle w)
                     (Timeout (Part000.showDuration d r2)) (CbHide i)])
               (S (nextHandle w)))
     w.
Proof.
  intros Hr Hp Hm Hv Ha Hd. unfold Part000.show, shown.
  wp_step. wp_step. rewrite Hr, Hp. cbn [negb orb].
  wp_step. wp_step. rewrite Hv, Ha. cbn [orb].
  wp_run. simpl_world. by rewrite !list_insert_insert_eq.
Qed.

Lemma Whackabunny_show_schedules w i m r1 r2 d :
  running (gameState w) = true -> paused (gameState w) = false ->
  moles w !! i = Some m ->
  Js.index Whackabunny.difficultySettings (tierFor (elapsed w)) = Some d ->
  wp (Whackabunny.show i r1 r2)
     (fun _ w' =>
        w' = mkWorld
               (set_difficultyLevel (tierFor (elapsed w)) (gameState w))
               (<[i := shown r1 (nextHandle w) m]> (moles w))
               (animationId w)
               (timers w ++
                  [mkTimer (nextHandle w)
                     (Timeout (Whackabunny.showDuration d r2)) (CbHide i)])
               (S (nextHandle w)))
     w.
Proof.
  intros Hr Hp Hm Hd. unfold Whackabunny.show, shown.
  wp_step. wp_step. rewrite Hr, Hp. cbn [negb orb].
  wp_run. simpl_world. by rewrite !list_insert_insert_eq.
Qed.

Lemma Part000_hide_schedules w i m r d :
  running (gameState w) = true -> paused (gameState w) = false ->
  moles w !! i = Some m ->
  isVisible m = true ->
  Js.index Part000.difficultySettings (tierFor (elapsed w)) = Some d ->
  wp (Part000.hide i r)
     (fun _ w' =>
        w' = mkWorld
               (set_difficultyLevel (tierFor (elapsed w)) (gameState w))
               (<[i := hidden m]> (moles w))
               (animationId w)
               (withoutTimeout (visibilityTimer m) (timers w) ++
                  [mkTimer (nextHandle w)
                     (Timeout (Part000.hideDuration d r)) (CbShow i)])
               (S (nextHandle w)))
     w.
Proof.
  intros Hr Hp Hm Hv Hd. unfold Part000.hide, hidden, withoutTimeout.
  wp_step. wp_step. rewrite Hv. cbn [negb].
  wp_run. rewrite Hr, Hp. cbn [negb andb].
  wp_run. simpl_mole. by rewrite !list_insert_insert_eq.
Qed.

Lemma Whackabunny_hide_schedules w i m r d :
  running (gameState w) = true -> paused (gameState w) = false ->
  moles w !! i = Some m ->
  Js.index Whackabunny.difficultySettings (tierFor (elapsed w)) = Some d ->
  wp (Whackabunny.hide i r)
     (fun _ w' =>
        w' = mkWorld
               (set_difficultyLevel (tierFor (elapsed w)) (gameState w))
               (<[i := hidden m]> (moles w))
               (animationId w)
               (withoutTimeout (visibilityTimer m) (timers w) ++
                  [mkTimer (nextHandle w)
                     (Timeout (Whackabunny.hideDuration d r)) (CbShow i)])
               (S (nextHandle w)))
     w.
Proof.
  intros Hr Hp Hm Hd. unfold Whackabunny.hide, hidden, withoutTimeout.
  wp_run. rewrite Hr, Hp. cbn [negb andb].
  wp_run. simpl_mole. by rewrite !list_insert_insert_eq.
Qed.

Lemma sample_within (lo hi r : Q) :
  (lo < hi)%Q -> (0 <= r)%Q -> (r < 1)%Q ->
  (lo <= r * (hi - lo) + lo)%Q /\ (r * (hi - lo) + lo <= hi)%Q.
Proof.
  intros Hlh H0 H1. destruct (sample_in_range lo hi r Hlh H0 H1).
  split; lra.
Qed.

Lemma Part000_hide_skips w i m r :
  moles w !! i = Some m -> isVisible m = false ->
  Part000.hide i r w = Some (tt, w).
Proof.
  intros Hm Hv. unfold Part000.hide, getMole, bind, getWorld.
  rewrite Hm. cbn. by rewrite Hv.
Qed.

(** C8, as the code has it.  In a running, unpaused session with
    [0 <= elapsed], a [show()] or [hide()] that schedules at all draws
    once ([r2] in [0,1)) and schedules one timeout.  The sample
    [r2 * (max - min) + min] lies between [min] and [max] of the current
    level's show (resp. hide) bounds, both included.  In part_000 the
    scheduled delay is [Math.max(sample, 500)]: the sample or 500,
    whichever is larger; [show()] schedules only for a bunny that is
    neither visible nor animating and [hide()] only for a visible one, and
    otherwise they return without any change.  In whackabunny.js the
    scheduled delay is the sample itself, with no floor and no such
    guards.  The upper bound is attained: computed in doubles as the code
    does, the sample for the largest draw [1 - 2^-53] is [max] itself in
    the show rows 0 to 3 and hide rows 0 and 1 of part_000 and the show
    rows 0 and 1 of whackabunny.js. *)
Theorem scheduled_delays (w : World) (i : nat) (m : Mole) (r1 r2 : Q) :
  running (gameState w) = true -> paused (gameState w) = false ->
  0 <= elapsed w ->
  moles w !! i = Some m ->
  (0 <= r2)%Q -> (r2 < 1)%Q ->
  (exists d d',
    Js.index Part000.difficultySettings (tierFor (elapsed w)) = Some d /\
    Js.index Whackabunny.difficultySettings (tierFor (elapsed w)) = Some d' /\
    (* part_000: sample and floor *)
    (minShowTime d <= Part000.baseShowDuration d r2 <= maxShowTime d)%Q /\
    (minHideTime d <= Part000.baseHideDuration d r2 <= maxHideTime d)%Q /\
    (Part000.animationBuffer <= Part000.showDuration d r2)%Q /\
    (Part000.baseShowDuration d r2 <= Part000.showDuration d r2)%Q /\
    (Part000.showDuration d r2 = Part000.baseShowDuration d r2 \/
     Part000.showDuration d r2 = Part000.animationBuffer) /\
    (Part000.animationBuffer <= Part000.hideDuration d r2)%Q /\
    (Part000.baseHideDuration d r2 <= Part000.hideDuration d r2)%Q /\
    (Part000.hideDuration d r2 = Part000.baseHideDuration d r2 \/
     Part000.hideDuration d r2 = Part000.animationBuffer) /\
    (isVisible m = false -> isAnimating m = false ->
     exists w', Part000.show i r1 r2 w = Some (tt, w') /\
       timers w' = timers w ++
         [mkTimer (nextHandle w)
            (Timeout (Part000.showDuration d r2)) (CbHide i)]) /\
    (isVisible m || isAnimating m = true ->
     Part000.show i r1 r2 w = Some (tt, w)) /\
    (isVisible m = true ->
     exists w', Part000.hide i r2 w = Some (tt, w') /\
       timers w' = withoutTimeout (visibilityTimer m) (timers w) ++
         [mkTimer (nextHandle w)
            (Timeout (Part000.hideDuration d r2)) (CbShow i)]) /\
    (isVisible m = false -> Part000.hide i r2 w = Some (tt, w)) /\
    (* whackabunny.js: the sample, unfloored *)
    (minShowTime d' <= Whackabunny.showDuration d' r2 <= maxShowTime d')%Q /\
    (minHideTime d' <= Whackabunny.hideDuration d' r2 <= maxHideTime d')%Q /\
    (exists w', Whackabunny.show i r1 r2 w = Some (tt, w') /\
       timers w' = timers w ++
         [mkTimer (nextHandle w)
            (Timeout (Whackabunny.showDuration d' r2)) (CbHide i)]) /\
    (exists w', Whackabunny.hide i r2 w = Some (tt, w') /\
       timers w' = withoutTimeout (visibilityTimer m) (timers w) ++
         [mkTimer (nextHandle w)
            (Timeout (Whackabunny.hideDuration d' r2)) (CbShow i)])) /\
  (* in doubles the largest draw gives the upper bound itself *)
  Double.isDraw Double.largestDraw = true /\
  Forall (fun p => Double.reachesMax (minShowTime p) (maxShowTime p) = true)
    (take 4 Part000.difficultySettings) /\
  Forall (fun p => Double.reachesMax (minHideTime p) (maxHideTime p) = true)
    (take 2 Part000.difficultySettings) /\
  Forall (fun p => Double.reachesMax (minShowTime p) (maxShowTime p) = true)
    (take 2 Whackabunny.difficultySettings).
Proof.
  intros Hr Hp He Hm H0 H1.
  split;
    [|split; [vm_compute; reflexivity|];
      repeat split; repeat constructor; vm_compute; reflexivity].
  pose proof (tierFor_range _ He) as Ht.
  destruct (index_in_range Part000.difficultySettings (tierFor (elapsed w)))
    as (d & Hd & _); [cbn; lia|].
  destruct (index_in_range Whackabunny.difficultySettings
              (tierFor (elapsed w))) as (d' & Hd' & _); [cbn; lia|].
  destruct (index_Forall _ _ _ _ Part000_rows_ok Hd) as (Hs & Hh & _).
  destruct (index_Forall _ _ _ _ Whackabunny_rows_ok Hd') as (Hs' & Hh' & _).
  exists d, d'. split; [done|]. split; [done|].
  pose proof (sample_within _ _ r2 Hs H0 H1) as [? ?].
  pose proof (sample_within _ _ r2 Hh H0 H1) as [? ?].
  pose proof (sample_within _ _ r2 Hs' H0 H1) as [? ?].
  pose proof (sample_within _ _ r2 Hh' H0 H1) as [? ?].
  pose proof (Math_max_spec (Part000.baseShowDuration d r2)
                Part000.animationBuffer) as (? & ? & ?).
  pose proof (Math_max_spec (Part000.baseHideDuration d r2)
                Part000.animationBuffer) as (? & ? & ?).
  repeat match goal with |- _ /\ _ => split end; try done.
  - intros Hv Ha.
    destruct (proj1 (wp_eq _ _ _)
                (Part000_show_schedules w i m r1 r2 d Hr Hp Hm Hv Ha Hd))
      as ([] & w' & Hrun & Hw). exists w'. split; [done | by rewrite Hw].
  - intros Hc. by apply (show_skips w i m).
  - intros Hv.
    destruct (proj1 (wp_eq _ _ _)
                (Part000_hide_schedules w i m r2 d Hr Hp Hm Hv Hd))
      as ([] & w' & Hrun & Hw). exists w'. split; [done | by rewrite Hw].
  - intros Hv. by apply (Part000_hide_skips w i m).
  - destruct (proj1 (wp_eq _ _ _)
                (Whackabunny_show_schedules w i m r1 r2 d' Hr Hp Hm Hd'))
      as ([] & w' & Hrun & Hw). exists w'. split; [done | by rewrite Hw].
  - destruct (proj1 (wp_eq _ _ _)
                (Whackabunny_hide_schedules w i m r2 d' Hr Hp Hm Hd'))
      as ([] & w' & Hrun & Hw). exists w'. split; [done | by rewrite Hw].
Qed.

Lemma scheduled_delays_witness :
  exists w',
    Part000.show 0 0 0 lateGame = Some (tt, w') /\
    timers w' = timers lateGame ++ [mkTimer 2 (Timeout 500) (CbHide 0)].
Proof.
  destruct (scheduled_delays lateGame 0 (newMole 0 186 350) 0 0)
    as ((d & d' & Hd & _ & _ & _ & _ & _ & _ & _ & _ & _ & Hshow & _) & _);
    [reflexivity | reflexivity | unfold elapsed; cbn; lia | reflexivity
    | Qcompare | Qcompare |].
  destruct Hshow as (w' & Hrun & Ht); [reflexivity..|].
  exists w'. split; [done|].
  rewrite Ht. injection Hd as <-. reflexivity.
Defined.

(** C8 as stated fails in whackabunny.js: at level 5 a draw of 0 schedules
    the hide after 200 ms, the raw sample, below the 500 ms that part_000
    enforces. *)
Lemma whackabunny_show_has_no_floor :
  exists w',
    Whackabunny.show 0 0 0 lateGame = Some (tt, w') /\
    timers w' = timers lateGame ++ [mkTimer 2 (Timeout 200) (CbHide 0)] /\
    (200 < Part000.animationBuffer)%Q.
Proof.
  eexists. split; [vm_compute; reflexivity|].
  split; [reflexivity | Qcompare].
Qed.

(** * Invariants of the event loop *)

(** ** How the invariant follows the primitive state changes *)

Lemma handle_ok_mono n c n' c' o :
  handle_ok n c o -> (n <= n')%nat ->
  (forall h, c' = Some h -> c = Some h \/ (n <= h)%nat) ->
  handle_ok n' c' o.
Proof.
  intros Ho Hn Hc h Hh. destruct (Ho h Hh) as [Hlt Hne].
  split; [lia|]. intros Hc'. destruct (Hc h Hc'); [done | lia].
Qed.

Lemma mole_ok_mono n c n' c' m :
  mole_ok n c m -> (n <= n')%nat ->
  (forall h, c' = Some h -> c = Some h \/ (n <= h)%nat) ->
  mole_ok n' c' m.
Proof.
  intros (Hp & Hv & Hb) Hn Hc.
  split; [done|]. split; eauto using handle_ok_mono.
Qed.

Lemma handle_ok_None n c : handle_ok n c None.
Proof. by intros h. Qed.

Lemma timer_ok_mono n g n' g' t :
  timer_ok n g t -> (n <= n')%nat ->
  (callback t = CbTick ->
   gameTimer g' = gameTimer g /\ running g' = running g /\
   (1 <= timeLeft g -> 1 <= timeLeft g')) ->
  timer_ok n' g' t.
Proof.
  intros (Hh & Hc & Ht) Hn Hg. split; [lia|]. split; [done|].
  intros Hcb. destruct (Ht Hcb) as (Hk & Hgt & Hr & Htl).
  destruct (Hg Hcb) as (-> & -> & Htl'). auto.
Qed.

Lemma NoDup_handles_filter (P : Timer -> Prop) `{!forall t, Decision (P t)} ts :
  NoDup (handle <$> ts) -> NoDup (handle <$> filter P ts).
Proof.
  intros Hnd. apply (sublist_NoDup _ _ Hnd).
  apply fmap_sublist, sublist_filter.
Qed.

Lemma Forall_filter_keep {A} (P Q : A -> Prop) `{!forall a, Decision (Q a)} l :
  Forall P l -> Forall P (filter Q l).
Proof.
  rewrite !Forall_forall. intros HP a Ha.
  apply list_elem_of_filter in Ha as [_ Ha]. auto.
Qed.

Lemma NoDup_handles_same ts t1 t2 :
  NoDup (handle <$> ts) -> t1 ∈ ts -> t2 ∈ ts -> handle t1 = handle t2 ->
  t1 = t2.
Proof.
  induction ts as [|t ts IH]; [by intros _ ?%elem_of_nil|].
  cbn. rewrite NoDup_cons, !elem_of_cons. intros [Hnot Hnd] H1 H2 Heq.
  destruct H1 as [-> | H1], H2 as [-> | H2]; auto.
  - destruct Hnot. rewrite Heq. by apply list_elem_of_fmap_2.
  - destruct Hnot. rewrite <- Heq. by apply list_elem_of_fmap_2.
Qed.

Lemma pending_Some h w t :
  pending h w = Some t -> t ∈ timers w /\ handle t = h.
Proof.
  unfold pending. intros Hf. apply find_some in Hf as [Hin Heq].
  split; [by apply list_elem_of_In | by apply Nat.eqb_eq].
Qed.

Lemma pending_is_Some h w t :
  t ∈ timers w -> handle t = h -> is_Some (pending h w).
Proof.
  unfold pending. intros Hin Heq.
  destruct (List.find _ _) eqn:Hf; [eauto|].
  apply list_elem_of_In in Hin. apply (find_none _ _ Hf t) in Hin.
  apply Nat.eqb_neq in Hin. done.
Qed.

Section InvUpdates.

Variable w : World.
Hypothesis HI : Inv w.

Lemma Inv_lookup i : (i < 3)%nat ->
  exists m, moles w !! i = Some m /\
            mole_ok (nextHandle w) (gameTimer (gameState w)) m.
Proof.
  intros Hi. destruct HI as [Hlen Hm _ _ _ _].
  destruct (lookup_lt_is_Some_2 (moles w) i) as [m Hl]; [lia|].
  exists m. split; [done|]. by apply (Forall_lookup_1 _ _ _ _ Hm Hl).
Qed.

Lemma Inv_elapsed : 0 <= elapsed w <= 60.
Proof. destruct HI as [_ _ _ _ [Ht _] _]. unfold elapsed. lia. Qed.

(** Writing fields of one mole. *)
Lemma Inv_set_mole i m' :
  mole_ok (nextHandle w) (gameTimer (gameState w)) m' ->
  Inv (set_moles (<[i := m']> (moles w)) w).
Proof.
  intros Hm'. destruct HI as [Hlen Hm Ht Hnd Hg Hc].
  constructor; simpl_world; try done.
  - by rewrite length_insert.
  - by apply Forall_insert.
Qed.

(** Writing fields of [gameState] that the invariant does not read. *)
Lemma Inv_set_game g' :
  gameTimer g' = gameTimer (gameState w) ->
  running g' = running (gameState w) ->
  timeLeft g' = timeLeft (gameState w) ->
  gameEnded g' = gameEnded (gameState w) ->
  Inv (set_gameState g' w).
Proof.
  intros Hgt Hr Htl He. destruct HI as [Hlen Hm Ht Hnd Hg Hc].
  constructor; simpl_world; try done.
  - by rewrite Hgt.
  - eapply Forall_impl; [exact Ht|]. intros t Hok.
    apply (timer_ok_mono _ _ _ _ _ Hok); [lia|]. intros _. rewrite Hgt, Hr, Htl. auto.
  - unfold game_ok. rewrite Htl, Hr, He. done.
  - unfold clock_armed. simpl_world. rewrite Hgt. apply Hc.
Qed.

(** Registering a callback other than the clock tick. *)
Lemma Inv_register k cb :
  callback_ok cb -> cb <> CbTick ->
  Inv (mkWorld (gameState w) (moles w) (animationId w)
         (timers w ++ [mkTimer (nextHandle w) k cb]) (S (nextHandle w))).
Proof.
  intros Hcb Hne. destruct HI as [Hlen Hm Ht Hnd Hg Hc].
  constructor; simpl_world; try done.
  - eapply Forall_impl; [exact Hm|]. intros m Hok.
    apply (mole_ok_mono _ _ _ _ _ Hok); [lia | auto].
  - apply Forall_app. split.
    + eapply Forall_impl; [exact Ht|]. intros t Hok.
      apply (timer_ok_mono _ _ _ _ _ Hok); [lia | auto].
    + apply Forall_singleton.
      split; [cbn; lia|]. split; [done | cbn; done].
  - rewrite fmap_app. apply NoDup_app. split; [done|]. split.
    + intros h Hin Hin'. cbn in Hin'. apply list_elem_of_singleton in Hin'.
      subst h. apply list_elem_of_fmap in Hin as (t & Heq & Hin).
      rewrite Forall_forall in Ht. destruct (Ht t Hin) as [Hlt _]. lia.
    + cbn. apply NoDup_singleton.
  - intros h Hh. destruct (Hc h Hh) as (Hlt & t & Hin & Heq & Hcbt).
    split; [simpl_world; lia|]. exists t. split; [|done].
    simpl_world. apply elem_of_app. by left.
Qed.

(** Removing pending callbacks while the clock tick stays. *)
Lemma Inv_filter (P : Timer -> Prop) `{!forall t, Decision (P t)} :
  (forall t, t ∈ timers w -> callback t = CbTick -> P t) ->
  Inv (set_timers (filter P (timers w)) w).
Proof.
  intros Hkeep. destruct HI as [Hlen Hm Ht Hnd Hg Hc].
  constructor; simpl_world; try done.
  - by apply Forall_filter_keep.
  - by apply NoDup_handles_filter.
  - intros h Hh. destruct (Hc h Hh) as (Hlt & t & Hin & Heq & Hcbt).
    split; [done|]. exists t. split; [|done].
    simpl_world. apply list_elem_of_filter. auto.
Qed.

(** [clearTimeout] on a handle held by a mole. *)
Lemma Inv_clearTimeout h :
  gameTimer (gameState w) <> Some h ->
  Inv (set_timers
         (filter (fun t => ¬ (handle t = h ∧ isAnimationFrame t = false))
            (timers w)) w).
Proof.
  intros Hne. apply Inv_filter. intros t Hin Hcb [Heq _].
  destruct HI as [_ _ Ht _ _ _]. rewrite Forall_forall in Ht.
  destruct (Ht t Hin) as (_ & _ & Htick).
  destruct (Htick Hcb) as (_ & Hgt & _). congruence.
Qed.

(** [cancelAnimationFrame]. *)
Lemma Inv_cancelAnimationFrame h :
  Inv (set_timers
         (filter (fun t => ¬ (handle t = h ∧ isAnimationFrame t = true))
            (timers w)) w).
Proof.
  apply Inv_filter. intros t Hin Hcb [_ Haf].
  destruct HI as [_ _ Ht _ _ _]. rewrite Forall_forall in Ht.
  destruct (Ht t Hin) as (_ & _ & Htick).
  destruct (Htick Hcb) as (Hk & _). unfold isAnimationFrame in Haf.
  by rewrite Hk in Haf.
Qed.

Lemma Inv_set_animationId a : Inv (set_animationId a w).
Proof. by destruct HI. Qed.

(** The browser consumes a fired timeout or animation frame. *)
Lemma Inv_consume h t :
  pending h w = Some t ->
  (forall d, kind t <> Interval d) ->
  Inv (set_timers (filter (fun t' => handle t' <> h) (timers w)) w).
Proof.
  intros Hp Hk. apply Inv_filter. intros t' Hin Hcb Heq.
  apply pending_Some in Hp as [Hin' Hh].
  destruct HI as [_ _ Ht Hnd _ _]. rewrite Forall_forall in Ht.
  assert (t' = t) as ->
    by (apply (NoDup_handles_same (timers w)); congruence).
  destruct (Ht t Hin) as (_ & _ & Htick).
  destruct (Htick Hcb) as (Hki & _). by apply (Hk 1000%Q).
Qed.

(** The clock's handle is no mole's handle. *)
Lemma Inv_mole_handle m h :
  m ∈ moles w ->
  visibilityTimer m = Some h \/ bashTimer m = Some h ->
  gameTimer (gameState w) <> Some h.
Proof.
  intros Hin Hh. destruct HI as [_ Hm _ _ _ _].
  rewrite Forall_forall in Hm. destruct (Hm m Hin) as (_ & Hv & Hb).
  destruct Hh as [Hh | Hh]; [apply (Hv h Hh) | apply (Hb h Hh)].
Qed.

(** No tick is pending while [gameTimer] is [null]. *)
Lemma Inv_no_tick t :
  gameTimer (gameState w) = None -> t ∈ timers w -> callback t <> CbTick.
Proof.
  intros Hn Hin Hcb. destruct HI as [_ _ Ht _ _ _].
  rewrite Forall_forall in Ht. destruct (Ht t Hin) as (_ & _ & Htick).
  destruct (Htick Hcb) as (_ & Hgt & _). congruence.
Qed.

(** An armed clock belongs to a running session with time left. *)
Lemma Inv_armed h :
  gameTimer (gameState w) = Some h ->
  running (gameState w) = true /\ 1 <= timeLeft (gameState w) /\
  exists t, pending h w = Some t /\ callback t = CbTick /\
            kind t = Interval 1000.
Proof.
  intros Hh. destruct HI as [_ _ Ht Hnd _ Hc].
  destruct (Hc h Hh) as (_ & t & Hin & Heq & Hcb).
  rewrite Forall_forall in Ht. destruct (Ht t Hin) as (_ & _ & Htick).
  destruct (Htick Hcb) as (Hk & _ & Hr & Htl).
  split; [done|]. split; [done|].
  destruct (pending_is_Some h w t Hin Heq) as [t' Hp].
  exists t'. split; [done|].
  apply pending_Some in Hp as [Hin' Heq'].
  assert (t' = t) as ->
    by (apply (NoDup_handles_same (timers w)); congruence).
  done.
Qed.

End InvUpdates.

(** The same updates on a world given by its components. *)
Section InvComponents.

Variables (g : GameState) (ms : list Mole) (a : option nat)
          (ts : list Timer) (n : nat).
Hypothesis HI : Inv (mkWorld g ms a ts n).

Lemma Inv_mole i m' :
  mole_ok n (gameTimer g) m' -> Inv (mkWorld g (<[i := m']> ms) a ts n).
Proof. exact (Inv_set_mole _ HI i m'). Qed.

Lemma Inv_game g' :
  gameTimer g' = gameTimer g -> running g' = running g ->
  timeLeft g' = timeLeft g -> gameEnded g' = gameEnded g ->
  Inv (mkWorld g' ms a ts n).
Proof. exact (Inv_set_game _ HI g'). Qed.

Lemma Inv_timer k cb :
  callback_ok cb -> cb <> CbTick ->
  Inv (mkWorld g ms a (ts ++ [mkTimer n k cb]) (S n)).
Proof. exact (Inv_register _ HI k cb). Qed.

Lemma Inv_cleared h :
  gameTimer g <> Some h ->
  Inv (mkWorld g ms a
         (filter (fun t => ¬ (handle t = h ∧ isAnimationFrame t = false)) ts)
         n).
Proof. exact (Inv_clearTimeout _ HI h). Qed.

Lemma Inv_cancelled h :
  Inv (mkWorld g ms a
         (filter (fun t => ¬ (handle t = h ∧ isAnimationFrame t = true)) ts)
         n).
Proof. exact (Inv_cancelAnimationFrame _ HI h). Qed.

Lemma Inv_animationId a' : Inv (mkWorld g ms a' ts n).
Proof. exact (Inv_set_animationId _ HI a'). Qed.

Lemma Inv_consumed h t :
  pending h (mkWorld g ms a ts n) = Some t ->
  (forall d, kind t <> Interval d) ->
  Inv (mkWorld g ms a (filter (fun t' => handle t' <> h) ts) n).
Proof. exact (Inv_consume _ HI h t). Qed.

End InvComponents.

(** A mole that keeps its progress in range and whose handles are old ones
    or fresh. *)
Lemma mole_ok_next n c m m' :
  mole_ok n c m -> progress_ok m' ->
  (forall h, c = Some h -> (h < n)%nat) ->
  (visibilityTimer m' = visibilityTimer m \/ visibilityTimer m' = None \/
   visibilityTimer m' = Some n) ->
  (bashTimer m' = bashTimer m \/ bashTimer m' = None \/
   bashTimer m' = Some n) ->
  mole_ok (S n) c m'.
Proof.
  intros (_ & Hv & Hb) Hp Hc Hv' Hb'. split; [done|].
  assert (Hold : forall o, handle_ok n c o -> handle_ok (S n) c o)
    by (intros o Ho; apply (handle_ok_mono _ _ _ _ _ Ho); [lia | auto]).
  assert (Hnew : handle_ok (S n) c (Some n)).
  { intros h [= <-]. split; [lia|]. intros Hc'. apply Hc in Hc'. lia. }
  split.
  - destruct Hv' as [-> | [-> | ->]]; auto using handle_ok_None.
  - destruct Hb' as [-> | [-> | ->]]; auto using handle_ok_None.
Qed.

Lemma mole_ok_same n c m m' :
  mole_ok n c m -> progress_ok m' ->
  (visibilityTimer m' = visibilityTimer m \/ visibilityTimer m' = None) ->
  (bashTimer m' = bashTimer m \/ bashTimer m' = None) ->
  mole_ok n c m'.
Proof.
  intros (_ & Hv & Hb) Hp Hv' Hb'. split; [done|]. split.
  - destruct Hv' as [-> | ->]; auto using handle_ok_None.
  - destruct Hb' as [-> | ->]; auto using handle_ok_None.
Qed.

Lemma Inv_without g ms a ts n o :
  Inv (mkWorld g ms a ts n) ->
  (forall h, o = Some h -> gameTimer g <> Some h) ->
  Inv (mkWorld g ms a (withoutTimeout o ts) n).
Proof.
  intros HI Ho. destruct o as [h|]; [|done]. apply Inv_cleared; auto.
Qed.

(** Stopping the clock: whatever [gameState] becomes, once the tick is
    cleared and [gameTimer] is [null] the invariant only asks for
    [game_ok]. *)
Lemma Inv_stopped g ms a ts n g' :
  Inv (mkWorld g ms a ts n) ->
  game_ok g' -> gameTimer g' = None ->
  Inv (mkWorld g' ms a (withoutTimeout (gameTimer g) ts) n).
Proof.
  intros [Hlen Hm Ht Hnd Hg Hc] Hg' Hn. simpl_world.
  assert (Hsub : forall t, t ∈ withoutTimeout (gameTimer g) ts ->
                   t ∈ ts /\ callback t <> CbTick).
  { intros t Hin. rewrite Forall_forall in Ht.
    assert (Hin' : t ∈ ts).
    { destruct (gameTimer g); [|done].
      by apply list_elem_of_filter in Hin as [_ ?]. }
    split; [done|]. intros Hcb.
    destruct (Ht t Hin') as (_ & _ & Htick).
    destruct (Htick Hcb) as (Hk & Hgt & _). rewrite Hgt in Hin.
    apply list_elem_of_filter in Hin as [Hkeep _]. apply Hkeep.
    split; [done|]. unfold isAnimationFrame. by rewrite Hk. }
  constructor; simpl_world; try done.
  - rewrite Hn. eapply Forall_impl; [exact Hm|]. intros m Hok.
    apply (mole_ok_mono _ _ _ _ _ Hok); [lia | done].
  - apply Forall_forall. intros t Hin. destruct (Hsub t Hin) as [Hin' Hne].
    rewrite Forall_forall in Ht. destruct (Ht t Hin') as (Hh & Hcb & _).
    split; [done|]. split; done.
  - destruct (gameTimer g); [by apply NoDup_handles_filter | done].
  - intros h Hh. simpl_world. congruence.
Qed.

(** Arming the clock of a running session with time left. *)
Lemma Inv_armed_new g ms a ts n :
  Inv (mkWorld g ms a ts n) ->
  gameTimer g = None -> running g = true -> 1 <= timeLeft g ->
  Inv (mkWorld (set_gameTimer (Some n) g) ms a
         (ts ++ [mkTimer n (Interval 1000) CbTick]) (S n)).
Proof.
  intros HI Hn Hr Htl.
  pose proof (fun t => Inv_no_tick _ HI t Hn) as Hno.
  destruct HI as [Hlen Hm Ht Hnd Hg Hc]. simpl_world.
  constructor; simpl_world; try done.
  - eapply Forall_impl; [exact Hm|]. intros m Hok. rewrite Hn in Hok.
    apply (mole_ok_mono _ _ _ _ _ Hok); [lia|]. intros h [= <-]. by right.
  - apply Forall_app. split.
    + apply Forall_forall. intros t Hin. rewrite Forall_forall in Ht.
      destruct (Ht t Hin) as (Hh & Hcb & _).
      split; [lia|]. split; [done|]. intros Htick. by destruct (Hno t Hin).
    + apply Forall_singleton. split; [cbn; lia|]. split; [done|].
      intros _. cbn. done.
  - rewrite fmap_app. apply NoDup_app. split; [done|]. split.
    + intros h Hin Hin'. cbn in Hin'. apply list_elem_of_singleton in Hin'.
      subst h. apply list_elem_of_fmap in Hin as (t & Heq & Hin).
      rewrite Forall_forall in Ht. destruct (Ht t Hin) as [Hlt _]. lia.
    + cbn. apply NoDup_singleton.
  - intros h [= <-]. simpl_world. split; [lia|].
    exists (mkTimer n (Interval 1000) CbTick). split; [|done].
    apply elem_of_app. right. by apply list_elem_of_singleton.
Qed.

(** While no clock is armed, [gameState] may change freely within
    [game_ok]. *)
Lemma Inv_idle g ms a ts n g' :
  Inv (mkWorld g ms a ts n) -> gameTimer g = None ->
  game_ok g' -> gameTimer g' = None ->
  Inv (mkWorld g' ms a ts n).
Proof.
  intros HI Hn Hg' Hn'.
  pose proof (Inv_stopped g ms a ts n g' HI Hg' Hn') as H.
  by rewrite Hn in H.
Qed.

(** ** The callbacks keep the invariant and leave the clock alone *)

Lemma Js_ge_spec a b : if Js.ge a b then (b <= a)%Q else (a < b)%Q.
Proof. unfold Js.ge. by destruct (Qlt_le_dec a b). Qed.

Lemma Js_le_spec a b : if Js.le a b then (a <= b)%Q else (b < a)%Q.
Proof. unfold Js.le. by destruct (Qlt_le_dec b a). Qed.

(** The table row of the current level exists in every state of the loop. *)
Lemma Inv_row (tbl : list DifficultySettings) w :
  Inv w -> length tbl = 6%nat ->
  exists d, Js.index tbl (tierFor (elapsed w)) = Some d.
Proof.
  intros HI Hlen. pose proof (Inv_elapsed w HI) as He.
  pose proof (tierFor_range (elapsed w)) as Ht.
  destruct (index_in_range tbl (tierFor (elapsed w))) as (d & Hd & _);
    [lia | eauto].
Qed.

Lemma update_Inv tbl w i :
  Forall row_ok tbl -> length tbl = 6%nat ->
  Inv w -> (i < 3)%nat ->
  wp (update tbl i) (quietly w) w.
Proof.
  intros Hrows Hlen HI Hi. unfold update, quietly.
  destruct (Inv_lookup w HI i Hi) as (m & Hm & Hp & Hv & Hb).
  destruct (Inv_row tbl w HI Hlen) as (d & Hd).
  destruct (index_Forall _ _ _ _ Hrows Hd) as (_ & _ & Hs).
  wp_step. wp_step. destruct (isAnimating m); [|by wp_step].
  do 5 wp_step. unfold progress_ok in Hp.
  assert (Hgo : forall m',
    progress_ok m' -> visibilityTimer m' = visibilityTimer m ->
    bashTimer m' = bashTimer m ->
    Inv (set_moles (<[i := m']> (moles w))
           (set_gameState
              (set_difficultyLevel (tierFor (elapsed w)) (gameState w)) w))).
  { intros m' Hp' Hv' Hb'.
    apply (Inv_set_mole
             (set_gameState
                (set_difficultyLevel (tierFor (elapsed w)) (gameState w)) w)).
    - by apply Inv_set_game.
    - simpl_world. split; [done|]. by rewrite Hv', Hb'. }
  destruct (isVisible m).
  - do 4 wp_step. simpl_mole.
    pose proof (Js_ge_spec (animationProgress m + animationSpeed d) 1) as Hge.
    destruct (Js.ge _ _); wp_run; simpl_world;
      rewrite !list_insert_insert_eq;
      (split; [apply Hgo; unfold progress_ok; simpl_mole; try done; lra | done]).
  - do 4 wp_step. simpl_mole.
    pose proof (Js_le_spec (animationProgress m - animationSpeed d) 0) as Hle.
    destruct (Js.le _ _); wp_run; simpl_world;
      rewrite !list_insert_insert_eq;
      (split; [apply Hgo; unfold progress_ok; simpl_mole; try done; lra | done]).
Qed.

Lemma Inv_clock_below g ms a ts n h :
  Inv (mkWorld g ms a ts n) -> gameTimer g = Some h -> (h < n)%nat.
Proof. intros [_ _ _ _ _ Hc] Hh. by destruct (Hc h Hh). Qed.

Lemma mole_ok_handles n c m :
  mole_ok n c m ->
  (forall h, visibilityTimer m = Some h -> c <> Some h) /\
  (forall h, bashTimer m = Some h -> c <> Some h).
Proof.
  intros (_ & Hv & Hb).
  split; intros h Hh; [apply (Hv h Hh) | apply (Hb h Hh)].
Qed.

Lemma Part000_show_Inv w i r1 r2 :
  Inv w -> (i < 3)%nat -> wp (Part000.show i r1 r2) (quietly w) w.
Proof.
  intros HI Hi. unfold Part000.show, quietly.
  destruct (Inv_lookup w HI i Hi) as (m & Hm & Hok).
  destruct (Inv_row Part000.difficultySettings w HI eq_refl) as (d & Hd).
  destruct w as [g ms a ts n]. simpl_world.
  wp_step. wp_step.
  destruct (negb (running g) || paused g); [by wp_step|].
  wp_step. wp_step.
  destruct (isVisible m || isAnimating m); [by wp_step|].
  wp_run. rewrite !list_insert_insert_eq.
  split; [|done].
  apply Inv_mole; [apply Inv_timer; [by apply (Inv_game g) | done..]|].
  apply (mole_ok_next _ _ m); simpl_mole; auto.
  - unfold progress_ok. simpl_mole. lra.
  - intros h Hh. by apply (Inv_clock_below _ _ _ _ _ _ HI).
Qed.

Lemma Part000_hide_Inv w i r :
  Inv w -> (i < 3)%nat -> wp (Part000.hide i r) (quietly w) w.
Proof.
  intros HI Hi. unfold Part000.hide, quietly.
  destruct (Inv_lookup w HI i Hi) as (m & Hm & Hok).
  destruct (Inv_row Part000.difficultySettings w HI eq_refl) as (d & Hd).
  destruct (mole_ok_handles _ _ _ Hok) as [Hvne _].
  destruct w as [g ms a ts n]. simpl_world.
  wp_step. wp_step.
  destruct (negb (isVisible m)); [by wp_step|].
  assert (Hp : progress_ok m) by apply Hok.
  wp_run. simpl_mole. rewrite !list_insert_insert_eq.
  destruct (running g && negb (paused g)); wp_run; (split; [|done]).
  - apply Inv_mole;
      [apply Inv_timer; [apply (Inv_game g); [by apply Inv_without|done..]
                        | done..]|].
    apply (mole_ok_next _ _ m); simpl_mole; auto.
    intros h Hh. by apply (Inv_clock_below _ _ _ _ _ _ HI).
  - apply Inv_mole; [by apply Inv_without|].
    apply (mole_ok_same _ _ m); simpl_mole; auto.
Qed.

Lemma bashFrame1Done_Inv w i :
  Inv w -> (i < 3)%nat -> wp (bashFrame1Done i) (quietly w) w.
Proof.
  intros HI Hi. unfold bashFrame1Done, quietly.
  destruct (Inv_lookup w HI i Hi) as (m & Hm & Hok).
  destruct w as [g ms a ts n]. simpl_world.
  wp_run. rewrite !list_insert_insert_eq. split; [|done].
  apply Inv_mole; [by apply Inv_timer|].
  apply (mole_ok_next _ _ m); simpl_mole; auto; [apply Hok|].
  intros h Hh. by apply (Inv_clock_below _ _ _ _ _ _ HI).
Qed.

Lemma bashFrame2Done_Inv w i :
  Inv w -> (i < 3)%nat -> wp (bashFrame2Done i) (quietly w) w.
Proof.
  intros HI Hi. unfold bashFrame2Done, quietly.
  destruct (Inv_lookup w HI i Hi) as (m & Hm & Hok).
  destruct w as [g ms a ts n]. simpl_world.
  wp_run. split; [|done].
  apply Inv_mole; [done|].
  apply (mole_ok_same _ _ m); simpl_mole; auto. apply Hok.
Qed.

Lemma hit_Inv w i :
  Inv w -> (i < 3)%nat -> wp (hit i) (quietly w) w.
Proof.
  intros HI Hi. unfold hit, startBashAnimation, quietly.
  destruct (Inv_lookup w HI i Hi) as (m & Hm & Hok).
  destruct w as [g ms a ts n]. simpl_world.
  wp_step. wp_step.
  destruct (isVisible m && negb (isHit m)); [|by wp_step].
  assert (Hgo : forall g', gameTimer g' = gameTimer g ->
            running g' = running g -> timeLeft g' = timeLeft g ->
            gameEnded g' = gameEnded g ->
            Inv (mkWorld g'
                   (<[i := set_bashTimer (Some n)
                             (set_bashFrame 1
                                (set_isBashAnimating true
                                   (set_isHit true m)))]> ms) a
                   ((ts ++ [mkTimer n (Timeout 100) (CbBash1 i)]) ++
                      [mkTimer (S n) (Timeout 400) (CbHide i)])
                   (S (S n)))).
  { intros g' H1 H2 H3 H4.
    apply Inv_timer; [|done..].
    apply Inv_mole; [apply Inv_timer; [by apply (Inv_game g) | done..]|].
    rewrite H1. apply (mole_ok_next _ _ m); simpl_mole; auto; [apply Hok|].
    intros h Hh. by apply (Inv_clock_below _ _ _ _ _ _ HI). }
  destruct (isGoodMole m); wp_run; rewrite !list_insert_insert_eq;
    (split; [by apply Hgo | done]).
Qed.

Lemma Part000_handleKeyPress_Inv w key :
  Inv w -> wp (Part000.handleKeyPress key) (quietly w) w.
Proof.
  intros HI. unfold Part000.handleKeyPress.
  wp_step. wp_step.
  destruct (negb (running (gameState w)) || paused (gameState w));
    [by wp_step|].
  destruct (keyToIndex key) as [i|] eqn:Hk; [|by wp_step].
  assert (Hi : (i < 3)%nat).
  { unfold keyToIndex in Hk.
    repeat (destruct (String.eqb _ _); [injection Hk as <-; lia|]). done. }
  wp_step. wp_step.
  destruct (moles w !! i) as [m|]; [|by wp_step].
  destruct (isVisible m && Js.gt (animationProgress m) 0); [|by wp_step].
  wp_step. eapply wp_mono; [by apply hit_Inv|].
  intros b w' Hq. by wp_step.
Qed.

Lemma onKeyDown_Inv w key :
  Inv w -> wp (onKeyDown Part000.handleKeyPress key) (quietly w) w.
Proof.
  intros HI. unfold onKeyDown.
  destruct (_ || _); [by apply Part000_handleKeyPress_Inv | by wp_step].
Qed.

(** A loop over the moles whose body keeps the invariant and
    [gameState]. *)
Lemma forEachMole_keeping f w :
  Inv w ->
  (forall i w', (i < 3)%nat -> Inv w' -> wp (f i) (keeping w') w') ->
  wp (forEachMole f) (keeping w) w.
Proof.
  intros HI Hf. unfold forEachMole. wp_step. wp_step.
  rewrite (inv_length w HI).
  apply (wp_forIndices (fun w' => keeping w tt w')); [|done].
  intros i w' Hi (HI' & Hg'). apply elem_of_seq in Hi.
  eapply wp_mono; [apply Hf; [lia | done]|].
  intros [] w'' (HI'' & Hg''). split; [done | congruence].
Qed.

Lemma forEachMole_quietly f w :
  Inv w ->
  (forall i w', (i < 3)%nat -> Inv w' -> wp (f i) (quietly w') w') ->
  wp (forEachMole f) (quietly w) w.
Proof.
  intros HI Hf. unfold forEachMole. wp_step. wp_step.
  rewrite (inv_length w HI).
  apply (wp_forIndices (fun w' => quietly w tt w')); [|done].
  intros i w' Hi (HI' & Hc'). apply elem_of_seq in Hi.
  eapply wp_mono; [apply Hf; [lia | done]|].
  intros [] w'' (HI'' & Hc''). split; [done | congruence].
Qed.

Lemma gameLoop_Inv tbl w :
  Forall row_ok tbl -> length tbl = 6%nat ->
  Inv w -> wp (gameLoop tbl) (quietly w) w.
Proof.
  intros Hrows Hlen HI. unfold gameLoop. wp_step.
  eapply wp_mono.
  { apply forEachMole_quietly; [done|]. intros i w' Hi HI'.
    by apply update_Inv. }
  intros [] w' (HI' & Hc'). destruct w' as [g ms a ts n].
  wp_step. wp_step. destruct (running g); wp_run; (split; [|done]).
  - apply (Inv_animationId _ _ a). by apply Inv_timer.
  - done.
Qed.

(** ** The commands and the clock tick *)

(** The fragment that [start], [reset] and [gameOver] run on each mole:
    drop both timers, then write fields. *)
Lemma clear_and_set_keeping (f : Mole -> Mole) w i :
  (forall m, progress_ok m ->
     progress_ok (f m) /\
     (visibilityTimer (f m) = visibilityTimer m \/
      visibilityTimer (f m) = None) /\
     (bashTimer (f m) = bashTimer m \/ bashTimer (f m) = None)) ->
  Inv w -> (i < 3)%nat ->
  wp (clearVisibilityTimer i >> clearBashTimer i >> modifyMole i f)
     (keeping w) w.
Proof.
  intros Hf HI Hi. unfold keeping.
  destruct (Inv_lookup w HI i Hi) as (m & Hm & Hok).
  destruct (mole_ok_handles _ _ _ Hok) as [Hvne Hbne].
  destruct w as [g ms a ts n]. simpl_world.
  wp_run. simpl_mole. rewrite !list_insert_insert_eq. split; [|done].
  apply Inv_mole; [apply Inv_without; [by apply Inv_without | done]|].
  destruct (Hf (set_bashTimer None (set_visibilityTimer None m)))
    as (Hp & Hv & Hb); [apply Hok|].
  apply (mole_ok_same _ _ m); [done..| |]; simpl_mole.
  - destruct Hv as [-> | ->]; auto.
  - destruct Hb as [-> | ->]; auto.
Qed.

Lemma clearMoleTimers_keeping w i :
  Inv w -> (i < 3)%nat -> wp (Part000.clearMoleTimers i) (keeping w) w.
Proof.
  intros HI Hi. apply clear_and_set_keeping; [|done..].
  intros m Hp. simpl_mole. auto.
Qed.

Lemma hide_mole_keeping (f : Mole -> Mole) w i :
  (forall m, progress_ok m ->
     progress_ok (f m) /\ visibilityTimer (f m) = visibilityTimer m /\
     bashTimer (f m) = bashTimer m) ->
  Inv w -> (i < 3)%nat ->
  wp (modifyMole i f >> Part000.clearMoleTimers i) (keeping w) w.
Proof.
  intros Hf HI Hi. unfold keeping.
  destruct (Inv_lookup w HI i Hi) as (m & Hm & Hok).
  destruct (Hf m) as (Hp & Hv & Hb); [apply Hok|].
  destruct w as [g ms a ts n]. simpl_world.
  wp_step. wp_step. eapply wp_mono.
  { apply clearMoleTimers_keeping; [|done]. apply Inv_mole; [done|].
    apply (mole_ok_same _ _ m); auto. }
  intros [] w' (HI' & Hg'). done.
Qed.

Lemma gameOver_spec g ms a ts n g1 :
  Inv (mkWorld g ms a ts n) ->
  gameTimer g1 = gameTimer g -> 0 <= timeLeft g1 <= 60 ->
  wp Part000.gameOver
     (fun _ w' =>
        Inv w' /\
        gameState w' =
          set_gameTimer None (set_gameEnded true (set_running false g1)))
     (mkWorld g1 ms a ts n).
Proof.
  intros HI Hgt Htl. unfold Part000.gameOver.
  wp_step. wp_step. wp_step. wp_step. rewrite Hgt.
  eapply wp_mono.
  { apply forEachMole_keeping.
    - by apply Inv_stopped.
    - intros i w' Hi HI'. apply hide_mole_keeping; [|done..].
      intros m Hp. simpl_mole. auto. }
  intros [] w' (HI' & Hg'). done.
Qed.

Lemma Inv_countdown g ms a ts n :
  Inv (mkWorld g ms a ts n) -> 2 <= timeLeft g ->
  Inv (mkWorld (set_timeLeft (timeLeft g - 1) g) ms a ts n).
Proof.
  intros [Hlen Hm Ht Hnd [Hg He] Hc] Htl. simpl_world.
  constructor; simpl_world; try done.
  - eapply Forall_impl; [exact Ht|]. intros t Hok.
    apply (timer_ok_mono _ _ _ _ _ Hok); [lia|]. intros _. simpl_world.
    split; [done|]. split; [done | lia].
  - split; simpl_world; [lia | done].
Qed.

Lemma tick_spec w h :
  Inv w -> gameTimer (gameState w) = Some h ->
  wp Part000.tick (fun _ w' => Inv w' /\ ticked h w w') w.
Proof.
  intros HI Hh. destruct (Inv_armed w HI h Hh) as (Hr & Htl & _).
  pose proof (inv_game w HI) as [Hrange _].
  unfold Part000.tick, ticked.
  destruct w as [g ms a ts n]. simpl_world.
  wp_step. wp_step. destruct (paused g) eqn:Hp; [by wp_step|].
  cbn [negb]. wp_run.
  destruct (Z.leb_spec (timeLeft g - 1) 0).
  - eapply wp_mono.
    { apply (gameOver_spec g); [done | done | simpl_world; lia]. }
    intros [] w' (HI' & ->). simpl_world.
    replace (timeLeft g - 1 =? 0) with true by lia. done.
  - wp_step. replace (timeLeft g - 1 =? 0) with false by lia.
    split; [apply Inv_countdown; [done | lia] | done].
Qed.

Lemma start_spec w rs :
  Inv w ->
  wp (Part000.start rs)
     (fun _ w' =>
        Inv w' /\
        (running (gameState w) && negb (paused (gameState w)) = false ->
         exists h, Clock h 60 w'))
     w.
Proof.
  intros HI. unfold Part000.start.
  wp_step. wp_step.
  destruct (running (gameState w) && negb (paused (gameState w)));
    [by wp_step|].
  destruct w as [g ms a ts n]. simpl_world.
  wp_step. wp_step. wp_step.
  eapply wp_mono.
  { apply forEachMole_keeping.
    - apply (Inv_stopped g); [done | apply HI | done].
    - intros i w' Hi HI'. apply clear_and_set_keeping; [|done..].
      intros m Hp. unfold progress_ok. simpl_mole. split; [lra | auto]. }
  intros [] [g1 ms1 a1 ts1 n1] (HI1 & Hg1). simpl_world. subst g1.
  wp_run.
  assert (HI2 : Inv
    (mkWorld
       (set_gameTimer (Some n1)
          (set_difficultyLevel (Z.min ((60 - 60) / 10) 5)
             (set_gameEnded false (set_difficultyLevel 0 (set_timeLeft 60
                (set_score 0 (set_paused false (set_running true
                   (set_gameTimer None g)))))))))
       ms1 a1 (ts1 ++ [mkTimer n1 (Interval 1000) CbTick]) (S n1))).
  { apply (Inv_armed_new
             (set_difficultyLevel (Z.min ((60 - 60) / 10) 5)
                (set_gameEnded false (set_difficultyLevel 0 (set_timeLeft 60
                   (set_score 0 (set_paused false (set_running true
                      (set_gameTimer None g)))))))));
      [| done | done | simpl_world; lia].
    apply (Inv_idle (set_gameTimer None g)); [done | done | | done].
    split; simpl_world; [lia | done]. }
  eapply wp_mono.
  { apply forEachMole_keeping; [exact HI2|].
    intros i [g3 ms3 a3 ts3 n3] Hi HI3. unfold keeping. wp_run.
    split; [by apply Inv_timer | done]. }
  intros [] w3 (HI3 & Hg3). cbv beta.
  eapply wp_mono; [by apply (gameLoop_Inv _ w3 Part000_rows_ok)|].
  intros [] w4 (HI4 & Hc4). split; [done|]. intros _.
  exists n1. unfold Clock, clockOf in *. rewrite Hg3 in Hc4. simpl_world.
  injection Hc4 as -> -> -> -> ->. done.
Qed.

Lemma pause_spec w rs : Inv w -> wp (Part000.pause rs) (fun _ => Inv) w.
Proof.
  intros HI. unfold Part000.pause. wp_step. wp_step.
  destruct (running (gameState w)); cbn [negb].
  - destruct w as [g ms a ts n]. wp_step. by apply (Inv_game g).
  - eapply wp_mono; [by apply start_spec|]. by intros [] w' [? _].
Qed.

Lemma reset_spec w : Inv w -> wp Part000.reset (fun _ => Inv) w.
Proof.
  intros HI. unfold Part000.reset.
  destruct w as [g ms a ts n]. simpl_world.
  wp_step. wp_step. wp_step. wp_step. wp_step.
  eapply wp_mono.
  { apply forEachMole_keeping.
    - apply (Inv_stopped g); [done | | done].
      split; simpl_world; [lia | done].
    - intros i w' Hi HI'. apply hide_mole_keeping; [|done..].
      intros m Hp. simpl_mole. auto. }
  intros [] [g1 ms1 a1 ts1 n1] (HI1 & _).
  wp_run. destruct a1 as [h|]; wp_run; [by apply Inv_cancelled | done].
Qed.

(** ** One turn of the event loop *)

Lemma runCallback_quiet w r1 r2 cb :
  Inv w -> callback_ok cb -> cb <> CbTick ->
  wp (Part000.runCallback r1 r2 cb) (quietly w) w.
Proof.
  intros HI Hcb Hne. destruct cb; cbn [Part000.runCallback callback_ok] in *.
  - by apply Part000_show_Inv.
  - by apply Part000_hide_Inv.
  - by apply bashFrame1Done_Inv.
  - by apply bashFrame2Done_Inv.
  - done.
  - by apply (gameLoop_Inv _ w Part000_rows_ok).
Qed.

Lemma fire_spec w h r1 r2 :
  Inv w ->
  wp (Part000.fire h r1 r2)
     (fun _ w' =>
        Inv w' /\
        (gameTimer (gameState w) <> Some h -> clockOf w' = clockOf w) /\
        (gameTimer (gameState w) = Some h -> ticked h w w'))
     w.
Proof.
  intros HI. unfold Part000.fire, fireWith. wp_step. wp_step.
  destruct (pending h w) as [t|] eqn:Hp.
  - destruct (pending_Some _ _ _ Hp) as [Hin Hh].
    pose proof (inv_timers w HI) as Ht. rewrite Forall_forall in Ht.
    destruct (Ht t Hin) as (_ & Hcb & Htick).
    assert (callback t = CbTick \/ callback t <> CbTick) as [Heq | Hne]
      by (destruct (callback t); auto).
    + destruct (Htick Heq) as (Hk & Hgt & _). rewrite Hh in Hgt.
      rewrite Hk, Heq. wp_step. wp_step. cbn [Part000.runCallback].
      eapply wp_mono; [by apply (tick_spec w h)|].
      intros [] w' [HI' Htk].
      split; [done|]. split; [intros Hne; by destruct Hne | done].
    + assert (Hgt : gameTimer (gameState w) <> Some h).
      { intros Hgt. destruct (Inv_armed w HI h Hgt) as (_ & _ & t' & Hp' & ? & _).
        congruence. }
      destruct w as [g ms a ts n]. simpl_world.
      assert (Hcons : (forall d, kind t <> Interval d) ->
                wp (Part000.runCallback r1 r2 (callback t))
                   (fun _ w' =>
                      Inv w' /\
                      (gameTimer g <> Some h ->
                       clockOf w' = clockOf (mkWorld g ms a ts n)) /\
                      (gameTimer g = Some h ->
                       ticked h (mkWorld g ms a ts n) w'))
                   (mkWorld g ms a
                      (filter (fun t' => handle t' <> h) ts) n)).
      { intros Hk. eapply wp_mono.
        - apply runCallback_quiet; [|done..].
          apply (Inv_consumed _ _ _ _ _ HI h t); [done|].
          done.
        - intros [] w' [HI' Hc']. split; [done|]. split; done. }
      destruct (kind t) eqn:Hk.
      * wp_run. apply Hcons. by intros d'.
      * wp_run. eapply wp_mono; [by apply runCallback_quiet|].
        intros [] w' [HI' Hc']. split; [done|]. split; done.
      * wp_run. apply Hcons. by intros d'.
  - wp_step. split; [done|]. split; [done|]. intros Hgt.
    destruct (Inv_armed w HI h Hgt) as (_ & _ & t' & Hp' & _). congruence.
Qed.

Lemma construct_Inv lw lh : Inv (construct lw lh).
Proof.
  constructor; cbn; try done.
  - repeat apply Forall_cons_2; [..| apply Forall_nil_2];
      (split; [unfold progress_ok; cbn; lra | by split; intros h]).
  - constructor.
Qed.

(** Every event is handled without a [TypeError] and keeps the invariant. *)
Lemma step_Inv e w :
  Inv w -> exists w', Part000.step e w = Some w' /\ Inv w'.
Proof.
  intros HI.
  assert (Hexec : forall {A} (c : M A),
            wp c (fun _ => Inv) w -> exists w', exec c w = Some w' /\ Inv w').
  { intros A c Hwp. apply wp_eq in Hwp as (x & w' & Hc & HI').
    exists w'. unfold exec. by rewrite Hc. }
  destruct e as [rs | rs | | key | h r1 r2]; cbn [Part000.step]; apply Hexec.
  - eapply wp_mono; [by apply start_spec|]. by intros [] w' [? _].
  - by apply pause_spec.
  - by apply reset_spec.
  - eapply wp_mono; [by apply onKeyDown_Inv|]. by intros [] w' [? _].
  - eapply wp_mono; [by apply fire_spec|]. by intros [] w' [? _].
Qed.

Lemma reachable_Inv w : Part000.reachable w -> Inv w.
Proof.
  induction 1 as [lw lh | e w w' _ IH Hstep]; [apply construct_Inv|].
  destruct (step_Inv e w IH) as (w'' & Hs & HI). congruence.
Qed.

(** An event that is neither a click nor the clock tick leaves the clock
    alone. *)
Lemma step_quiet e w :
  Inv w -> isCommand e = false ->
  (forall h, gameTimer (gameState w) = Some h -> fires h e = false) ->
  exists w', Part000.step e w = Some w' /\ Inv w' /\ clockOf w' = clockOf w.
Proof.
  intros HI Hcmd Hfire.
  assert (Hexec : forall {A} (c : M A),
            wp c (quietly w) w ->
            exists w', exec c w = Some w' /\ Inv w' /\ clockOf w' = clockOf w).
  { intros A c Hwp. apply wp_eq in Hwp as (x & w' & Hc & HI' & Hq).
    exists w'. unfold exec. by rewrite Hc. }
  destruct e as [rs | rs | | key | h r1 r2]; try done;
    cbn [Part000.step]; apply Hexec.
  - by apply onKeyDown_Inv.
  - eapply wp_mono; [by apply fire_spec|].
    intros [] w' (HI' & Hq & _). split; [done|]. apply Hq.
    intros Hgt. specialize (Hfire _ Hgt). cbn in Hfire.
    by rewrite Nat.eqb_refl in Hfire.
Qed.

(** The clock tick of an armed session. *)
Lemma step_tick w h r1 r2 :
  Inv w -> gameTimer (gameState w) = Some h ->
  exists w', Part000.step (Fire h r1 r2) w = Some w' /\ Inv w' /\ ticked h w w'.
Proof.
  intros HI Hgt. cbn [Part000.step].
  destruct (proj1 (wp_eq _ _ _) (fire_spec w h r1 r2 HI))
    as ([] & w' & Hc & HI' & _ & Htk).
  exists w'. unfold exec. rewrite Hc. auto.
Qed.

(** * The session clock *)

Lemma ticks_cons h e es :
  ticks h (e :: es) = (if fires h e then 1 else 0) + ticks h es.
Proof. unfold ticks. cbn [List.filter]. destruct (fires h e); cbn [length]; lia. Qed.

Lemma ticks_nonneg h es : 0 <= ticks h es.
Proof. unfold ticks. lia. Qed.

Lemma Clock_gameTimer h n w h' :
  Clock h n w -> gameTimer (gameState w) = Some h' -> h' = h /\ n <> 0.
Proof.
  intros (_ & _ & Hc) Hgt. destruct (Z.eqb_spec n 0).
  - destruct Hc as (_ & _ & Hn). congruence.
  - destruct Hc as (_ & _ & Hn). split; congruence.
Qed.

Lemma Clock_quiet h n w w' :
  Clock h n w -> clockOf w' = clockOf w -> Clock h n w'.
Proof.
  unfold Clock, clockOf. intros Hc Heq.
  injection Heq as -> -> -> -> ->. done.
Qed.

Lemma Clock_ticked h n w w' :
  Clock h n w -> 1 <= n -> ticked h w w' -> Clock h (n - 1) w'.
Proof.
  unfold Clock, ticked. intros (Htl & Hp & Hc) Hn Htk.
  rewrite Hp, Htl in Htk. destruct Htk as (Htl' & Hp' & Hc').
  split; [done|]. split; [done|].
  destruct (n - 1 =? 0); [done|].
  replace (n =? 0) with false in Hc by lia.
  destruct Hc as (_ & He & _). destruct Hc' as (? & -> & ?). done.
Qed.

(** From a clock showing [n] seconds, a trace without clicks in which the
    tick fires [k <= n] times runs through and leaves [n - k] seconds. *)
Lemma run_clock es : forall w h n,
  Inv w -> Clock h n w -> 0 <= n -> quiet es -> ticks h es <= n ->
  exists w', Part000.run es w = Some w' /\ Inv w' /\
             Clock h (n - ticks h es) w'.
Proof.
  induction es as [|e es IH]; intros w h n HI Hc Hn Hq Hk.
  - exists w. split; [done|]. split; [done|].
    by replace (n - ticks h []) with n by (unfold ticks; cbn; lia).
  - apply Forall_cons in Hq as [Hcmd Hq]. rewrite ticks_cons in *.
    pose proof (ticks_nonneg h es).
    cbn [Part000.run]. destruct (fires h e) eqn:Hf.
    + destruct e as [| | | |h' r1 r2]; try done. cbn in Hf.
      apply Nat.eqb_eq in Hf as ->.
      assert (Hgt : gameTimer (gameState w) = Some h).
      { destruct Hc as (_ & _ & Hc).
        replace (n =? 0) with false in Hc by lia. apply Hc. }
      destruct (step_tick w h r1 r2 HI Hgt) as (w1 & -> & HI1 & Htk).
      destruct (IH w1 h (n - 1) HI1) as (w' & Hrun & HI' & Hc');
        [by apply (Clock_ticked h n w); [|lia|] | lia | done | lia |].
      exists w'. split; [done|]. split; [done|].
      by replace (n - (1 + ticks h es)) with (n - 1 - ticks h es) by lia.
    + destruct (step_quiet e w HI Hcmd) as (w1 & -> & HI1 & Hq1).
      { intros h' Hgt. by destruct (Clock_gameTimer _ _ _ _ Hc Hgt) as [-> _]. }
      destruct (IH w1 h n HI1) as (w' & Hrun & HI' & Hc');
        [by apply (Clock_quiet h n w) | lia | done | lia |].
      exists w'. split; [done|]. split; [done|].
      by replace (n - (0 + ticks h es)) with (n - ticks h es) by lia.
Qed.

(** C6. In every reachable state [0 <= timeLeft <= 60] and a running
    session is not ended; a tick of the armed clock of an unpaused session
    takes exactly one second off and never goes below 0.  After a fresh
    [start()], any run of events without clicks in which the clock fires
    [k <= 60] times completes with [timeLeft = 60 - k]; at [k = 60] the
    session has ended ([gameEnded], not [running], [timeLeft = 0]). *)
Theorem sixty_ticks_end_the_session (w : World) (rs : nat -> Q) :
  Part000.reachable w ->
  0 <= timeLeft (gameState w) <= 60 /\
  (running (gameState w) = true -> gameEnded (gameState w) = false) /\
  (forall h r1 r2,
     gameTimer (gameState w) = Some h -> paused (gameState w) = false ->
     exists w', Part000.step (Fire h r1 r2) w = Some w' /\
       timeLeft (gameState w') = timeLeft (gameState w) - 1 /\
       0 <= timeLeft (gameState w')) /\
  (running (gameState w) && negb (paused (gameState w)) = false ->
   exists w1 h,
     Part000.step (ClickStart rs) w = Some w1 /\
     gameTimer (gameState w1) = Some h /\
     timeLeft (gameState w1) = 60 /\
     running (gameState w1) = true /\ paused (gameState w1) = false /\
     forall es, quiet es -> ticks h es <= 60 ->
       exists wk,
         Part000.run es w1 = Some wk /\
         timeLeft (gameState wk) = 60 - ticks h es /\
         paused (gameState wk) = false /\
         (ticks h es = 60 ->
          gameEnded (gameState wk) = true /\
          running (gameState wk) = false /\
          timeLeft (gameState wk) = 0) /\
         (ticks h es < 60 ->
          gameEnded (gameState wk) = false /\
          running (gameState wk) = true)).
Proof.
  intros Hreach. pose proof (reachable_Inv w Hreach) as HI.
  destruct (inv_game w HI) as [Hrange Hend].
  split; [done|]. split; [done|]. split.
  - intros h r1 r2 Hgt Hp.
    destruct (step_tick w h r1 r2 HI Hgt) as (w' & Hs & HI' & Htk).
    exists w'. split; [done|]. unfold ticked in Htk. rewrite Hp in Htk.
    destruct Htk as (Htl & _). split; [done|].
    by destruct (inv_game w' HI') as [[? _] _].
  - intros Hguard.
    destruct (proj1 (wp_eq _ _ _) (start_spec w rs HI))
      as ([] & w1 & Hs & HI1 & Hclock).
    destruct (Hclock Hguard) as (h & Hc). exists w1, h.
    split; [cbn [Part000.step]; unfold exec; by rewrite Hs|].
    pose proof Hc as (Htl & Hp & Hrest). cbn in Hrest.
    destruct Hrest as (Hr & He & Hgt).
    split; [done|]. split; [done|]. split; [done|]. split; [done|].
    intros es Hq Hk. pose proof (ticks_nonneg h es).
    destruct (run_clock es w1 h 60 HI1 Hc) as (wk & Hrun & _ & Hck);
      [lia | done | done |].
    exists wk. split; [done|]. destruct Hck as (Htlk & Hpk & Hrestk).
    split; [done|]. split; [done|]. split.
    + intros Heq. rewrite Heq in *. cbn in Hrestk.
      destruct Hrestk as (? & ? & _). rewrite Htlk. done.
    + intros Hlt. replace (60 - ticks h es =? 0) with false in Hrestk by lia.
      destruct Hrestk as (? & ? & _). done.
Qed.

Lemma sixty_ticks_end_the_session_witness :
  exists wk,
    Part000.run (ClickStart zeroDraws :: replicate 60 (Fire 1 0 0))
      (construct 800 400) = Some wk /\
    gameEnded (gameState wk) = true /\
    running (gameState wk) = false /\
    timeLeft (gameState wk) = 0.
Proof.
  destruct (sixty_ticks_end_the_session (construct 800 400) zeroDraws
              (Part000.reachable_init 800 400))
    as (_ & _ & _ & Hstart).
  destruct (Hstart eq_refl) as (w1 & h & Hs & Hgt & _ & _ & _ & Hrun).
  assert (Hh : h = 1%nat).
  { vm_compute in Hs. injection Hs as <-. by injection Hgt as <-. }
  subst h.
  destruct (Hrun (replicate 60 (Fire 1 0 0))) as (wk & Hk & _ & _ & Hend & _).
  { apply Forall_forall. intros e He. by apply elem_of_replicate in He as [-> _]. }
  { vm_compute. discriminate. }
  exists wk. split; [cbn [Part000.run]; by rewrite Hs|].
  by apply Hend.
Defined.

(** * Reset *)

Lemma withoutTimeout_subseteq o ts t : t ∈ withoutTimeout o ts -> t ∈ ts.
Proof.
  destruct o as [h|]; [|done]. cbn. by intros [_ ?]%list_elem_of_filter.
Qed.

Lemma withoutTimeout_not_pending o ts : not_pending o (withoutTimeout o ts).
Proof.
  intros h t -> Hin Haf Heq. cbn in Hin.
  apply list_elem_of_filter in Hin as [Hkeep _]. by apply Hkeep.
Qed.

Lemma not_pending_subseteq o ts ts' :
  not_pending o ts -> (forall t, t ∈ ts' -> t ∈ ts) -> not_pending o ts'.
Proof. intros Hnp Hsub h t Ho Hin. apply (Hnp h t Ho). auto. Qed.

Lemma withoutMoleTimers_subseteq ms ts t :
  t ∈ withoutMoleTimers ms ts -> t ∈ ts.
Proof.
  revert ts. induction ms as [|m ms IH]; intros ts; [done|]. cbn.
  intros Hin%IH. eauto using withoutTimeout_subseteq.
Qed.

Lemma withoutMoleTimers_not_pending ms ts :
  Forall (fun m => not_pending (visibilityTimer m) (withoutMoleTimers ms ts) /\
                   not_pending (bashTimer m) (withoutMoleTimers ms ts)) ms.
Proof.
  revert ts. induction ms as [|m ms IH]; intros ts; [constructor|].
  cbn. constructor; [|apply IH]. split.
  - eapply not_pending_subseteq; [apply withoutTimeout_not_pending|].
    intros t Hin%withoutMoleTimers_subseteq.
    by apply withoutTimeout_subseteq in Hin.
  - eapply not_pending_subseteq; [apply withoutTimeout_not_pending|].
    apply withoutMoleTimers_subseteq.
Qed.

Lemma withoutTimeout_keeps o ts t :
  t ∈ ts -> o <> Some (handle t) -> t ∈ withoutTimeout o ts.
Proof.
  intros Hin Hne. destruct o as [h|]; [|done]. cbn.
  apply list_elem_of_filter. split; [|done]. intros [Heq _]. congruence.
Qed.

Lemma withoutMoleTimers_keeps ms ts t :
  t ∈ ts ->
  Forall (fun m => visibilityTimer m <> Some (handle t) /\
                   bashTimer m <> Some (handle t)) ms ->
  t ∈ withoutMoleTimers ms ts.
Proof.
  revert ts. induction ms as [|m ms IH]; intros ts Hin Hms; [done|].
  apply Forall_cons in Hms as [[Hv Hb] Hms]. cbn.
  apply IH; [|done]. by do 2 (apply withoutTimeout_keeps; [|done]).
Qed.

Lemma withoutMoleTimers_app ms1 ms2 ts :
  withoutMoleTimers (ms1 ++ ms2) ts =
  withoutMoleTimers ms2 (withoutMoleTimers ms1 ts).
Proof. revert ts. induction ms1 as [|m ms1 IH]; intros ts; [done|]. apply IH. Qed.

Lemma cleared_reset m : mole_reset (cleared m).
Proof. by repeat split. Qed.

(** The loop of [reset()], for any body that clears one mole. *)
Lemma reset_loop (body : nat -> M unit) w :
  (forall i w' m, moles w' !! i = Some m ->
     wp (body i)
        (fun _ w'' =>
           w'' = set_moles (<[i := cleared m]> (moles w'))
                   (set_timers
                      (withoutTimeout (bashTimer m)
                         (withoutTimeout (visibilityTimer m) (timers w')))
                      w'))
        w') ->
  wp (forEachMole body)
     (fun _ w' =>
        w' = set_moles (cleared <$> moles w)
               (set_timers (withoutMoleTimers (moles w) (timers w)) w))
     w.
Proof.
  intros Hbody. unfold forEachMole. apply wp_bind, wp_getWorld.
  pose (I := fun (k : nat) (w' : World) =>
    w' = set_moles ((cleared <$> take k (moles w)) ++ drop k (moles w))
           (set_timers (withoutMoleTimers (take k (moles w)) (timers w)) w)).
  eapply wp_mono.
  - apply (wp_forIndices_upto I body (length (moles w)) 0).
    + intros i w' [_ Hi] ->. cbn in Hi.
      destruct (lookup_lt_is_Some_2 (moles w) i Hi) as [m Hm].
      assert (Hlen : length (cleared <$> take i (moles w)) = i)
        by (rewrite length_fmap, length_take_le; lia).
      eapply wp_mono.
      * apply (Hbody i _ m). simpl_world.
        rewrite lookup_app_r by lia.
        by rewrite Hlen, Nat.sub_diag, lookup_drop, Nat.add_0_r.
      * intros [] w'' ->. unfold I, set_moles, set_timers. simpl_world.
        f_equal.
        -- rewrite (take_S_r _ _ _ Hm), fmap_app, <- app_assoc. cbn.
           rewrite insert_app_r_alt by lia.
           rewrite Hlen, Nat.sub_diag. f_equal.
           by rewrite (drop_S _ _ _ Hm).
        -- rewrite (take_S_r _ _ _ Hm), withoutMoleTimers_app. reflexivity.
    + unfold I. rewrite take_0, drop_0. by destruct w.
  - intros [] w' ->. cbn [Nat.add].
    by rewrite take_ge, drop_all, app_nil_r.
Qed.

Lemma Part000_reset_body i w m :
  moles w !! i = Some m ->
  wp (modifyMole i (fun m => set_isHit false (set_isVisible false m)) >>
      Part000.clearMoleTimers i)
     (fun _ w' =>
        w' = set_moles (<[i := cleared m]> (moles w))
               (set_timers
                  (withoutTimeout (bashTimer m)
                     (withoutTimeout (visibilityTimer m) (timers w)))
                  w))
     w.
Proof.
  intros Hm. unfold Part000.clearMoleTimers, cleared.
  wp_run. simpl_mole. by rewrite !list_insert_insert_eq.
Qed.

Lemma Whackabunny_reset_body i w m :
  moles w !! i = Some m ->
  wp (modifyMole i (fun m => set_isHit false (set_isVisible false m)) >>
      clearVisibilityTimer i >> clearBashTimer i >>
      modifyMole i (fun m => set_bashFrame 0 (set_isBashAnimating false m)))
     (fun _ w' =>
        w' = set_moles (<[i := cleared m]> (moles w))
               (set_timers
                  (withoutTimeout (bashTimer m)
                     (withoutTimeout (visibilityTimer m) (timers w)))
                  w))
     w.
Proof.
  intros Hm. unfold cleared.
  wp_run. simpl_mole. by rewrite !list_insert_insert_eq.
Qed.

Lemma after_reset_intro w g' a' ts' :
  score g' = 0 -> timeLeft g' = 60 -> running g' = false ->
  paused g' = false -> gameTimer g' = None ->
  (forall t, t ∈ ts' ->
     t ∈ withoutMoleTimers (moles w)
           (withoutTimeout (gameTimer (gameState w)) (timers w))) ->
  (forall t, isAnimationFrame t = false ->
     t ∈ withoutMoleTimers (moles w)
           (withoutTimeout (gameTimer (gameState w)) (timers w)) ->
     t ∈ ts') ->
  after_reset w (mkWorld g' (cleared <$> moles w) a' ts' (nextHandle w)).
Proof.
  intros Hs Ht Hr Hp Hg Hsub Hsup. unfold after_reset. simpl_world.
  repeat (split; [done|]).
  split; [apply Forall_fmap, Forall_forall; intros m _; apply cleared_reset|].
  split; [|split; [|split]]; cycle 3.
  { intros t Hin (Haf & Hgt & Hms). apply Hsup; [done|].
    apply withoutMoleTimers_keeps; [|done].
    by apply withoutTimeout_keeps. }
  - intros t Hin%Hsub%withoutMoleTimers_subseteq.
    by apply withoutTimeout_subseteq in Hin.
  - eapply not_pending_subseteq; [apply withoutTimeout_not_pending|].
    intros t Hin%Hsub. by apply withoutMoleTimers_subseteq in Hin.
  - eapply Forall_impl; [apply withoutMoleTimers_not_pending|].
    intros m [Hv Hb]. split; eapply not_pending_subseteq; eauto.
Qed.

Lemma Part000_reset_after w :
  wp Part000.reset
     (fun _ w' => after_reset w w' /\ gameEnded (gameState w') = false) w.
Proof.
  unfold Part000.reset. destruct w as [g ms a ts n].
  wp_step. wp_step. wp_step. wp_step. wp_step.
  eapply wp_mono; [apply reset_loop; intros; by apply Part000_reset_body|].
  intros [] w' ->. simpl_world.
  wp_step. wp_step. wp_step.
  destruct a as [h|]; wp_run; (split; [|done]);
    apply (after_reset_intro (mkWorld g ms _ ts n)); try done; simpl_world.
  - intros t Hin. by apply list_elem_of_filter in Hin as [_ ?].
  - intros t Haf Hin. apply list_elem_of_filter. split; [|done].
    intros [_ Haf']. congruence.
Qed.

Lemma Whackabunny_reset_after w :
  wp Whackabunny.reset (fun _ w' => after_reset w w') w.
Proof.
  unfold Whackabunny.reset. destruct w as [g ms a ts n].
  wp_step. wp_step. wp_step. wp_step. wp_step.
  eapply wp_mono; [apply reset_loop; intros; by apply Whackabunny_reset_body|].
  intros [] w' ->. simpl_world.
  wp_step. wp_step. wp_step.
  destruct a as [h|]; wp_run;
    apply (after_reset_intro (mkWorld g ms _ ts n)); try done; simpl_world.
  - intros t Hin. by apply list_elem_of_filter in Hin as [_ ?].
  - intros t Haf Hin. apply list_elem_of_filter. split; [|done].
    intros [_ Haf']. congruence.
Qed.

(** C7, as the code has it.  From every state, [reset()] yields
    [score = 0], [timeLeft = 60], not running, not paused, (in part_000)
    not ended, and [gameTimer = null]; every bunny is down and unstruck
    with both handles [null] and no bash animation; the timers that
    [gameTimer], [visibilityTimer] and [bashTimer] referred to are no
    longer pending, and nothing new is scheduled.  Timeouts whose handle
    the code never stored are not cancelled: they stay pending. *)
Theorem reset_clears_tracked_timers (w : World) :
  (exists w', Part000.step ClickReset w = Some w' /\
              after_reset w w' /\ gameEnded (gameState w') = false) /\
  (exists w', Whackabunny.step ClickReset w = Some w' /\ after_reset w w').
Proof.
  split.
  - destruct (proj1 (wp_eq _ _ _) (Part000_reset_after w))
      as ([] & w' & Hr & Ha). exists w'.
    split; [cbn; unfold exec; by rewrite Hr | done].
  - destruct (proj1 (wp_eq _ _ _) (Whackabunny_reset_after w))
      as ([] & w' & Hr & Ha). exists w'.
    split; [cbn; unfold exec; by rewrite Hr | done].
Qed.

(** C7 as stated fails: a reset shortly after a start leaves the three
    initial-appearance timeouts of the bunnies pending. *)
Lemma reset_leaves_show_timers_pending :
  exists w',
    Part000.run [ClickStart halfDraws; ClickReset] (construct 800 400)
      = Some w' /\
    timers w' = [ mkTimer 2 (Timeout (0.5 * 3000)) (CbShow 0);
                  mkTimer 3 (Timeout (0.5 * 3000)) (CbShow 1);
                  mkTimer 4 (Timeout (0.5 * 3000)) (CbShow 2) ].
Proof. eexists. split; vm_compute; reflexivity. Qed.

(** * The older variant keeps the same invariant *)

Lemma Whackabunny_show_Inv w i r1 r2 :
  Inv w -> (i < 3)%nat -> wp (Whackabunny.show i r1 r2) (quietly w) w.
Proof.
  intros HI Hi. unfold Whackabunny.show, quietly.
  destruct (Inv_lookup w HI i Hi) as (m & Hm & Hok).
  destruct (Inv_row Whackabunny.difficultySettings w HI eq_refl) as (d & Hd).
  destruct w as [g ms a ts n]. simpl_world.
  wp_step. wp_step.
  destruct (negb (running g) || paused g); [by wp_step|].
  wp_run. rewrite !list_insert_insert_eq.
  split; [|done].
  apply Inv_mole; [apply Inv_timer; [by apply (Inv_game g) | done..]|].
  apply (mole_ok_next _ _ m); simpl_mole; auto.
  - unfold progress_ok. simpl_mole. lra.
  - intros h Hh. by apply (Inv_clock_below _ _ _ _ _ _ HI).
Qed.

Lemma Whackabunny_hide_Inv w i r :
  Inv w -> (i < 3)%nat -> wp (Whackabunny.hide i r) (quietly w) w.
Proof.
  intros HI Hi. unfold Whackabunny.hide, quietly.
  destruct (Inv_lookup w HI i Hi) as (m & Hm & Hok).
  destruct (Inv_row Whackabunny.difficultySettings w HI eq_refl) as (d & Hd).
  destruct (mole_ok_handles _ _ _ Hok) as [Hvne _].
  destruct w as [g ms a ts n]. simpl_world.
  assert (Hp : progress_ok m) by apply Hok.
  wp_run. simpl_mole. rewrite !list_insert_insert_eq.
  destruct (running g && negb (paused g)); wp_run; (split; [|done]).
  - apply Inv_mole;
      [apply Inv_timer; [apply (Inv_game g); [by apply Inv_without|done..]
                        | done..]|].
    apply (mole_ok_next _ _ m); simpl_mole; auto.
    intros h Hh. by apply (Inv_clock_below _ _ _ _ _ _ HI).
  - apply Inv_mole; [by apply Inv_without|].
    apply (mole_ok_same _ _ m); simpl_mole; auto.
Qed.

Lemma Whackabunny_handleKeyPress_Inv w key :
  Inv w -> wp (Whackabunny.handleKeyPress key) (quietly w) w.
Proof.
  intros HI. unfold Whackabunny.handleKeyPress.
  wp_step. wp_step.
  destruct (negb (running (gameState w)) || paused (gameState w));
    [by wp_step|].
  destruct (keyToIndex key) as [i|] eqn:Hk; [|by wp_step].
  assert (Hi : (i < 3)%nat).
  { unfold keyToIndex in Hk.
    repeat (destruct (String.eqb _ _); [injection Hk as <-; lia|]). done. }
  wp_step. wp_step.
  destruct (moles w !! i) as [m|]; [|by wp_step].
  wp_step. eapply wp_mono; [by apply hit_Inv|].
  intros b w' Hq. by wp_step.
Qed.

Lemma Whackabunny_gameOver_body w i :
  Inv w -> (i < 3)%nat ->
  wp (modifyMole i (set_isVisible false) >> clearVisibilityTimer i)
     (keeping w) w.
Proof.
  intros HI Hi. unfold keeping.
  destruct (Inv_lookup w HI i Hi) as (m & Hm & Hok).
  destruct (mole_ok_handles _ _ _ Hok) as [Hvne _].
  destruct w as [g ms a ts n]. simpl_world.
  wp_run. simpl_mole. rewrite !list_insert_insert_eq. split; [|done].
  apply Inv_mole; [by apply Inv_without|].
  apply (mole_ok_same _ _ m); simpl_mole; auto. apply Hok.
Qed.

Lemma Whackabunny_gameOver_spec g ms a ts n g1 :
  Inv (mkWorld g ms a ts n) ->
  gameTimer g1 = gameTimer g -> 0 <= timeLeft g1 <= 60 ->
  wp Whackabunny.gameOver
     (fun _ w' =>
        Inv w' /\ gameState w' = set_gameTimer None (set_running false g1))
     (mkWorld g1 ms a ts n).
Proof.
  intros HI Hgt Htl. unfold Whackabunny.gameOver.
  wp_step. wp_step. wp_step. wp_step. rewrite Hgt.
  eapply wp_mono.
  { apply forEachMole_keeping.
    - by apply Inv_stopped.
    - intros i w' Hi HI'. by apply Whackabunny_gameOver_body. }
  intros [] w' (HI' & Hg'). done.
Qed.

Lemma Whackabunny_tick_spec w h :
  InvW w -> gameTimer (gameState w) = Some h ->
  wp Whackabunny.tick (fun _ => InvW) w.
Proof.
  intros [HI He] Hh. destruct (Inv_armed w HI h Hh) as (Hr & Htl & _).
  pose proof (inv_game w HI) as [Hrange _].
  unfold Whackabunny.tick, InvW.
  destruct w as [g ms a ts n]. simpl_world.
  wp_step. wp_step. destruct (paused g) eqn:Hp; [by wp_step|].
  wp_run.
  destruct (Z.leb_spec (timeLeft g - 1) 0).
  - eapply wp_mono.
    { apply (Whackabunny_gameOver_spec g); [done | done | simpl_world; lia]. }
    intros [] w' (HI' & Hg'). split; [done|]. by rewrite Hg'.
  - wp_step. split; [apply Inv_countdown; [done | lia] | done].
Qed.

Lemma Whackabunny_start_spec w rs :
  InvW w -> wp (Whackabunny.start rs) (fun _ => InvW) w.
Proof.
  intros [HI He]. unfold Whackabunny.start, InvW.
  wp_step. wp_step.
  destruct (running (gameState w) && negb (paused (gameState w)));
    [by wp_step|].
  destruct w as [g ms a ts n]. simpl_world.
  wp_step. wp_step. wp_step.
  eapply wp_mono.
  { apply forEachMole_keeping.
    - apply (Inv_stopped g); [done | apply HI | done].
    - intros i w' Hi HI'. apply clear_and_set_keeping; [|done..].
      intros m Hp. unfold progress_ok. simpl_mole. split; [lra | auto]. }
  intros [] [g1 ms1 a1 ts1 n1] (HI1 & Hg1). simpl_world. subst g1.
  wp_run.
  assert (HI2 : Inv
    (mkWorld
       (set_gameTimer (Some n1)
          (set_difficultyLevel 0 (set_timeLeft 60
             (set_score 0 (set_paused false (set_running true
                (set_gameTimer None g)))))))
       ms1 a1 (ts1 ++ [mkTimer n1 (Interval 1000) CbTick]) (S n1))).
  { apply (Inv_armed_new
             (set_difficultyLevel 0 (set_timeLeft 60
                (set_score 0 (set_paused false (set_running true
                   (set_gameTimer None g)))))));
      [| done | done | simpl_world; lia].
    apply (Inv_idle (set_gameTimer None g)); [done | done | | done].
    split; simpl_world; [lia | done]. }
  eapply wp_mono.
  { apply forEachMole_keeping; [exact HI2|].
    intros i [g3 ms3 a3 ts3 n3] Hi HI3. unfold keeping. wp_run.
    split; [by apply Inv_timer | done]. }
  intros [] w3 (HI3 & Hg3). cbv beta.
  eapply wp_mono; [by apply (gameLoop_Inv _ w3 Whackabunny_rows_ok)|].
  intros [] w4 (HI4 & Hc4). split; [done|].
  unfold clockOf in Hc4. rewrite Hg3 in Hc4. simpl_world.
  by injection Hc4 as _ _ _ _ ->.
Qed.

Lemma Whackabunny_pause_spec w : InvW w -> wp Whackabunny.pause (fun _ => InvW) w.
Proof.
  intros [HI He]. unfold Whackabunny.pause, InvW.
  destruct w as [g ms a ts n]. wp_step. split; [by apply (Inv_game g) | done].
Qed.

Lemma Whackabunny_reset_spec w : InvW w -> wp Whackabunny.reset (fun _ => InvW) w.
Proof.
  intros [HI He]. unfold Whackabunny.reset, InvW.
  destruct w as [g ms a ts n]. simpl_world.
  wp_step. wp_step. wp_step. wp_step. wp_step.
  eapply wp_mono.
  { apply forEachMole_keeping.
    - apply (Inv_stopped g); [done | | done].
      split; simpl_world; [lia | done].
    - intros i w' Hi HI'.
      destruct (Inv_lookup w' HI' i Hi) as (m & Hm & Hok).
      destruct w' as [g' ms' a' ts' n']. simpl_world.
      wp_step. wp_step. eapply wp_mono.
      + apply (clear_and_set_keeping
                 (fun m => set_bashFrame 0 (set_isBashAnimating false m)));
          [by intros m' Hp; simpl_mole; auto | | done].
        apply Inv_mole; [done|]. apply (mole_ok_same _ _ m); auto. apply Hok.
      + by intros [] w'' (HI'' & Hg''). }
  intros [] [g1 ms1 a1 ts1 n1] (HI1 & Hg1). simpl_world. subst g1.
  wp_run. destruct a1 as [h|]; wp_run; (split; [|done]);
    [by apply Inv_cancelled | done].
Qed.

Lemma Whackabunny_runCallback_quiet w r1 r2 cb :
  Inv w -> callback_ok cb -> cb <> CbTick ->
  wp (Whackabunny.runCallback r1 r2 cb) (quietly w) w.
Proof.
  intros HI Hcb Hne. destruct cb; cbn [Whackabunny.runCallback callback_ok] in *.
  - by apply Whackabunny_show_Inv.
  - by apply Whackabunny_hide_Inv.
  - by apply bashFrame1Done_Inv.
  - by apply bashFrame2Done_Inv.
  - done.
  - by apply (gameLoop_Inv _ w Whackabunny_rows_ok).
Qed.

Lemma quietly_InvW {A} w (a : A) w' : InvW w -> quietly w a w' -> InvW w'.
Proof.
  intros [_ He] [HI' Hc]. split; [done|]. unfold clockOf in Hc.
  injection Hc as _ _ _ _ ->. done.
Qed.

Lemma Whackabunny_fire_spec w h r1 r2 :
  InvW w -> wp (Whackabunny.fire h r1 r2) (fun _ => InvW) w.
Proof.
  intros HW. pose proof HW as [HI He].
  unfold Whackabunny.fire, fireWith. wp_step. wp_step.
  destruct (pending h w) as [t|] eqn:Hp; [|by wp_step].
  destruct (pending_Some _ _ _ Hp) as [Hin Hh].
  pose proof (inv_timers w HI) as Ht. rewrite Forall_forall in Ht.
  destruct (Ht t Hin) as (_ & Hcb & Htick).
  assert (callback t = CbTick \/ callback t <> CbTick) as [Heq | Hne]
    by (destruct (callback t); auto).
  - destruct (Htick Heq) as (Hk & Hgt & _). rewrite Hh in Hgt.
    rewrite Hk, Heq. wp_step. wp_step. cbn [Whackabunny.runCallback].
    by apply (Whackabunny_tick_spec w h).
  - destruct w as [g ms a ts n]. simpl_world.
    assert (Hcons : (forall d, kind t <> Interval d) ->
              wp (Whackabunny.runCallback r1 r2 (callback t)) (fun _ => InvW)
                 (mkWorld g ms a (filter (fun t' => handle t' <> h) ts) n)).
    { intros Hk. eapply wp_mono.
      - apply Whackabunny_runCallback_quiet; [|done..].
        by apply (Inv_consumed _ _ _ _ _ HI h t).
      - intros [] w' Hq. eapply quietly_InvW; [|exact Hq].
        split; [by apply (Inv_consumed _ _ _ _ _ HI h t) | done]. }
    destruct (kind t) eqn:Hk.
    + wp_run. apply Hcons. by intros d'.
    + wp_run. eapply wp_mono; [by apply Whackabunny_runCallback_quiet|].
      intros [] w' Hq. by apply (quietly_InvW _ _ _ HW Hq).
    + wp_run. apply Hcons. by intros d'.
Qed.

Lemma Whackabunny_step_Inv e w :
  InvW w -> exists w', Whackabunny.step e w = Some w' /\ InvW w'.
Proof.
  intros HW.
  assert (Hexec : forall {A} (c : M A),
            wp c (fun _ => InvW) w -> exists w', exec c w = Some w' /\ InvW w').
  { intros A c Hwp. apply wp_eq in Hwp as (x & w' & Hc & HI').
    exists w'. unfold exec. by rewrite Hc. }
  destruct e as [rs | rs | | key | h r1 r2]; cbn [Whackabunny.step];
    apply Hexec.
  - by apply Whackabunny_start_spec.
  - by apply Whackabunny_pause_spec.
  - by apply Whackabunny_reset_spec.
  - unfold onKeyDown. destruct (_ || _); [|by wp_step].
    eapply wp_mono; [apply Whackabunny_handleKeyPress_Inv, HW|].
    intros [] w' Hq. by apply (quietly_InvW _ _ _ HW Hq).
  - by apply Whackabunny_fire_spec.
Qed.

Lemma Whackabunny_reachable_Inv w : Whackabunny.reachable w -> InvW w.
Proof.
  induction 1 as [lw lh | e w w' _ IH Hstep];
    [split; [apply construct_Inv | done]|].
  destruct (Whackabunny_step_Inv e w IH) as (w'' & Hs & HI). congruence.
Qed.

(** * Animation progress *)

(** One call of [update()] on an animating bunny, given the table row [d]
    of the current level: the progress moves by [animationSpeed d], up
    when the bunny is visible and down when it is not; on reaching 1
    (resp. 0) it is set to exactly 1 (resp. 0) and the animation ends;
    [y] follows the new progress.  No other bunny is touched. *)
Lemma update_animates tbl w i m d :
  moles w !! i = Some m -> isAnimating m = true ->
  Js.index tbl (tierFor (elapsed w)) = Some d ->
  wp (update tbl i)
     (fun _ w' =>
        exists m',
          moles w' = <[i := m']> (moles w) /\
          isVisible m' = isVisible m /\
          y m' = (baseY m - animationProgress m' * 290)%Q /\
          (isVisible m = true ->
           ((1 <= animationProgress m + animationSpeed d)%Q ->
            animationProgress m' = 1%Q /\ isAnimating m' = false) /\
           ((animationProgress m + animationSpeed d < 1)%Q ->
            animationProgress m' =
              (animationProgress m + animationSpeed d)%Q /\
            isAnimating m' = true)) /\
          (isVisible m = false ->
           ((animationProgress m - animationSpeed d <= 0)%Q ->
            animationProgress m' = 0%Q /\ isAnimating m' = false) /\
           ((0 < animationProgress m - animationSpeed d)%Q ->
            animationProgress m' =
              (animationProgress m - animationSpeed d)%Q /\
            isAnimating m' = true)))
     w.
Proof.
  intros Hm Ha Hd. unfold update.
  wp_step. wp_step. rewrite Ha. do 5 wp_step.
  destruct (isVisible m) eqn:Hv.
  - do 4 wp_step. simpl_mole.
    pose proof (Js_ge_spec (animationProgress m + animationSpeed d) 1) as Hge.
    destruct (Js.ge _ _); wp_run; simpl_world;
      rewrite !list_insert_insert_eq;
      (eexists; split; [reflexivity|]; simpl_mole;
       split; [done|]; split; [done|]; split; [|done]; intros _;
       split; intros Hc; first [done | exfalso; lra]).
  - do 4 wp_step. simpl_mole.
    pose proof (Js_le_spec (animationProgress m - animationSpeed d) 0) as Hle.
    destruct (Js.le _ _); wp_run; simpl_world;
      rewrite !list_insert_insert_eq;
      (eexists; split; [reflexivity|]; simpl_mole;
       split; [done|]; split; [done|]; split; [done|]; intros _;
       split; intros Hc; first [done | exfalso; lra]).
Qed.

Lemma update_rests tbl w i m :
  moles w !! i = Some m -> isAnimating m = false ->
  update tbl i w = Some (tt, w).
Proof.
  intros Hm Ha.
  assert (H : wp (update tbl i) (fun _ w' => w' = w) w).
  { unfold update. wp_step. wp_step. rewrite Ha. by wp_step. }
  apply wp_eq in H as ([] & w' & -> & ->). done.
Qed.

(** C4. In both variants, in every state reachable from the page load by
    any sequence of events (start, pause, reset, strikes, timers firing,
    animation frames), the [animationProgress] of every bunny lies in
    [[0,1]], and [update()] keeps it there as the claim says.  Called
    on bunny [i], with [d] the table row of the current level, [update()]
    leaves a bunny that is not animating (and the whole state) as it is;
    otherwise it adds [animationSpeed d] to the progress of a visible
    bunny and sets the result to exactly 1 once it reaches 1, or
    subtracts [animationSpeed d] from the progress of a hidden bunny and
    sets the result to exactly 0 once it reaches 0, ending the animation
    in both cases; the clamped value is the one the call leaves behind, it
    is again in [[0,1]], and no other bunny changes. *)
Theorem progress_stays_in_unit_interval (w : World) (i : nat) (m : Mole) :
  Part000.reachable w \/ Whackabunny.reachable w ->
  moles w !! i = Some m ->
  (0 <= animationProgress m)%Q /\ (animationProgress m <= 1)%Q /\
  forall tbl,
    tbl = Part000.difficultySettings \/
    tbl = Whackabunny.difficultySettings ->
    exists d w' m',
      Js.index tbl (tierFor (elapsed w)) = Some d /\
      update tbl i w = Some (tt, w') /\
      moles w' = <[i := m']> (moles w) /\
      moles w' !! i = Some m' /\
      (0 <= animationProgress m')%Q /\ (animationProgress m' <= 1)%Q /\
      (isAnimating m = false -> w' = w) /\
      (isAnimating m = true -> isVisible m = true ->
       ((1 <= animationProgress m + animationSpeed d)%Q ->
        animationProgress m' = 1%Q /\ isAnimating m' = false) /\
       ((animationProgress m + animationSpeed d < 1)%Q ->
        animationProgress m' = (animationProgress m + animationSpeed d)%Q /\
        isAnimating m' = true)) /\
      (isAnimating m = true -> isVisible m = false ->
       ((animationProgress m - animationSpeed d <= 0)%Q ->
        animationProgress m' = 0%Q /\ isAnimating m' = false) /\
       ((0 < animationProgress m - animationSpeed d)%Q ->
        animationProgress m' = (animationProgress m - animationSpeed d)%Q /\
        isAnimating m' = true)).
Proof.
  intros Hreach Hm.
  assert (HI : Inv w).
  { destruct Hreach as [H | H];
      [by apply reachable_Inv | by apply Whackabunny_reachable_Inv]. }
  pose proof (inv_moles w HI) as Hms. rewrite Forall_forall in Hms.
  destruct (Hms m) as [[Hp0 Hp1] _]; [by eapply list_elem_of_lookup_2|].
  split; [done|]. split; [done|]. intros tbl Htbl.
  assert (Hrows : Forall row_ok tbl /\ length tbl = 6%nat).
  { destruct Htbl as [-> | ->];
      [split; [apply Part000_rows_ok | done]
      |split; [apply Whackabunny_rows_ok | done]]. }
  destruct Hrows as [Hrows Hlen].
  destruct (Inv_row tbl w HI Hlen) as (d & Hd).
  destruct (index_Forall _ _ _ _ Hrows Hd) as (_ & _ & Hs).
  assert (Hlt : (i < length (moles w))%nat) by eauto using lookup_lt_Some.
  exists d. destruct (isAnimating m) eqn:Ha.
  - destruct (proj1 (wp_eq _ _ _) (update_animates tbl w i m d Hm Ha Hd))
      as ([] & w' & Hrun & m' & Hms' & Hv' & _ & Hup & Hdown).
    exists w', m'. split; [done|]. split; [done|]. split; [done|].
    split; [rewrite Hms'; by apply list_lookup_insert_eq|].
    assert (Hin : (0 <= animationProgress m')%Q /\
                  (animationProgress m' <= 1)%Q).
    { destruct (isVisible m).
      - destruct (Hup eq_refl) as [H1 H2].
        destruct (Qlt_le_dec (animationProgress m + animationSpeed d) 1)
          as [Hc | Hc].
        + destruct (H2 Hc) as [-> _]. split; lra.
        + destruct (H1 Hc) as [-> _]. split; lra.
      - destruct (Hdown eq_refl) as [H1 H2].
        destruct (Qlt_le_dec 0 (animationProgress m - animationSpeed d))
          as [Hc | Hc].
        + destruct (H2 Hc) as [-> _]. split; lra.
        + destruct (H1 Hc) as [-> _]. split; lra. }
    destruct Hin as [Hin0 Hin1].
    split; [done|]. split; [done|]. split; [done|]. split; auto.
  - exists w, m. split; [done|].
    split; [by apply (update_rests tbl w i m)|].
    split; [by rewrite list_insert_id|].
    do 3 (split; [done|]). split; [done|]. split; done.
Qed.

Lemma Part000_run_reachable es : forall w w',
  Part000.reachable w -> Part000.run es w = Some w' -> Part000.reachable w'.
Proof.
  induction es as [|e es IH]; intros w w' Hr Hrun; cbn in Hrun.
  - by injection Hrun as <-.
  - destruct (Part000.step e w) as [w1|] eqn:Hs; [|done].
    apply (IH w1); [|done]. by apply (Part000.reachable_step e w).
Qed.

Lemma progress_stays_in_unit_interval_witness :
  match Part000.run [ClickStart zeroDraws; Fire 2 0 0; Fire 5 0 0]
          (construct 800 400) with
  | Some w =>
      exists m,
        moles w !! 0%nat = Some m /\
        animationProgress m = 0.025%Q /\
        (0 <= animationProgress m)%Q /\ (animationProgress m <= 1)%Q /\
        exists d w' m',
          Js.index Part000.difficultySettings (tierFor (elapsed w))
            = Some d /\
          update Part000.difficultySettings 0 w = Some (tt, w') /\
          moles w' !! 0%nat = Some m' /\
          animationProgress m' =
            (animationProgress m + animationSpeed d)%Q
  | None => False
  end.
Proof.
  destruct (Part000.run _ _) as [w|] eqn:Hrun;
    [|vm_compute in Hrun; discriminate].
  destruct (moles w !! 0%nat) as [m|] eqn:Hm;
    [|vm_compute in Hrun; injection Hrun as <-; discriminate].
  destruct (progress_stays_in_unit_interval w 0 m) as (H0 & H1 & Hup);
    [left; apply (Part000_run_reachable _ _ _
                    (Part000.reachable_init 800 400) Hrun) | done |].
  destruct (Hup Part000.difficultySettings) as
    (d & w' & m' & Hd & Hu & _ & Hm' & _ & _ & _ & Hvis & _); [by left|].
  exists m. split; [done|].
  vm_compute in Hrun. injection Hrun as <-.
  vm_compute in Hm. injection Hm as <-.
  vm_compute in Hd. injection Hd as <-.
  split; [reflexivity|]. split; [done|]. split; [done|].
  eexists _, w', m'. split; [reflexivity|]. split; [done|]. split; [done|].
  destruct (Hvis eq_refl eq_refl) as [_ Hlow].
  destruct Hlow as [Hp _]; [Qcompare | exact Hp].
Defined.

(** * Further properties of the event loop *)

(** ** No event throws *)


Lemma Whackabunny_run_Inv es : forall w,
  InvW w -> exists w', Whackabunny.run es w = Some w' /\ InvW w'.
Proof.
  induction es as [|e es IH]; intros w HI; cbn [Whackabunny.run];
    [by exists w|].
  destruct (Whackabunny_step_Inv e w HI) as (w1 & -> & HI1). by apply IH.
Qed.

Lemma Whackabunny_run_reachable es : forall w w',
  Whackabunny.reachable w -> Whackabunny.run es w = Some w' ->
  Whackabunny.reachable w'.
Proof.
  induction es as [|e es IH]; intros w w' Hr Hrun; cbn in Hrun.
  - by injection Hrun as <-.
  - destruct (Whackabunny.step e w) as [w1|] eqn:Hs; [|done].
    apply (IH w1); [|done]. by apply (Whackabunny.reachable_step e w).
Qed.

Lemma after_reachable es : Part000.reachable (after es).
Proof.
  unfold after.
  destruct (Part000.run es (construct 800 400)) as [w|] eqn:Hrun;
    cbn [default]; [|apply Part000.reachable_init].
  apply (Part000_run_reachable es _ _ (Part000.reachable_init 800 400) Hrun).
Qed.



(** X2.  whackabunny.js: the same holds for the older variant. *)
Theorem whackabunny_events_never_throw (w : World) (es : list Event) :
  Whackabunny.reachable w ->
  exists w', Whackabunny.run es w = Some w' /\ Whackabunny.reachable w'.
Proof.
  intros Hr.
  destruct (Whackabunny_run_Inv es w (Whackabunny_reachable_Inv w Hr))
    as (w' & Hrun & _).
  exists w'. split; [done|]. by apply (Whackabunny_run_reachable es w).
Qed.

Lemma whackabunny_events_never_throw_witness :
  exists w',
    Whackabunny.run [ClickStart halfDraws; Fire 2 0 0; KeyDown "a";
                     Fire 1 0 0; ClickReset; Fire 99 0 0]
      (construct 800 400) = Some w' /\
    Whackabunny.reachable w'.
Proof.
  apply (whackabunny_events_never_throw (construct 800 400)).
  apply Whackabunny.reachable_init.
Defined.

(** ** The session clock *)

Lemma exec_wp {A} (c : M A) (Q : A -> World -> Prop) w w' :
  wp c Q w -> exec c w = Some w' -> exists a, Q a w'.
Proof.
  intros Hwp He. apply wp_eq in Hwp as (a & w1 & Hc & HQ).
  unfold exec in He. rewrite Hc in He. injection He as <-. eauto.
Qed.

Lemma Part000_start_running w rs :
  running (gameState w) && negb (paused (gameState w)) = true ->
  Part000.start rs w = Some (tt, w).
Proof. intros Hg. unfold Part000.start, bind, getGame. by rewrite Hg. Qed.

Lemma clockOf_held w w' :
  clockOf w' = clockOf w -> clock_held w -> clock_held w'.
Proof.
  unfold clockOf, clock_held. intros Hc Hh. injection Hc as -> _ _ -> _. done.
Qed.

Lemma Clock_held h n w : Clock h n w -> clock_held w.
Proof.
  unfold Clock, clock_held. intros (_ & _ & Hc) Hr.
  destruct (n =? 0); destruct Hc as (Hr' & _ & Hg); congruence.
Qed.

Lemma Part000_start_held w rs w' :
  Inv w -> clock_held w -> exec (Part000.start rs) w = Some w' ->
  clock_held w'.
Proof.
  intros HI Hh He.
  destruct (running (gameState w) && negb (paused (gameState w))) eqn:Hg.
  - unfold exec in He. rewrite Part000_start_running in He by done.
    by injection He as <-.
  - destruct (exec_wp _ _ _ _ (start_spec w rs HI) He) as (_ & _ & Hc).
    destruct (Hc Hg) as (h & Hck). by apply (Clock_held h 60).
Qed.

Lemma Part000_step_held e w w' :
  Inv w -> clock_held w -> Part000.step e w = Some w' -> clock_held w'.
Proof.
  intros HI Hh Hs.
  destruct e as [rs | rs | | key | h r1 r2]; cbn [Part000.step] in Hs.
  - by apply (Part000_start_held w rs).
  - destruct (running (gameState w)) eqn:Hr.
    + unfold exec, Part000.pause, bind, getGame in Hs. rewrite Hr in Hs.
      cbn in Hs. injection Hs as <-. unfold clock_held in *. simpl_world.
      rewrite Hr in *. auto.
    + apply (Part000_start_held w rs); [done..|].
      unfold exec, Part000.pause, bind, getGame in *. by rewrite Hr in Hs.
  - destruct (exec_wp _ _ _ _ (Part000_reset_after w) Hs)
      as (_ & (_ & _ & Hr & _) & _).
    unfold clock_held. congruence.
  - destruct (exec_wp _ _ _ _ (onKeyDown_Inv w key HI) Hs) as (_ & _ & Hc).
    by apply (clockOf_held w).
  - destruct (exec_wp _ _ _ _ (fire_spec w h r1 r2 HI) Hs)
      as (_ & _ & Hq & Htk).
    assert (gameTimer (gameState w) = Some h \/
            gameTimer (gameState w) <> Some h) as [Heq | Hne].
    { destruct (gameTimer (gameState w)) as [h'|]; [|by right].
      destruct (decide (h' = h)) as [-> | ?]; [by left | right; congruence]. }
    + specialize (Htk Heq). unfold ticked in Htk. unfold clock_held in *.
      destruct (paused (gameState w)); [by rewrite Htk|].
      destruct Htk as (_ & _ & Htk).
      destruct (_ =? 0); destruct Htk as (Hr' & _ & Hg'); congruence.
    + apply (clockOf_held w); auto.
Qed.

Lemma Part000_reachable_held w : Part000.reachable w -> clock_held w.
Proof.
  induction 1 as [lw lh | e w w' Hr IH Hstep]; [done|].
  apply (Part000_step_held e w); [by apply reachable_Inv | done..].
Qed.

(** X3.  part_000: a session is running exactly when it holds a clock
    handle; the handle in [gameState.gameTimer] is that of a pending
    one-second interval, and no other clock tick is pending: [start()],
    [reset()] and [gameOver()] never leave two clocks running or a clock
    running for a stopped session. *)
Theorem one_session_clock (w : World) :
  Part000.reachable w ->
  (running (gameState w) = true <->
   exists h, gameTimer (gameState w) = Some h) /\
  (forall h, gameTimer (gameState w) = Some h ->
     exists t, pending h w = Some t /\ callback t = CbTick /\
               kind t = Interval 1000) /\
  (forall t, t ∈ timers w -> callback t = CbTick ->
     gameTimer (gameState w) = Some (handle t) /\ kind t = Interval 1000) /\
  (forall t1 t2, t1 ∈ timers w -> t2 ∈ timers w ->
     callback t1 = CbTick -> callback t2 = CbTick -> t1 = t2).
Proof.
  intros Hr. pose proof (reachable_Inv w Hr) as HI.
  pose proof (Part000_reachable_held w Hr) as Hh.
  assert (Htick : forall t, t ∈ timers w -> callback t = CbTick ->
            gameTimer (gameState w) = Some (handle t) /\
            kind t = Interval 1000).
  { intros t Hin Hcb. pose proof (inv_timers w HI) as Ht.
    rewrite Forall_forall in Ht. destruct (Ht t Hin) as (_ & _ & Hk).
    destruct (Hk Hcb) as (? & ? & _). done. }
  split; [|split; [|split]].
  - split.
    + intros Hrun. destruct (gameTimer (gameState w)) as [h|] eqn:Hg;
        [by exists h | by destruct (Hh Hrun)].
    + intros [h Hg]. by destruct (Inv_armed w HI h Hg).
  - intros h Hg. by destruct (Inv_armed w HI h Hg) as (_ & _ & Ht).
  - exact Htick.
  - intros t1 t2 H1 H2 Hc1 Hc2.
    apply (NoDup_handles_same (timers w)); [apply HI | done..|].
    destruct (Htick t1 H1 Hc1) as [Hg1 _].
    destruct (Htick t2 H2 Hc2) as [Hg2 _]. congruence.
Qed.

Lemma one_session_clock_witness :
  (running (gameState oneUp) = true <->
   exists h, gameTimer (gameState oneUp) = Some h) /\
  (forall h, gameTimer (gameState oneUp) = Some h ->
     exists t, pending h oneUp = Some t /\ callback t = CbTick /\
               kind t = Interval 1000) /\
  (forall t, t ∈ timers oneUp -> callback t = CbTick ->
     gameTimer (gameState oneUp) = Some (handle t) /\
     kind t = Interval 1000) /\
  (forall t1 t2, t1 ∈ timers oneUp -> t2 ∈ timers oneUp ->
     callback t1 = CbTick -> callback t2 = CbTick -> t1 = t2).
Proof. apply (one_session_clock oneUp). apply after_reachable. Defined.

(** ** Commands applied twice *)

Lemma Part000_reset_eq w :
  Part000.reset w =
  Some (tt, resetTo
              (set_gameTimer None (set_gameEnded false (set_timeLeft 60
                 (set_score 0 (set_paused false
                    (set_running false (gameState w))))))) w).
Proof.
  assert (H : wp Part000.reset
    (fun _ w' => w' = resetTo
       (set_gameTimer None (set_gameEnded false (set_timeLeft 60
          (set_score 0 (set_paused false
             (set_running false (gameState w))))))) w) w).
  { unfold Part000.reset. destruct w as [g ms a ts n].
    wp_step. wp_step. wp_step. wp_step. wp_step.
    eapply wp_mono; [apply reset_loop; intros; by apply Part000_reset_body|].
    intros [] w' ->. simpl_world.
    wp_step. wp_step. wp_step. by destruct a as [h|]; wp_run. }
  apply wp_eq in H as ([] & w' & -> & ->). done.
Qed.

Lemma Whackabunny_reset_eq w :
  Whackabunny.reset w =
  Some (tt, resetTo
              (set_gameTimer None (set_timeLeft 60
                 (set_score 0 (set_paused false
                    (set_running false (gameState w)))))) w).
Proof.
  assert (H : wp Whackabunny.reset
    (fun _ w' => w' = resetTo
       (set_gameTimer None (set_timeLeft 60
          (set_score 0 (set_paused false
             (set_running false (gameState w)))))) w) w).
  { unfold Whackabunny.reset. destruct w as [g ms a ts n].
    wp_step. wp_step. wp_step. wp_step. wp_step.
    eapply wp_mono;
      [apply reset_loop; intros; by apply Whackabunny_reset_body|].
    intros [] w' ->. simpl_world.
    wp_step. wp_step. wp_step. by destruct a as [h|]; wp_run. }
  apply wp_eq in H as ([] & w' & -> & ->). done.
Qed.

Lemma cleared_idemp m : cleared (cleared m) = cleared m.
Proof. done. Qed.

Lemma withoutMoleTimers_cleared ms ts :
  withoutMoleTimers (cleared <$> ms) ts = ts.
Proof. induction ms as [|m ms IH]; [done|]. cbn. apply IH. Qed.

Lemma filter_twice {A} (P : A -> Prop) `{!forall a, Decision (P a)}
    (l : list A) :
  filter P (filter P l) = filter P l.
Proof.
  induction l as [|a l IH]; [done|].
  rewrite filter_cons. destruct (decide (P a)); [|done].
  rewrite filter_cons. destruct (decide (P a)); [|done]. by rewrite IH.
Qed.

Lemma withoutFrame_twice o ts :
  withoutFrame o (withoutFrame o ts) = withoutFrame o ts.
Proof. destruct o; [apply filter_twice | done]. Qed.

Lemma resetTo_twice g' w :
  gameTimer g' = None -> resetTo g' (resetTo g' w) = resetTo g' w.
Proof.
  intros Hg. unfold resetTo. simpl_world. rewrite Hg. cbn [withoutTimeout].
  rewrite withoutMoleTimers_cleared, withoutFrame_twice.
  f_equal. rewrite <- list_fmap_compose. by apply list_fmap_ext.
Qed.

(** X4.  Both variants: [reset()] never throws, and a second [reset()]
    right after the first changes nothing at all. *)
Theorem reset_is_idempotent (w : World) :
  (exists w1, Part000.step ClickReset w = Some w1 /\
              Part000.step ClickReset w1 = Some w1) /\
  (exists w1, Whackabunny.step ClickReset w = Some w1 /\
              Whackabunny.step ClickReset w1 = Some w1).
Proof.
  split; eexists; cbn [Part000.step Whackabunny.step]; unfold exec.
  - rewrite Part000_reset_eq. split; [reflexivity|].
    rewrite Part000_reset_eq. f_equal.
    etransitivity; [|by apply resetTo_twice]. reflexivity.
  - rewrite Whackabunny_reset_eq. split; [reflexivity|].
    rewrite Whackabunny_reset_eq. f_equal.
    etransitivity; [|by apply resetTo_twice]. reflexivity.
Qed.



(** ** The shape of reachable states (part_000) *)

(** *** Updating a world that has the shape *)

Lemma mole_shape_run run run' m :
  mole_shape run m -> (run' = true -> run = true) -> mole_shape run' m.
Proof. intros (Ha & Hb & Hd) Hr. repeat split; auto. Qed.

Lemma mole_foot_refl act m : mole_foot act m m.
Proof. repeat split; auto. Qed.

Lemma Foot_mole w g' i m m' a' ts' n' :
  moles w !! i = Some m -> mole_foot (active w) m m' ->
  Foot w (mkWorld g' (<[i := m']> (moles w)) a' ts' n').
Proof.
  intros Hm Hf j mj mj' Hj Hj'. simpl_world.
  destruct (decide (j = i)) as [-> | Hne].
  - rewrite list_lookup_insert_eq in Hj' by eauto using lookup_lt_Some.
    congruence.
  - rewrite list_lookup_insert_ne in Hj' by done.
    replace mj' with mj by congruence. apply mole_foot_refl.
Qed.

Lemma Foot_same w w' : moles w' = moles w -> Foot w w'.
Proof.
  intros Heq j mj mj' Hj Hj'. rewrite Heq in Hj'.
  replace mj' with mj by congruence. apply mole_foot_refl.
Qed.

Section ShapeUpdates.

Variables (g : GameState) (ms : list Mole) (a : option nat)
          (ts : list Timer) (n : nat).
Hypothesis HI : Inv (mkWorld g ms a ts n).

Lemma Inv_handle_below i m h :
  ms !! i = Some m -> visibilityTimer m = Some h -> (h < n)%nat.
Proof.
  intros Hm Hv. pose proof (inv_moles _ HI) as Hms. simpl_world.
  rewrite Forall_forall in Hms.
  destruct (Hms m) as (_ & Hok & _); [by eapply list_elem_of_lookup_2|].
  by destruct (Hok h Hv).
Qed.

(** Mole [i] is rewritten; the pending callbacks other than the one under
    its old handle stay. *)
Lemma Shape_mole skip g' i m m' a' ts' n' :
  ShapeBut skip (mkWorld g ms a ts n) ->
  (forall j, skip = Some j -> j = i) ->
  ms !! i = Some m ->
  game_shape g' -> (running g' = true -> running g = true) ->
  (forall t, t ∈ ts -> visibilityTimer m <> Some (handle t) -> t ∈ ts') ->
  mole_shape (running g') m' ->
  (isVisible m' = true -> hide_pending i m' ts') ->
  (visibilityTimer m' = visibilityTimer m \/ visibilityTimer m' = None \/
   visibilityTimer m' = Some n) ->
  Shape (mkWorld g' (<[i := m']> ms) a' ts' n').
Proof.
  intros [Hg Hms Hh Hd] Hskip Hm Hg' Hrun Hts Hm' Hp Hv. simpl_world.
  assert (Hfresh : forall j mj, ms !! j = Some mj ->
            visibilityTimer mj <> Some n).
  { intros j mj Hj Hvj. pose proof (Inv_handle_below j mj n Hj Hvj). lia. }
  constructor; simpl_world.
  - done.
  - intros j mj Hj. destruct (decide (j = i)) as [-> | Hne].
    + rewrite list_lookup_insert_eq in Hj by eauto using lookup_lt_Some.
      by injection Hj as <-.
    + rewrite list_lookup_insert_ne in Hj by done.
      eapply mole_shape_run; eauto.
  - intros j mj Hj _ Hvis. destruct (decide (j = i)) as [-> | Hne].
    + rewrite list_lookup_insert_eq in Hj by eauto using lookup_lt_Some.
      injection Hj as <-. auto.
    + rewrite list_lookup_insert_ne in Hj by done.
      destruct (Hh j mj Hj) as (h & d & Hvj & Hin); [|done|].
      { intros Hs. by apply Hskip in Hs. }
      exists h, d. split; [done|]. apply Hts; [done|]. cbn.
      intros Hvm. by apply (Hd j i mj m h).
  - intros j k mj mk h Hjk Hj Hk Hvj Hvk.
    destruct (decide (j = i)) as [-> | Hji];
      destruct (decide (k = i)) as [-> | Hki]; try done.
    + rewrite list_lookup_insert_eq in Hj by eauto using lookup_lt_Some.
      rewrite list_lookup_insert_ne in Hk by done. injection Hj as <-.
      destruct Hv as [Hv | [Hv | Hv]]; rewrite Hv in Hvj.
      * by apply (Hd i k m mk h).
      * done.
      * injection Hvj as <-. by apply (Hfresh k mk).
    + rewrite list_lookup_insert_ne in Hj by done.
      rewrite list_lookup_insert_eq in Hk by eauto using lookup_lt_Some.
      injection Hk as <-.
      destruct Hv as [Hv | [Hv | Hv]]; rewrite Hv in Hvk.
      * by apply (Hd j i mj m h).
      * done.
      * injection Hvk as <-. by apply (Hfresh j mj).
    + rewrite list_lookup_insert_ne in Hj by done.
      rewrite list_lookup_insert_ne in Hk by done.
      by apply (Hd j k mj mk h).
Qed.

(** No mole is rewritten; the pending [hide()] callbacks that matter
    stay. *)
Lemma Shape_world skip skip' g' a' ts' n' :
  ShapeBut skip (mkWorld g ms a ts n) ->
  game_shape g' -> (running g' = true -> running g = true) ->
  (forall i, skip' <> Some i -> skip <> Some i) ->
  (forall i t, skip' <> Some i -> t ∈ ts -> callback t = CbHide i ->
     t ∈ ts') ->
  ShapeBut skip' (mkWorld g' ms a' ts' n').
Proof.
  intros [Hg Hms Hh Hd] Hg' Hrun Hskip Hts. simpl_world.
  constructor; simpl_world; [done| | |done].
  - intros j mj Hj. eapply mole_shape_run; eauto.
  - intros j mj Hj Hs Hvis.
    destruct (Hh j mj Hj (Hskip j Hs) Hvis) as (h & d & Hvj & Hin).
    exists h, d. split; [done|]. by apply (Hts j).
Qed.

End ShapeUpdates.

Lemma Shape_unskip i w :
  ShapeBut (Some i) w ->
  (forall m, moles w !! i = Some m -> isVisible m = false) ->
  Shape w.
Proof.
  intros [Hg Hms Hh Hd] Hi. constructor; [done | done | | done].
  intros j mj Hj _ Hvis. apply Hh; [done | | done].
  intros [= ->]. rewrite (Hi mj Hj) in Hvis. done.
Qed.

Lemma Shape_skip i w : Shape w -> ShapeBut (Some i) w.
Proof.
  intros [Hg Hms Hh Hd]. constructor; [done | done | | done].
  intros j mj Hj _ Hvis. by apply Hh.
Qed.

Lemma wp_conj {A} (c : M A) (Q1 Q2 : A -> World -> Prop) w :
  wp c Q1 w -> wp c Q2 w -> wp c (fun a w' => Q1 a w' /\ Q2 a w') w.
Proof. unfold wp. destruct (c w) as [[a w']|]; auto. Qed.

Lemma same_faces_refl w : same_faces w w.
Proof.
  split; [done|]. intros i m m' Hm Hm'. by replace m' with m by congruence.
Qed.

Lemma same_faces_trans w1 w2 w3 :
  same_faces w1 w2 -> same_faces w2 w3 -> same_faces w1 w3.
Proof.
  intros [Hl12 H12] [Hl23 H23]. split; [congruence|].
  intros i m1 m3 H1 H3.
  destruct (lookup_lt_is_Some_2 (moles w2) i) as [m2 H2].
  { rewrite Hl12. eauto using lookup_lt_Some. }
  destruct (H12 i m1 m2 H1 H2) as (? & ? & ?).
  destruct (H23 i m2 m3 H2 H3) as (? & ? & ?). repeat split; congruence.
Qed.

Lemma same_faces_mole w g' i m m' a' ts' n' :
  moles w !! i = Some m ->
  isVisible m' = isVisible m -> isHit m' = isHit m ->
  isGoodMole m' = isGoodMole m ->
  same_faces w (mkWorld g' (<[i := m']> (moles w)) a' ts' n').
Proof.
  intros Hm Hv Hh Hk. split; simpl_world; [by rewrite length_insert|].
  intros j mj mj' Hj Hj'. destruct (decide (j = i)) as [-> | Hne].
  - rewrite list_lookup_insert_eq in Hj' by eauto using lookup_lt_Some.
    injection Hj' as <-. by replace mj with m by congruence.
  - rewrite list_lookup_insert_ne in Hj' by done.
    by replace mj' with mj by congruence.
Qed.

Lemma same_faces_Foot w w' : same_faces w w' -> Foot w w'.
Proof.
  intros [_ Hf] i m m' Hm Hm'. destruct (Hf i m m' Hm Hm') as (Hv & Hh & Hk).
  unfold mole_foot. rewrite Hv, Hh, Hk. auto.
Qed.

Lemma game_shape_level g l :
  game_shape g -> 0 <= l <= 5 -> game_shape (set_difficultyLevel l g).
Proof. intros [_ Hs] Hl. by split. Qed.

Lemma Inv_tier w : Inv w -> 0 <= tierFor (elapsed w) <= 5.
Proof.
  intros HI. apply tierFor_range. pose proof (Inv_elapsed w HI). lia.
Qed.

(** ** The callbacks keep the shape *)

Lemma update_calm tbl w i :
  Forall row_ok tbl -> length tbl = 6%nat ->
  Inv w -> Shape w -> (i < 3)%nat ->
  wp (update tbl i)
     (fun _ w' =>
        Shape w' /\ same_faces w w' /\
        score (gameState w') = score (gameState w))
     w.
Proof.
  intros Hrows Hlen HI HS Hi. unfold update.
  destruct (Inv_lookup w HI i Hi) as (m & Hm & _).
  destruct (Inv_row tbl w HI Hlen) as (d & Hd).
  pose proof (Inv_tier w HI) as Htier.
  wp_step. wp_step.
  destruct (isAnimating m) eqn:Ha;
    [|wp_step; split; [done | split; [apply same_faces_refl | done]]].
  do 5 wp_step.
  assert (Hgo : forall m',
    isVisible m' = isVisible m -> isHit m' = isHit m ->
    isGoodMole m' = isGoodMole m ->
    visibilityTimer m' = visibilityTimer m ->
    (isAnimating m' = false ->
     animationProgress m' = (if isVisible m then 1 else 0)%Q) ->
    let w' := set_moles (<[i := m']> (moles w))
                (set_gameState
                   (set_difficultyLevel (tierFor (elapsed w)) (gameState w))
                   w) in
    Shape w' /\ same_faces w w' /\
    score (gameState w') = score (gameState w)).
  { intros m' Hv' Hh' Hk' Ht' Hrest w'. subst w'.
    destruct w as [g ms a ts n]. simpl_world.
    split; [|split; [by apply (same_faces_mole (mkWorld g ms a ts n) _ i m)|done]].
    destruct (shape_moles _ _ HS i m Hm) as (_ & _ & Hdown).
    eapply (Shape_mole g ms a ts n HI None); eauto.
    - done.
    - apply game_shape_level; [apply HS | done].
    - repeat split.
      + intros Hvis Hanim. rewrite Hrest by done. rewrite <- Hv'.
        by rewrite Hvis.
      + intros _ Hvis Hanim. rewrite Hrest by done. rewrite <- Hv'.
        by rewrite Hvis.
      + rewrite Hv', Ht'. exact Hdown.
    - intros Hvis. rewrite Hv' in Hvis.
      destruct (shape_hides _ _ HS i m Hm) as (h & d' & Hvt & Hin);
        [done | done |].
      exists h, d'. by rewrite Ht'. }
  destruct (isVisible m) eqn:Hvis.
  - do 4 wp_step. simpl_mole.
    destruct (Js.ge _ _); wp_run; simpl_world;
      rewrite !list_insert_insert_eq; apply Hgo; simpl_mole;
      try done; congruence.
  - do 4 wp_step. simpl_mole.
    destruct (Js.le _ _); wp_run; simpl_world;
      rewrite !list_insert_insert_eq; apply Hgo; simpl_mole;
      try done; congruence.
Qed.

Lemma mole_shape_eq run m m' :
  mole_shape run m ->
  isVisible m' = isVisible m -> isAnimating m' = isAnimating m ->
  animationProgress m' = animationProgress m ->
  visibilityTimer m' = visibilityTimer m ->
  mole_shape run m'.
Proof. unfold mole_shape. intros H -> -> -> ->. exact H. Qed.

(** Mole [i] is rewritten in fields the shape does not read; callbacks are
    only added. *)
Lemma Shape_touch g ms a ts n g' i m m' a' ts' n' :
  Inv (mkWorld g ms a ts n) -> Shape (mkWorld g ms a ts n) ->
  ms !! i = Some m ->
  game_shape g' -> (running g' = true -> running g = true) ->
  (forall t, t ∈ ts -> t ∈ ts') ->
  isVisible m' = isVisible m -> isAnimating m' = isAnimating m ->
  animationProgress m' = animationProgress m ->
  visibilityTimer m' = visibilityTimer m ->
  Shape (mkWorld g' (<[i := m']> ms) a' ts' n').
Proof.
  intros HI HS Hm Hg' Hrun Hts Hv Ha Hp Ht.
  eapply (Shape_mole g ms a ts n HI None); eauto.
  - done.
  - apply (mole_shape_eq _ m); auto.
    eapply mole_shape_run; [apply (shape_moles _ _ HS i m Hm) | done].
  - intros Hvis. rewrite Hv in Hvis.
    destruct (shape_hides _ _ HS i m Hm) as (h & d & Hvt & Hin);
      [done | done |].
    exists h, d. rewrite Ht. auto.
Qed.

Ltac solve_foot :=
  unfold mole_foot, active; simpl_mole; simpl_world;
  repeat split; intros; first [congruence | by left | by right].

Lemma calmly_refl w : Shape w -> calmly w tt w.
Proof. intros HS. split; [done|]. split; [by apply Foot_same | done]. Qed.

Lemma Part000_show_calm w i r1 r2 :
  Inv w -> Shape w -> (i < 3)%nat ->
  wp (Part000.show i r1 r2) (calmly w) w.
Proof.
  intros HI HS Hi. unfold Part000.show.
  destruct (Inv_lookup w HI i Hi) as (m & Hm & _).
  destruct (Inv_row Part000.difficultySettings w HI eq_refl) as (d & Hd).
  pose proof (Inv_tier w HI) as Htier.
  destruct w as [g ms a ts n]. simpl_world.
  wp_step. wp_step.
  destruct (negb (running g) || paused g) eqn:Hgd;
    [wp_step; by apply calmly_refl|].
  wp_step. wp_step.
  destruct (isVisible m || isAnimating m) eqn:Hgd2;
    [wp_step; by apply calmly_refl|].
  apply orb_false_elim in Hgd as [Hr Hp].
  apply orb_false_elim in Hgd2 as [Hv Ha].
  apply negb_false_iff in Hr.
  wp_run. rewrite !list_insert_insert_eq.
  split; [|split; [|done]].
  - eapply (Shape_mole g ms a ts n HI None);
      [exact HS | done | exact Hm | | done | | | |];
      simpl_world; simpl_mole.
    + apply game_shape_level; [apply HS | done].
    + intros t Hin _. apply elem_of_app. by left.
    + by repeat split.
    + intros _. eexists n, _. split; [done|].
      apply elem_of_app. right. by apply list_elem_of_singleton.
    + auto.
  - apply (Foot_mole (mkWorld g ms a ts n) _ i m); [done|].
    unfold mole_foot, active. simpl_mole. simpl_world.
    rewrite ?Hv, ?Hr, ?Hp. solve_foot.
Qed.

Lemma Part000_hide_calm w i r :
  Inv w -> ShapeBut (Some i) w -> (i < 3)%nat ->
  wp (Part000.hide i r) (calmly w) w.
Proof.
  intros HI HS Hi. unfold Part000.hide.
  destruct (Inv_lookup w HI i Hi) as (m & Hm & _).
  destruct (Inv_row Part000.difficultySettings w HI eq_refl) as (d & Hd).
  pose proof (Inv_tier w HI) as Htier.
  destruct w as [g ms a ts n]. simpl_world.
  wp_step. wp_step.
  destruct (isVisible m) eqn:Hv; cbn [negb].
  2:{ wp_step. apply calmly_refl. apply (Shape_unskip i); [done|].
      intros m0 Hm0. simpl_world. congruence. }
  assert (Hkeep : forall ts' : list Timer,
            (forall t, t ∈ withoutTimeout (visibilityTimer m) ts -> t ∈ ts') ->
            forall t, t ∈ ts -> visibilityTimer m <> Some (handle t) -> t ∈ ts').
  { intros ts' Hsub t Hin Hne. apply Hsub. by apply withoutTimeout_keeps. }
  assert (Hfoot : forall g' a' ts' n',
            Foot (mkWorld g ms a ts n)
              (mkWorld g'
                 (<[i := set_visibilityTimer None
                           (set_isAnimating true
                              (set_isHit false (set_isVisible false m)))]> ms)
                 a' ts' n')).
  { intros. apply (Foot_mole (mkWorld g ms a ts n) _ i m); [done|].
    solve_foot. }
  wp_run. simpl_mole. rewrite !list_insert_insert_eq.
  destruct (running g && negb (paused g)); wp_run;
    (split; [|split; [apply Hfoot | done]]).
  - eapply (Shape_mole g ms a ts n HI (Some i));
      [exact HS | by intros j [= ->] | exact Hm | | done | | | |];
      simpl_world; simpl_mole.
    + apply game_shape_level; [apply HS | done].
    + apply Hkeep. intros t Hin. apply elem_of_app. by left.
    + by repeat split.
    + done.
    + auto.
  - eapply (Shape_mole g ms a ts n HI (Some i));
      [exact HS | by intros j [= ->] | exact Hm | | done | | | |];
      simpl_world; simpl_mole.
    + apply HS.
    + by apply Hkeep.
    + by repeat split.
    + done.
    + auto.
Qed.

Lemma bashFrame1Done_calm w i :
  Inv w -> Shape w -> (i < 3)%nat -> wp (bashFrame1Done i) (calmly w) w.
Proof.
  intros HI HS Hi. unfold bashFrame1Done.
  destruct (Inv_lookup w HI i Hi) as (m & Hm & _).
  destruct w as [g ms a ts n]. simpl_world.
  wp_run. rewrite !list_insert_insert_eq.
  split; [|split; [|done]].
  - eapply (Shape_touch g ms a ts n);
      [exact HI | exact HS | exact Hm | apply HS | done | | done..].
    intros t Hin. apply elem_of_app. by left.
  - apply (Foot_mole (mkWorld g ms a ts n) _ i m); [done|].
    solve_foot.
Qed.

Lemma bashFrame2Done_calm w i :
  Inv w -> Shape w -> (i < 3)%nat -> wp (bashFrame2Done i) (calmly w) w.
Proof.
  intros HI HS Hi. unfold bashFrame2Done.
  destruct (Inv_lookup w HI i Hi) as (m & Hm & _).
  destruct w as [g ms a ts n]. simpl_world.
  wp_run. split; [|split; [|done]].
  - eapply (Shape_touch g ms a ts n);
      [exact HI | exact HS | exact Hm | apply HS | done..].
  - apply (Foot_mole (mkWorld g ms a ts n) _ i m); [done|].
    solve_foot.
Qed.

Lemma game_shape_score g s :
  game_shape g -> (10 | s) -> game_shape (set_score s g).
Proof. intros [Hl _] Hs. by split. Qed.

Lemma hit_struck w i :
  Inv w -> Shape w -> (i < 3)%nat -> active w = true ->
  wp (hit i) (fun _ => struck (fun j _ => j = i) w tt) w.
Proof.
  intros HI HS Hi Hact. unfold hit, startBashAnimation, struck.
  destruct (Inv_lookup w HI i Hi) as (m & Hm & _).
  destruct w as [g ms a ts n]. simpl_world.
  wp_step. wp_step.
  destruct (isVisible m && negb (isHit m)) eqn:Hgd.
  2:{ wp_step. split; [done|]. split; [by apply Foot_same | by left]. }
  apply andb_true_iff in Hgd as [Hv Hh]. apply negb_true_iff in Hh.
  assert (Hgo : forall g' ts',
    game_shape g' -> running g' = running g ->
    (forall t, t ∈ ts -> t ∈ ts') ->
    Shape (mkWorld g'
             (<[i := set_bashTimer (Some n)
                       (set_bashFrame 1
                          (set_isBashAnimating true (set_isHit true m)))]> ms)
             a ts' (S (S n))) /\
    Foot (mkWorld g ms a ts n)
      (mkWorld g'
         (<[i := set_bashTimer (Some n)
                   (set_bashFrame 1
                      (set_isBashAnimating true (set_isHit true m)))]> ms)
         a ts' (S (S n)))).
  { intros g' ts' Hg' Hr' Hts. split.
    - eapply (Shape_touch g ms a ts n);
        [exact HI | exact HS | exact Hm | done | congruence | done..].
    - apply (Foot_mole (mkWorld g ms a ts n) _ i m); [done|].
      solve_foot. }
  assert (Hts : forall t, t ∈ ts ->
            t ∈ (ts ++ [mkTimer n (Timeout 100) (CbBash1 i)]) ++
                [mkTimer (S n) (Timeout 400) (CbHide i)]).
  { intros t Hin. apply elem_of_app. left. apply elem_of_app. by left. }
  destruct HS as [[Hl Hs] _ _ _]. simpl_world.
  destruct (isGoodMole m) eqn:Hk; wp_run; rewrite !list_insert_insert_eq.
  - destruct (Hgo (set_score (score g + 10) g) _
                (game_shape_score g _ (conj Hl Hs)
                   (Z.divide_add_r _ _ _ Hs (Z.divide_refl 10)))
                eq_refl Hts) as [H1 H2].
    split; [done|]. split; [done|]. right. split; [done|].
    exists i, m. unfold points. by rewrite Hk.
  - assert (Hd : (10 | score g - 20)).
    { apply Z.divide_sub_r; [done|]. by exists 2. }
    destruct (Hgo (set_score (score g - 20) g) _
                (game_shape_score g _ (conj Hl Hs) Hd) eq_refl Hts)
      as [H1 H2].
    split; [done|]. split; [done|]. right. split; [done|].
    exists i, m. unfold points. rewrite Hk. by split; [|split; [|split]].
Qed.

Lemma Part000_handleKeyPress_struck w key :
  Inv w -> Shape w ->
  wp (Part000.handleKeyPress key) (struck (under_key key) w) w.
Proof.
  intros HI HS. unfold Part000.handleKeyPress.
  assert (Hno : struck (under_key key) w tt w).
  { split; [done|]. split; [by apply Foot_same | by left]. }
  wp_step. wp_step.
  destruct (negb (running (gameState w)) || paused (gameState w)) eqn:Hgd;
    [by wp_step|].
  assert (Hact : active w = true).
  { unfold active. apply orb_false_elim in Hgd as [Hr Hp].
    apply negb_false_iff in Hr. by rewrite Hr, Hp. }
  destruct (keyToIndex key) as [i|] eqn:Hk; [|by wp_step].
  assert (Hi : (i < 3)%nat).
  { unfold keyToIndex in Hk.
    repeat (destruct (String.eqb _ _); [injection Hk as <-; lia|]). done. }
  wp_step. wp_step.
  destruct (moles w !! i) as [m|] eqn:Hm; [|by wp_step].
  destruct (isVisible m && Js.gt (animationProgress m) 0) eqn:Hup;
    [|by wp_step].
  apply andb_true_iff in Hup as [_ Hup].
  wp_step. eapply wp_mono; [by apply hit_struck|].
  intros b w' (H1 & H2 & H3). wp_step. split; [done|]. split; [done|].
  destruct H3 as [H3 | (_ & j & mj & -> & Hj & H3)]; [by left|].
  right. split; [done|]. exists i, mj. split; [|done].
  split; [done|]. by replace mj with m by congruence.
Qed.

Lemma Part000_onKeyDown_struck w key :
  Inv w -> Shape w ->
  wp (onKeyDown Part000.handleKeyPress key)
     (struck (under_key (Js.toLowerCase key)) w) w.
Proof.
  intros HI HS. unfold onKeyDown.
  destruct (_ || _); [by apply Part000_handleKeyPress_struck|].
  wp_step. split; [done|]. split; [by apply Foot_same | by left].
Qed.

Lemma gameLoop_calm tbl w :
  Forall row_ok tbl -> length tbl = 6%nat ->
  Inv w -> Shape w -> wp (gameLoop tbl) (calmly w) w.
Proof.
  intros Hrows Hlen HI HS. unfold gameLoop. wp_step.
  pose (I := fun w' : World =>
    Inv w' /\ Shape w' /\ same_faces w w' /\
    score (gameState w') = score (gameState w)).
  assert (Hloop : wp (forEachMole (update tbl)) (fun _ => I) w).
  { unfold forEachMole. wp_step. wp_step. rewrite (inv_length w HI).
    apply (wp_forIndices I).
    - intros i w' Hin (HI' & HS' & Hf' & Hs'). apply elem_of_seq in Hin.
      eapply wp_mono.
      + apply wp_conj;
          [apply (update_Inv tbl w' i) | apply (update_calm tbl w' i)];
          auto; lia.
      + intros [] w'' ((HI'' & _) & HS'' & Hf'' & Hs''). cbv beta.
        split; [done|]. split; [done|].
        split; [by apply (same_faces_trans w w') | congruence].
    - split; [done|]. split; [done|]. split; [apply same_faces_refl | done]. }
  eapply wp_mono; [exact Hloop|].
  intros [] [g ms a ts n] (HI' & HS' & Hf' & Hs').
  apply same_faces_Foot in Hf'.
  wp_step. wp_step. destruct (running g); wp_run.
  - split; [|split; [|done]].
    + apply (Shape_world g ms a ts n None None); auto; [apply HS'|].
      intros i t _ Hin _. apply elem_of_app. by left.
    + intros i m m' Hm Hm'. by apply (Hf' i).
  - by split; [|split].
Qed.

(** ** The commands in closed form *)

(** A loop that drops both timers of each mole and rewrites it by [f]. *)
Lemma clear_loop (f : Mole -> Mole) (body : nat -> M unit) w :
  (forall i w' m, moles w' !! i = Some m ->
     wp (body i)
        (fun _ w'' =>
           w'' = set_moles (<[i := f m]> (moles w'))
                   (set_timers
                      (withoutTimeout (bashTimer m)
                         (withoutTimeout (visibilityTimer m) (timers w')))
                      w'))
        w') ->
  wp (forEachMole body)
     (fun _ w' =>
        w' = set_moles (f <$> moles w)
               (set_timers (withoutMoleTimers (moles w) (timers w)) w))
     w.
Proof.
  intros Hbody. unfold forEachMole. apply wp_bind, wp_getWorld.
  pose (I := fun (k : nat) (w' : World) =>
    w' = set_moles ((f <$> take k (moles w)) ++ drop k (moles w))
           (set_timers (withoutMoleTimers (take k (moles w)) (timers w)) w)).
  eapply wp_mono.
  - apply (wp_forIndices_upto I body (length (moles w)) 0).
    + intros i w' [_ Hi] ->. cbn in Hi.
      destruct (lookup_lt_is_Some_2 (moles w) i Hi) as [m Hm].
      assert (Hlen : length (f <$> take i (moles w)) = i)
        by (rewrite length_fmap, length_take_le; lia).
      eapply wp_mono.
      * apply (Hbody i _ m). simpl_world.
        rewrite lookup_app_r by lia.
        by rewrite Hlen, Nat.sub_diag, lookup_drop, Nat.add_0_r.
      * intros [] w'' ->. unfold I, set_moles, set_timers. simpl_world.
        f_equal.
        -- rewrite (take_S_r _ _ _ Hm), fmap_app, <- app_assoc. cbn.
           rewrite insert_app_r_alt by lia.
           rewrite Hlen, Nat.sub_diag. f_equal.
           by rewrite (drop_S _ _ _ Hm).
        -- rewrite (take_S_r _ _ _ Hm), withoutMoleTimers_app. reflexivity.
    + unfold I. rewrite take_0, drop_0. by destruct w.
  - intros [] w' ->. cbn [Nat.add].
    by rewrite take_ge, drop_all, app_nil_r.
Qed.

Lemma showTimers_S rs n len :
  showTimers rs n (S len) =
  showTimers rs n len ++
    [mkTimer (n + len) (Timeout (rs len * 3000)) (CbShow len)].
Proof. unfold showTimers. by rewrite seq_S, fmap_app. Qed.

(** The second loop of [start()]. *)
Lemma show_loop rs w :
  wp (forEachMole (fun i =>
        let* _ := setTimeout (CbShow i) (rs i * 3000)%Q in ret tt))
     (fun _ w' =>
        w' = mkWorld (gameState w) (moles w) (animationId w)
               (timers w ++
                  showTimers rs (nextHandle w) (length (moles w)))
               (nextHandle w + length (moles w)))
     w.
Proof.
  unfold forEachMole. apply wp_bind, wp_getWorld.
  pose (I := fun (k : nat) (w' : World) =>
    w' = mkWorld (gameState w) (moles w) (animationId w)
           (timers w ++ showTimers rs (nextHandle w) k) (nextHandle w + k)).
  eapply wp_mono.
  - apply (wp_forIndices_upto I _ (length (moles w)) 0).
    + intros i w' _ ->. wp_run. unfold I.
      rewrite showTimers_S, app_assoc. f_equal. lia.
    + unfold I. cbn. rewrite app_nil_r, Nat.add_0_r. by destruct w.
  - by intros [] w' ->.
Qed.

Lemma update_idle tbl i w m :
  moles w !! i = Some m -> isAnimating m = false ->
  update tbl i w = Some (tt, w).
Proof.
  intros Hm Ha.
  assert (H : wp (update tbl i) (fun _ w' => w' = w) w).
  { unfold update. wp_step. wp_step. rewrite Ha. by wp_step. }
  apply wp_eq in H as ([] & w' & -> & ->). done.
Qed.

(** A frame in which no bunny is animating only requests the next frame. *)
Lemma gameLoop_idle tbl w :
  Forall (fun m => isAnimating m = false) (moles w) ->
  wp (gameLoop tbl)
     (fun _ w' =>
        w' = if running (gameState w)
             then mkWorld (gameState w) (moles w) (Some (nextHandle w))
                    (timers w ++
                       [mkTimer (nextHandle w) AnimationFrame CbFrame])
                    (S (nextHandle w))
             else w)
     w.
Proof.
  intros Hidle. unfold gameLoop. wp_step.
  eapply (wp_mono _ (fun _ w' => w' = w)).
  - unfold forEachMole. wp_step. wp_step.
    apply (wp_forIndices (fun w' => w' = w)); [|done].
    intros i w' Hin ->. apply elem_of_seq in Hin.
    destruct (lookup_lt_is_Some_2 (moles w) i) as [m Hm]; [lia|].
    rewrite Forall_forall in Hidle.
    unfold wp. rewrite (update_idle tbl i w m Hm); [done|].
    apply Hidle. by eapply list_elem_of_lookup_2.
  - intros [] w' ->. wp_step. wp_step.
    destruct (running (gameState w)); by wp_run.
Qed.

Lemma start_body i w m :
  moles w !! i = Some m ->
  wp (clearVisibilityTimer i >> clearBashTimer i >>
      modifyMole i (fun m =>
        set_bashFrame 0 (set_isBashAnimating false
          (set_animationProgress 0%Q (set_isAnimating false
            (set_isHit false (set_isVisible false m)))))))
     (fun _ w' =>
        w' = set_moles (<[i := started m]> (moles w))
               (set_timers
                  (withoutTimeout (bashTimer m)
                     (withoutTimeout (visibilityTimer m) (timers w)))
                  w))
     w.
Proof.
  intros Hm. unfold started.
  wp_run. simpl_mole. by rewrite !list_insert_insert_eq.
Qed.

Lemma started_idle ms :
  Forall (fun m => isAnimating m = false) (started <$> ms).
Proof. apply Forall_fmap, Forall_forall. by intros m _. Qed.

Lemma Part000_start_eq rs w :
  active w = false -> Part000.start rs w = Some (tt, startTo rs false w).
Proof.
  intros Hact.
  assert (H : wp (Part000.start rs)
                (fun _ w' => w' = startTo rs false w) w).
  { unfold Part000.start. unfold active in Hact.
    destruct w as [g ms a ts n]. simpl_world.
    wp_step. wp_step. rewrite Hact. wp_step. wp_step. wp_step.
    eapply wp_mono; [apply clear_loop; intros; by apply start_body|].
    intros [] w' ->. simpl_world. wp_run.
    eapply wp_mono; [apply show_loop|].
    intros [] w' ->. simpl_world.
    eapply wp_mono; [apply gameLoop_idle, started_idle|].
    intros [] w' ->. simpl_world. unfold startTo. simpl_world.
    rewrite length_fmap. f_equal. by rewrite <- !app_assoc. }
  apply wp_eq in H as ([] & w' & -> & ->). done.
Qed.

Lemma Whackabunny_start_eq rs w :
  active w = false ->
  Whackabunny.start rs w =
  Some (tt, startTo rs (gameEnded (gameState w)) w).
Proof.
  intros Hact.
  assert (H : wp (Whackabunny.start rs)
                (fun _ w' => w' = startTo rs (gameEnded (gameState w)) w) w).
  { unfold Whackabunny.start. unfold active in Hact.
    destruct w as [g ms a ts n]. simpl_world.
    wp_step. wp_step. rewrite Hact. wp_step. wp_step. wp_step.
    eapply wp_mono; [apply clear_loop; intros; by apply start_body|].
    intros [] w' ->. simpl_world. wp_run.
    eapply wp_mono; [apply show_loop|].
    intros [] w' ->. simpl_world.
    eapply wp_mono; [apply gameLoop_idle, started_idle|].
    intros [] w' ->. simpl_world. unfold startTo. simpl_world.
    rewrite length_fmap. f_equal. by rewrite <- !app_assoc. }
  apply wp_eq in H as ([] & w' & -> & ->). done.
Qed.

Lemma start_active rs w :
  active w = true ->
  Part000.start rs w = Some (tt, w) /\ Whackabunny.start rs w = Some (tt, w).
Proof.
  unfold active. intros Hact.
  unfold Part000.start, Whackabunny.start, bind, getGame. by rewrite Hact.
Qed.

Lemma gameOver_body i w m :
  moles w !! i = Some m ->
  wp (modifyMole i (set_isVisible false) >> Part000.clearMoleTimers i)
     (fun _ w' =>
        w' = set_moles (<[i := gone m]> (moles w))
               (set_timers
                  (withoutTimeout (bashTimer m)
                     (withoutTimeout (visibilityTimer m) (timers w)))
                  w))
     w.
Proof.
  intros Hm. unfold Part000.clearMoleTimers, gone.
  wp_run. simpl_mole. by rewrite !list_insert_insert_eq.
Qed.

Lemma Part000_gameOver_eq w : Part000.gameOver w = Some (tt, gameOverTo w).
Proof.
  assert (H : wp Part000.gameOver (fun _ w' => w' = gameOverTo w) w).
  { unfold Part000.gameOver. destruct w as [g ms a ts n].
    wp_step. wp_step. wp_step. wp_step.
    eapply wp_mono; [apply clear_loop; intros; by apply gameOver_body|].
    by intros [] w' ->. }
  apply wp_eq in H as ([] & w' & -> & ->). done.
Qed.

(** ** The commands and the clock tick keep the shape *)

(** Every bunny is rewritten by [f], which puts it down. *)
Lemma Shape_fmap_down g (f : Mole -> Mole) ms a ts n :
  game_shape g ->
  (forall m, isVisible (f m) = false /\ visibilityTimer (f m) = None /\
             (running g = true -> isAnimating (f m) = false ->
              animationProgress (f m) = 0%Q)) ->
  Shape (mkWorld g (f <$> ms) a ts n).
Proof.
  intros Hg Hf. constructor; simpl_world.
  - done.
  - intros i m' Hm'. apply list_lookup_fmap_Some in Hm' as (m & -> & _).
    destruct (Hf m) as (Hv & Ht & Hp).
    split; [|split]; [congruence | auto | done].
  - intros i m' Hm' _ Hvis.
    apply list_lookup_fmap_Some in Hm' as (m & -> & _).
    destruct (Hf m) as (Hv & _). congruence.
  - intros i j mi mj h _ Hmi _ Hvi.
    apply list_lookup_fmap_Some in Hmi as (m & -> & _).
    destruct (Hf m) as (_ & Ht & _). congruence.
Qed.

Lemma Foot_fmap w (f : Mole -> Mole) g' a' ts' n' :
  (forall m, isGoodMole (f m) = isGoodMole m /\ isVisible (f m) = false) ->
  Foot w (mkWorld g' (f <$> moles w) a' ts' n').
Proof.
  intros Hf i m m' Hm Hm'. simpl_world.
  rewrite list_lookup_fmap, Hm in Hm'. injection Hm' as <-.
  destruct (Hf m) as [Hk Hv]. unfold mole_foot. rewrite Hk, Hv.
  by repeat split.
Qed.

Lemma startTo_calm rs e w :
  Shape (startTo rs e w) /\ Foot w (startTo rs e w) /\
  score (gameState (startTo rs e w)) = 0.
Proof.
  unfold startTo. split; [|split; [|done]].
  - apply Shape_fmap_down; [split; simpl_world; [lia | by exists 0]|].
    by intros m.
  - by apply Foot_fmap.
Qed.

Lemma resetTo_calm g' w :
  game_shape g' -> running g' = false ->
  Shape (resetTo g' w) /\ Foot w (resetTo g' w).
Proof.
  intros Hg Hr. unfold resetTo. split.
  - apply Shape_fmap_down; [done|]. intros m. rewrite Hr. by repeat split.
  - by apply Foot_fmap.
Qed.

Lemma gameOverTo_calm w :
  Shape w -> calmly w tt (gameOverTo w).
Proof.
  intros HS. unfold gameOverTo. split; [|split; [|done]].
  - apply Shape_fmap_down; [apply HS|]. by intros m.
  - by apply Foot_fmap.
Qed.

Lemma Part000_tick_calm w :
  Inv w -> Shape w -> wp Part000.tick (calmly w) w.
Proof.
  intros HI HS. unfold Part000.tick.
  destruct w as [g ms a ts n]. simpl_world.
  wp_step. wp_step.
  destruct (paused g); cbn [negb]; [wp_step; by apply calmly_refl|].
  wp_run.
  assert (HS1 : Shape (mkWorld (set_timeLeft (timeLeft g - 1) g) ms a ts n)).
  { apply (Shape_world g ms a ts n None None); auto. apply HS. }
  destruct (timeLeft g - 1 <=? 0).
  - unfold wp. rewrite Part000_gameOver_eq.
    destruct (gameOverTo_calm _ HS1) as (H1 & H2 & H3).
    split; [done|]. split; [|done].
    intros i m m' Hm Hm'. by apply (H2 i).
  - wp_step. split; [done|]. by split; [apply Foot_same|].
Qed.

(** ** One turn of the event loop keeps the shape *)

Lemma Part000_runCallback_calm skip w r1 r2 cb :
  Inv w -> ShapeBut skip w -> (forall j, skip = Some j -> cb = CbHide j) ->
  callback_ok cb ->
  wp (Part000.runCallback r1 r2 cb) (calmly w) w.
Proof.
  intros HI HS Hskip Hcb.
  assert (HS' : (forall j, cb <> CbHide j) -> Shape w).
  { intros Hne. destruct skip as [j|]; [|done]. by destruct (Hne j (Hskip j eq_refl)). }
  destruct cb; cbn [Part000.runCallback callback_ok] in *.
  - apply Part000_show_calm; auto.
  - apply Part000_hide_calm; [done | | done].
    destruct skip as [j|]; [|by apply Shape_skip].
    specialize (Hskip j eq_refl). by injection Hskip as ->.
  - apply bashFrame1Done_calm; auto.
  - apply bashFrame2Done_calm; auto.
  - apply Part000_tick_calm; auto.
  - apply (gameLoop_calm _ w Part000_rows_ok); auto.
Qed.

Lemma calmly_consumed g ms a ts ts' n w' :
  calmly (mkWorld g ms a ts' n) tt w' -> calmly (mkWorld g ms a ts n) tt w'.
Proof. intros (H1 & H2 & H3). split; [done|]. by split. Qed.

Lemma Part000_fire_calm w h r1 r2 :
  Inv w -> Shape w -> wp (Part000.fire h r1 r2) (calmly w) w.
Proof.
  intros HI HS. unfold Part000.fire, fireWith. wp_step. wp_step.
  destruct (pending h w) as [t|] eqn:Hp; [|wp_step; by apply calmly_refl].
  destruct (pending_Some _ _ _ Hp) as [Hin Hh].
  pose proof (inv_timers w HI) as Ht. rewrite Forall_forall in Ht.
  destruct (Ht t Hin) as (_ & Hcb & _).
  destruct w as [g ms a ts n]. simpl_world.
  assert (Hcons : (forall d, kind t <> Interval d) ->
            wp (Part000.runCallback r1 r2 (callback t))
               (calmly (mkWorld g ms a ts n))
               (mkWorld g ms a (filter (fun t' => handle t' <> h) ts) n)).
  { intros Hk. eapply wp_mono.
    - apply (Part000_runCallback_calm
               (match callback t with CbHide j => Some j | _ => None end));
        [by apply (Inv_consumed _ _ _ _ _ HI h t) | | | done].
      + apply (Shape_world g ms a ts n None); auto; [apply HS|].
        intros i t' Hs Hin' Hcb'. apply list_elem_of_filter. split; [|done].
        intros Hh'. rewrite <- Hh in Hh'.
        assert (t' = t)
          by (apply (NoDup_handles_same ts); [apply HI | done..]).
        subst t'. rewrite Hcb' in Hs. done.
      + intros j Hj. destruct (callback t); congruence.
    - intros [] w' Hc. exact (calmly_consumed _ _ _ ts _ _ _ Hc). }
  destruct (kind t) eqn:Hk.
  - wp_run. apply Hcons. by intros d'.
  - wp_run. by apply (Part000_runCallback_calm None).
  - wp_run. apply Hcons. by intros d'.
Qed.

Lemma Part000_step_shape e w w' :
  Inv w -> Shape w -> Part000.step e w = Some w' ->
  Shape w' /\ Foot w w' /\ score_step e w w'.
Proof.
  intros HI HS Hs.
  assert (Hstart : forall rs, exec (Part000.start rs) w = Some w' ->
            Shape w' /\ Foot w w' /\
            (score (gameState w') = score (gameState w) \/
             score (gameState w') = 0)).
  { intros rs He. unfold exec in He. destruct (active w) eqn:Hact.
    - destruct (start_active rs w Hact) as [Heq _]. rewrite Heq in He.
      injection He as <-. split; [done|]. split; [by apply Foot_same|auto].
    - rewrite Part000_start_eq in He by done. injection He as <-.
      destruct (startTo_calm rs false w) as (H1 & H2 & H3). auto. }
  destruct e as [rs | rs | | key | h r1 r2]; cbn [Part000.step] in Hs.
  - by apply (Hstart rs).
  - destruct (running (gameState w)) eqn:Hr.
    + unfold exec, Part000.pause, bind, getGame in Hs. rewrite Hr in Hs.
      cbn in Hs. injection Hs as <-. destruct w as [g ms a ts n].
      simpl_world. split; [|split; [by apply Foot_same | by left]].
      apply (Shape_world g ms a ts n None None); auto. apply HS.
    + apply (Hstart rs).
      unfold exec, Part000.pause, bind, getGame in *. by rewrite Hr in Hs.
  - unfold exec in Hs. rewrite Part000_reset_eq in Hs. injection Hs as <-.
    destruct (resetTo_calm
                (set_gameTimer None (set_gameEnded false (set_timeLeft 60
                   (set_score 0 (set_paused false
                      (set_running false (gameState w))))))) w)
      as [H1 H2]; [|done|].
    { split; simpl_world; [apply HS | by exists 0]. }
    split; [done|]. split; [done | by right].
  - destruct (exec_wp _ _ _ _ (Part000_onKeyDown_struck w key HI HS) Hs)
      as (_ & H1 & H2 & H3).
    split; [done|]. split; [done|]. destruct H3 as [H3 | H3]; [by left|].
    by right.
  - destruct (exec_wp _ _ _ _ (Part000_fire_calm w h r1 r2 HI HS) Hs)
      as (_ & H1 & H2 & H3).
    split; [done|]. split; [done | by left].
Qed.

Lemma construct_Shape lw lh : Shape (construct lw lh).
Proof.
  constructor; cbn.
  - split; cbn; [lia | by exists 0].
  - intros [|[|[|i]]] m [= <-]; by repeat split.
  - intros [|[|[|i]]] m [= <-]; done.
  - intros [|[|[|i]]] j mi mj h _ [= <-]; done.
Qed.

Lemma Part000_reachable_Shape w : Part000.reachable w -> Shape w.
Proof.
  induction 1 as [lw lh | e w w' Hr IH Hstep]; [apply construct_Shape|].
  by destruct (Part000_step_shape e w w' (reachable_Inv w Hr) IH Hstep).
Qed.

(** ** Properties of every reachable state *)

Lemma pending_elem w t :
  NoDup (handle <$> timers w) -> t ∈ timers w ->
  pending (handle t) w = Some t.
Proof.
  intros Hnd Hin.
  destruct (pending_is_Some (handle t) w t Hin eq_refl) as [t' Hp].
  destruct (pending_Some _ _ _ Hp) as [Hin' Hh].
  rewrite Hp. f_equal. by apply (NoDup_handles_same (timers w)).
Qed.

(** X6.  part_000: [gameState.difficultyLevel] is always one of the six
    rows of the difficulty table, whatever the order of starts, resets,
    ticks and callbacks. *)
Theorem level_indexes_the_table (w : World) :
  Part000.reachable w ->
  0 <= difficultyLevel (gameState w) <= 5 /\
  exists d,
    Js.index Part000.difficultySettings (difficultyLevel (gameState w))
      = Some d.
Proof.
  intros Hr. destruct (Part000_reachable_Shape w Hr) as [[Hl _] _ _ _].
  split; [done|].
  destruct (index_in_range Part000.difficultySettings
              (difficultyLevel (gameState w))) as (d & Hd & _);
    [cbn; lia | eauto].
Qed.

Lemma level_indexes_the_table_witness :
  0 <= difficultyLevel (gameState oneUp) <= 5 /\
  exists d,
    Js.index Part000.difficultySettings (difficultyLevel (gameState oneUp))
      = Some d.
Proof. apply (level_indexes_the_table oneUp). apply after_reachable. Defined.

(** X7.  part_000: the score is always a multiple of 10 (it only moves by
    +10, by -20, or back to 0). *)
Theorem score_is_a_multiple_of_ten (w : World) :
  Part000.reachable w -> (10 | score (gameState w)).
Proof.
  intros Hr. by destruct (Part000_reachable_Shape w Hr) as [[_ Hs] _ _ _].
Qed.

Lemma score_is_a_multiple_of_ten_witness :
  (10 | score (gameState (after [ClickStart halfDraws; Fire 2 0.9 0.5;
                                 Fire 5 0 0; KeyDown "a"]))).
Proof. apply score_is_a_multiple_of_ten. apply after_reachable. Defined.


Lemma oneUp_left : moles oneUp !! 0%nat = Some oneUpLeft.
Proof. vm_compute. reflexivity. Qed.

Lemma oneUpLeft_visible : isVisible oneUpLeft = true.
Proof. vm_compute. reflexivity. Qed.


(** ** Consequences for the player *)

Lemma Part000_hide_down w i m r :
  Inv w -> moles w !! i = Some m -> isVisible m = true ->
  wp (Part000.hide i r)
     (fun _ w' =>
        exists m', moles w' !! i = Some m' /\
          isVisible m' = false /\ isAnimating m' = true /\
          visibilityTimer m' = None)
     w.
Proof.
  intros HI Hm Hv. unfold Part000.hide.
  destruct (Inv_row Part000.difficultySettings w HI eq_refl) as (d & Hd).
  destruct w as [g ms a ts n]. simpl_world.
  wp_step. wp_step. rewrite Hv. cbn [negb].
  wp_run. simpl_mole. rewrite !list_insert_insert_eq.
  destruct (running g && negb (paused g)); wp_run;
    (eexists; split;
     [apply list_lookup_insert_eq; eauto using lookup_lt_Some | done]).
Qed.

(** X9.  part_000: a bunny that is up always has its way down scheduled.
    Its [visibilityTimer] holds the handle of a pending timeout that calls
    its own [hide()]; no other bunny holds that handle; and when the
    browser runs that callback the bunny goes down (it starts retracting
    and drops the handle). *)
Theorem visible_bunny_has_its_hide_pending (w : World) (i : nat) (m : Mole) :
  Part000.reachable w -> moles w !! i = Some m -> isVisible m = true ->
  exists h d,
    visibilityTimer m = Some h /\
    pending h w = Some (mkTimer h (Timeout d) (CbHide i)) /\
    (forall j mj, j <> i -> moles w !! j = Some mj ->
       visibilityTimer mj <> Some h) /\
    (forall r1 r2, exists w' m',
       Part000.step (Fire h r1 r2) w = Some w' /\
       moles w' !! i = Some m' /\
       isVisible m' = false /\ isAnimating m' = true /\
       visibilityTimer m' = None).
Proof.
  intros Hr Hm Hv. pose proof (reachable_Inv w Hr) as HI.
  pose proof (Part000_reachable_Shape w Hr) as HS.
  destruct (shape_hides _ _ HS i m Hm) as (h & d & Hvt & Hin); [done..|].
  assert (Hp : pending h w = Some (mkTimer h (Timeout d) (CbHide i))).
  { by apply (pending_elem w (mkTimer h (Timeout d) (CbHide i)));
      [apply HI|]. }
  exists h, d. split; [done|]. split; [done|]. split.
  - intros j mj Hj Hmj Hvj. by apply (shape_distinct _ _ HS j i mj m h).
  - intros r1 r2. cbn [Part000.step].
    assert (Hwp : wp (Part000.fire h r1 r2)
              (fun _ w' => exists m', moles w' !! i = Some m' /\
                 isVisible m' = false /\ isAnimating m' = true /\
                 visibilityTimer m' = None) w).
    { unfold Part000.fire, fireWith. wp_step. wp_step. rewrite Hp.
      cbn [kind callback Part000.runCallback]. wp_step. wp_step.
      apply (Part000_hide_down _ i m); [|done..].
      destruct w as [g ms a ts n].
      by apply (Inv_consumed _ _ _ _ _ HI h
                  (mkTimer h (Timeout d) (CbHide i))). }
    apply wp_eq in Hwp as ([] & w' & Hf & m' & Hm').
    exists w', m'. unfold exec. by rewrite Hf.
Qed.

Lemma visible_bunny_has_its_hide_pending_witness :
  exists h d,
    visibilityTimer oneUpLeft = Some h /\
    pending h oneUp = Some (mkTimer h (Timeout d) (CbHide 0)) /\
    (forall j mj, j <> 0%nat -> moles oneUp !! j = Some mj ->
       visibilityTimer mj <> Some h) /\
    (forall r1 r2, exists w' m',
       Part000.step (Fire h r1 r2) oneUp = Some w' /\
       moles w' !! 0%nat = Some m' /\
       isVisible m' = false /\ isAnimating m' = true /\
       visibilityTimer m' = None).
Proof.
  exact (visible_bunny_has_its_hide_pending oneUp 0 oneUpLeft
           (after_reachable _) oneUp_left oneUpLeft_visible).
Defined.

(** X10.  part_000: an appearance is stable.  While a bunny is up, no
    event changes its kind, and once struck it stays struck for as long as
    it stays up; since [hit()] ignores a struck bunny, one appearance
    scores at most once. *)
Theorem appearance_is_stable (w w' : World) (e : Event) (i : nat)
    (m m' : Mole) :
  Part000.reachable w -> Part000.step e w = Some w' ->
  moles w !! i = Some m -> moles w' !! i = Some m' ->
  isVisible m = true ->
  isGoodMole m' = isGoodMole m /\
  (isHit m = true -> isVisible m' = true ->
   isHit m' = true /\ hit i w' = Some (false, w')).
Proof.
  intros Hr Hs Hm Hm' Hv.
  destruct (Part000_step_shape e w w' (reachable_Inv w Hr)
              (Part000_reachable_Shape w Hr) Hs) as (_ & Hf & _).
  destruct (Hf i m m' Hm Hm') as (H1 & H2 & _).
  split; [auto|]. intros Hh Hv'. split; [auto|].
  apply (hit_misses w' i m' Hm'). right. auto.
Qed.

Lemma oneUp_struck :
  Part000.step (KeyDown "a") oneUp =
    Some (after [ClickStart halfDraws; Fire 2 0.9 0.5; Fire 5 0 0;
                 KeyDown "a"]).
Proof. vm_compute. reflexivity. Qed.

Lemma oneUp_struck_left :
  moles (after [ClickStart halfDraws; Fire 2 0.9 0.5; Fire 5 0 0;
                KeyDown "a"]) !! 0%nat =
    Some (set_bashTimer (Some 8%nat)
            (set_bashFrame 1
               (set_isBashAnimating true (set_isHit true oneUpLeft)))).
Proof. vm_compute. reflexivity. Qed.

Lemma appearance_is_stable_witness :
  isGoodMole
    (set_bashTimer (Some 8%nat)
       (set_bashFrame 1
          (set_isBashAnimating true (set_isHit true oneUpLeft)))) =
  isGoodMole oneUpLeft /\
  (isHit oneUpLeft = true ->
   isVisible
     (set_bashTimer (Some 8%nat)
        (set_bashFrame 1
           (set_isBashAnimating true (set_isHit true oneUpLeft)))) = true ->
   isHit
     (set_bashTimer (Some 8%nat)
        (set_bashFrame 1
           (set_isBashAnimating true (set_isHit true oneUpLeft)))) = true /\
   hit 0
     (after [ClickStart halfDraws; Fire 2 0.9 0.5; Fire 5 0 0; KeyDown "a"]) =
   Some (false,
         after [ClickStart halfDraws; Fire 2 0.9 0.5; Fire 5 0 0;
                KeyDown "a"])).
Proof.
  exact (appearance_is_stable oneUp _ (KeyDown "a") 0 oneUpLeft _
           (after_reachable _) oneUp_struck oneUp_left oneUp_struck_left
           oneUpLeft_visible).
Defined.


Lemma pausedUp_idle : active pausedUp = false.
Proof. vm_compute. reflexivity. Qed.





(** X12.  part_000: the score changes only in three ways.  A timer or
    frame callback never changes it; a key press changes it only in a
    running, unpaused session, when the bunny under the key is visible,
    out of its hole and not yet struck, and then by +10 or -20 according
    to its kind; a click on a button leaves it or sets it to 0. *)
Theorem score_changes_only_by_strikes (w w' : World) (e : Event) :
  Part000.reachable w -> Part000.step e w = Some w' ->
  score_step e w w'.
Proof.
  intros Hr Hs.
  by destruct (Part000_step_shape e w w' (reachable_Inv w Hr)
                 (Part000_reachable_Shape w Hr) Hs) as (_ & _ & H).
Qed.

Lemma score_changes_only_by_strikes_witness :
  score_step (KeyDown "a") oneUp
    (after [ClickStart halfDraws; Fire 2 0.9 0.5; Fire 5 0 0; KeyDown "a"]).
Proof.
  exact (score_changes_only_by_strikes oneUp _ (KeyDown "a")
           (after_reachable _) oneUp_struck).
Defined.

(** ** Starting a session *)

Lemma withoutTimeout_frames o ts t :
  t ∈ ts -> isAnimationFrame t = true -> t ∈ withoutTimeout o ts.
Proof.
  intros Hin Haf. destruct o as [h|]; [|done]. cbn.
  apply list_elem_of_filter. split; [|done]. intros [_ Hf]. congruence.
Qed.

Lemma withoutMoleTimers_frames ms : forall ts t,
  t ∈ ts -> isAnimationFrame t = true -> t ∈ withoutMoleTimers ms ts.
Proof.
  induction ms as [|m ms IH]; intros ts t Hin Haf; [done|].
  cbn. apply IH; [|done].
  apply withoutTimeout_frames; [|done]. by apply withoutTimeout_frames.
Qed.

(** X13.  Both variants: [start()] on a session that is not running, or
    is paused, never throws and begins a fresh session.  The score is 0,
    60 seconds are left, the level is 0, the session runs unpaused (and,
    in part_000, is not ended); every bunny is down, at rest, unstruck,
    with progress 0 and no handles; the old clock and the timers the
    bunnies held are cancelled; and exactly these callbacks are added: a
    1000 ms interval stored in [gameTimer], one [show()] per bunny after
    [Math.random() * 3000] ms, and one animation frame stored in
    [animationId].  A frame that was pending is not cancelled. *)
Theorem start_begins_a_fresh_session (w : World) (rs : nat -> Q) :
  active w = false ->
  Part000.step (ClickStart rs) w = Some (startTo rs false w) /\
  Whackabunny.step (ClickStart rs) w =
    Some (startTo rs (gameEnded (gameState w)) w) /\
  (forall t e, t ∈ timers w -> isAnimationFrame t = true ->
     t ∈ timers (startTo rs e w)).
Proof.
  intros Hact. cbn [Part000.step Whackabunny.step]. unfold exec.
  rewrite Part000_start_eq, Whackabunny_start_eq by done.
  split; [done|]. split; [done|].
  intros t e Hin Haf. unfold startTo. simpl_world.
  apply elem_of_app. left. apply elem_of_app. left.
  apply withoutMoleTimers_frames; [|done]. by apply withoutTimeout_frames.
Qed.

Lemma start_begins_a_fresh_session_witness :
  Part000.step (ClickStart zeroDraws) pausedUp =
    Some (startTo zeroDraws false pausedUp) /\
  Whackabunny.step (ClickStart zeroDraws) pausedUp =
    Some (startTo zeroDraws (gameEnded (gameState pausedUp)) pausedUp) /\
  (forall t e, t ∈ timers pausedUp -> isAnimationFrame t = true ->
     t ∈ timers (startTo zeroDraws e pausedUp)).
Proof.
  exact (start_begins_a_fresh_session pausedUp zeroDraws pausedUp_idle).
Defined.

(** X14.  Both variants: from any state, a click on Start never throws,
    and a second click right after it changes nothing: [start()] on a
    running, unpaused session is a no-op, and that is the state [start()]
    leaves. *)
Theorem start_is_idempotent (w : World) (rs rs' : nat -> Q) :
  (exists w1, Part000.step (ClickStart rs) w = Some w1 /\
              Part000.step (ClickStart rs') w1 = Some w1) /\
  (exists w1, Whackabunny.step (ClickStart rs) w = Some w1 /\
              Whackabunny.step (ClickStart rs') w1 = Some w1).
Proof.
  cbn [Part000.step Whackabunny.step]. unfold exec.
  destruct (active w) eqn:Hact.
  - destruct (start_active rs w Hact) as [H1 H2].
    destruct (start_active rs' w Hact) as [H3 H4].
    split; exists w; [rewrite H1, H3 | rewrite H2, H4]; done.
  - rewrite Part000_start_eq, Whackabunny_start_eq by done.
    split; eexists; (split; [reflexivity|]).
    + by destruct (start_active rs' (startTo rs false w) eq_refl) as [-> _].
    + by destruct (start_active rs'
                     (startTo rs (gameEnded (gameState w)) w) eq_refl)
        as [_ ->].
Qed.

(** ** A paused session *)

Lemma paused_inactive w : paused (gameState w) = true -> active w = false.
Proof. unfold active. intros ->. by destruct (running _). Qed.

Lemma paused_run es : forall w,
  Inv w -> Shape w -> paused (gameState w) = true -> quiet es ->
  exists w', Part000.run es w = Some w' /\
             clockOf w' = clockOf w /\
             score (gameState w') = score (gameState w).
Proof.
  induction es as [|e es IH]; intros w HI HS Hp Hq; cbn [Part000.run];
    [by exists w|].
  apply Forall_cons in Hq as [He Hq].
  assert (Hstep : exists w1, Part000.step e w = Some w1 /\ Inv w1 /\
                             clockOf w1 = clockOf w).
  { destruct (gameTimer (gameState w)) as [h|] eqn:Hg.
    - destruct (fires h e) eqn:Hf.
      + destruct e as [| | | |h' r1 r2]; try done. cbn in Hf.
        apply Nat.eqb_eq in Hf as ->.
        destruct (step_tick w h r1 r2 HI Hg) as (w1 & Hs & HI1 & Htk).
        exists w1. split; [done|]. split; [done|].
        unfold ticked in Htk. rewrite Hp in Htk. unfold clockOf.
        by rewrite Htk.
      + apply step_quiet; [done..|]. intros h' Hh'.
        rewrite Hg in Hh'. by injection Hh' as <-.
    - apply step_quiet; [done..|]. intros h' Hh'. congruence. }
  destruct Hstep as (w1 & Hs & HI1 & Hc1). rewrite Hs.
  destruct (Part000_step_shape e w w1 HI HS Hs) as (HS1 & _ & Hsc).
  assert (Hp1 : paused (gameState w1) = true).
  { unfold clockOf in Hc1. injection Hc1 as _ Hp1 _ _ _. congruence. }
  assert (Hs1 : score (gameState w1) = score (gameState w)).
  { destruct Hsc as [? | Hsc]; [done|].
    destruct e as [| | |key|]; try done.
    destruct Hsc as [Hact _]. by rewrite paused_inactive in Hact. }
  destruct (IH w1 HI1 HS1 Hp1 Hq) as (w' & Hrun & Hc & Hsw).
  exists w'. split; [done|]. split; congruence.
Qed.

(** X15.  part_000: a paused session is frozen.  However many clock ticks,
    mole timers, animation frames and key presses arrive while the
    session is paused, none throws, and [timeLeft], [running], [paused],
    [gameTimer], [gameEnded] and the score stay exactly as they were. *)
Theorem paused_session_is_frozen (w : World) (es : list Event) :
  Part000.reachable w -> paused (gameState w) = true -> quiet es ->
  exists w',
    Part000.run es w = Some w' /\
    timeLeft (gameState w') = timeLeft (gameState w) /\
    running (gameState w') = running (gameState w) /\
    paused (gameState w') = true /\
    gameTimer (gameState w') = gameTimer (gameState w) /\
    gameEnded (gameState w') = gameEnded (gameState w) /\
    score (gameState w') = score (gameState w).
Proof.
  intros Hr Hp Hq.
  destruct (paused_run es w (reachable_Inv w Hr)
              (Part000_reachable_Shape w Hr) Hp Hq) as (w' & Hrun & Hc & Hs).
  exists w'. split; [done|]. unfold clockOf in Hc.
  injection Hc as H1 H2 H3 H4 H5. repeat split; congruence.
Qed.

Lemma pausedUp_paused : paused (gameState pausedUp) = true.
Proof. vm_compute. reflexivity. Qed.

Lemma pausedEvents_quiet : quiet pausedEvents.
Proof. by repeat constructor. Qed.

Lemma paused_session_is_frozen_witness :
  exists w',
    Part000.run pausedEvents pausedUp = Some w' /\
    timeLeft (gameState w') = timeLeft (gameState pausedUp) /\
    running (gameState w') = running (gameState pausedUp) /\
    paused (gameState w') = true /\
    gameTimer (gameState w') = gameTimer (gameState pausedUp) /\
    gameEnded (gameState w') = gameEnded (gameState pausedUp) /\
    score (gameState w') = score (gameState pausedUp).
Proof.
  exact (paused_session_is_frozen pausedUp pausedEvents (after_reachable _)
           pausedUp_paused pausedEvents_quiet).
Defined.

(** ** whackabunny.js: [show()] without the guard *)

Lemma afterW_reachable es : Whackabunny.reachable (afterW es).
Proof.
  unfold afterW.
  destruct (Whackabunny.run es (construct 800 400)) as [w|] eqn:Hrun;
    cbn [default]; [|apply Whackabunny.reachable_init].
  apply (Whackabunny_run_reachable es _ _
           (Whackabunny.reachable_init 800 400) Hrun).
Qed.

(** X16.  whackabunny.js: [show()] has no guard on the bunny's state.  In
    a running, unpaused session it restarts the appearance of any bunny,
    also of one that is up and already struck: the kind is drawn again,
    [isHit] is cleared, the progress goes back to 0, and a new [hide()] is
    scheduled and stored while every callback pending before, the old
    [hide()] included, stays pending.  The same bunny can then be struck,
    and score, again. *)
Theorem whackabunny_show_restarts_any_bunny (w : World) (i : nat) (m : Mole)
    (r1 r2 : Q) :
  Whackabunny.reachable w ->
  running (gameState w) = true -> paused (gameState w) = false ->
  moles w !! i = Some m ->
  exists w' m',
    Whackabunny.show i r1 r2 w = Some (tt, w') /\
    moles w' !! i = Some m' /\
    isVisible m' = true /\ isHit m' = false /\
    isGoodMole m' = Js.lt r1 0.75 /\
    animationProgress m' = 0%Q /\ isAnimating m' = true /\
    visibilityTimer m' = Some (nextHandle w) /\
    (exists d, pending (nextHandle w) w' =
                 Some (mkTimer (nextHandle w) (Timeout d) (CbHide i))) /\
    (forall t, t ∈ timers w -> t ∈ timers w') /\
    exists w'', hit i w' = Some (true, w'') /\
      score (gameState w'') = score (gameState w') + points m'.
Proof.
  intros Hr Hrun Hp Hm.
  destruct (Whackabunny_reachable_Inv w Hr) as [HI _].
  destruct (Inv_row Whackabunny.difficultySettings w HI eq_refl) as (d & Hd).
  destruct (proj1 (wp_eq _ _ _)
              (Whackabunny_show_schedules w i m r1 r2 d Hrun Hp Hm Hd))
    as ([] & w' & Hshow & Hw').
  assert (Hm' : moles w' !! i = Some (shown r1 (nextHandle w) m)).
  { rewrite Hw'. simpl_world. apply list_lookup_insert_eq.
    eauto using lookup_lt_Some. }
  exists w', (shown r1 (nextHandle w) m).
  do 8 (split; [done|]). split; [|split].
  - exists (Whackabunny.showDuration d r2).
    assert (Hi : (i < 3)%nat).
    { rewrite <- (inv_length w HI). eauto using lookup_lt_Some. }
    assert (HI' : Inv w').
    { destruct (proj1 (wp_eq _ _ _) (Whackabunny_show_Inv w i r1 r2 HI Hi))
        as ([] & w2 & Hshow2 & HI2 & _).
      congruence. }
    apply (pending_elem w'
             (mkTimer (nextHandle w)
                (Timeout (Whackabunny.showDuration d r2)) (CbHide i)));
      [apply HI'|].
    rewrite Hw'. simpl_world. apply elem_of_app. right.
    by apply list_elem_of_singleton.
  - intros t Hin. rewrite Hw'. simpl_world. apply elem_of_app. by left.
  - destruct (proj1 (wp_eq _ _ _)
                (hit_counts w' i (shown r1 (nextHandle w) m) Hm'
                   eq_refl eq_refl))
      as (b & w'' & Hhit & -> & Hg & _).
    exists w''. split; [done|]. by rewrite Hg.
Qed.

Lemma struckUpW_running : running (gameState struckUpW) = true.
Proof. vm_compute. reflexivity. Qed.

Lemma struckUpW_unpaused : paused (gameState struckUpW) = false.
Proof. vm_compute. reflexivity. Qed.

Lemma struckUpW_left : moles struckUpW !! 0%nat = Some struckLeftW.
Proof. vm_compute. reflexivity. Qed.

Lemma whackabunny_show_restarts_any_bunny_witness :
  isVisible struckLeftW = true /\ isHit struckLeftW = true /\
  exists w' m',
    Whackabunny.show 0 0.2 0.5 struckUpW = Some (tt, w') /\
    moles w' !! 0%nat = Some m' /\
    isVisible m' = true /\ isHit m' = false /\
    isGoodMole m' = Js.lt 0.2 0.75 /\
    animationProgress m' = 0%Q /\ isAnimating m' = true /\
    visibilityTimer m' = Some (nextHandle struckUpW) /\
    (exists d, pending (nextHandle struckUpW) w' =
                 Some (mkTimer (nextHandle struckUpW) (Timeout d)
                         (CbHide 0))) /\
    (forall t, t ∈ timers struckUpW -> t ∈ timers w') /\
    exists w'', hit 0 w' = Some (true, w'') /\
      score (gameState w'') = score (gameState w') + points m'.
Proof.
  split; [vm_compute; reflexivity|]. split; [vm_compute; reflexivity|].
  exact (whackabunny_show_restarts_any_bunny struckUpW 0 struckLeftW 0.2 0.5
           (afterW_reachable _) struckUpW_running struckUpW_unpaused
           struckUpW_left).
Defined.

(** ** Music speed and red flash *)

Lemma reachable_running_time w :
  Part000.reachable w -> running (gameState w) = true ->
  1 <= timeLeft (gameState w) <= 60.
Proof.
  intros Hr Hrun. pose proof (reachable_Inv w Hr) as HI.
  destruct (inv_game w HI) as [Ht _].
  destruct (gameTimer (gameState w)) as [h|] eqn:Hg.
  - destruct (Inv_armed w HI h Hg) as (_ & H1 & _). lia.
  - by destruct (Part000_reachable_held w Hr Hrun).
Qed.

(** X17.  part_000: the playback rate [updateMusicSpeed()] sets is
    [0.5 + elapsed / 60] and lies between 0.5 and 1.5, at both of its call
    sites in a running session: in [start()] ([k = 0], the time left as it
    stands) and in the clock tick, right after [timeLeft--] ([k = 1]).  It
    writes nothing else, and does nothing at all when the session is not
    running or the music failed to load. *)
Theorem music_speed_stays_in_range (w : World) (music : Audio) (k : Z) :
  Part000.reachable w -> running (gameState w) = true -> k = 0 \/ k = 1 ->
  (exists music',
     updateMusicSpeed
       (set_timeLeft (timeLeft (gameState w) - k) (gameState w))
       (Some music) = Some music' /\
     (playbackRate music' ==
        0.5 + inject_Z (elapsed w + k) / 60)%Q /\
     (0.5 <= playbackRate music')%Q /\ (playbackRate music' <= 1.5)%Q /\
     volume music' = volume music /\
     musicPaused music' = musicPaused music /\
     currentTime music' = currentTime music) /\
  updateMusicSpeed (gameState w) None = None /\
  updateMusicSpeed (set_running false (gameState w)) (Some music) =
    Some music.
Proof.
  intros Hr Hrun Hk. split; [|done].
  pose proof (reachable_running_time w Hr Hrun) as Ht.
  unfold updateMusicSpeed. simpl_world. rewrite Hrun. cbn [negb].
  eexists. split; [reflexivity|]. cbn [playbackRate set_playbackRate].
  assert (He : 60 - (timeLeft (gameState w) - k) = elapsed w + k)
    by (unfold elapsed; lia).
  rewrite He.
  assert (H0 : (0 <= inject_Z (elapsed w + k))%Q).
  { change 0%Q with (inject_Z 0). rewrite <- Zle_Qle. unfold elapsed. lia. }
  assert (H1 : (inject_Z (elapsed w + k) <= 60)%Q).
  { change 60%Q with (inject_Z 60). rewrite <- Zle_Qle. unfold elapsed. lia. }
  split; [field|]. split; [|split; [|done]].
  - assert (0 <= inject_Z (elapsed w + k) / 60)%Q
      by (apply Qle_shift_div_l; lra).
    lra.
  - assert (inject_Z (elapsed w + k) / 60 <= 1)%Q
      by (apply Qle_shift_div_r; lra).
    lra.
Qed.

Lemma oneUp_running : running (gameState oneUp) = true.
Proof. vm_compute. reflexivity. Qed.

Lemma music_speed_stays_in_range_witness :
  (exists music',
     updateMusicSpeed
       (set_timeLeft (timeLeft (gameState oneUp) - 1) (gameState oneUp))
       (Some freshMusic) = Some music' /\
     (playbackRate music' ==
        0.5 + inject_Z (elapsed oneUp + 1) / 60)%Q /\
     (0.5 <= playbackRate music')%Q /\ (playbackRate music' <= 1.5)%Q /\
     volume music' = volume freshMusic /\
     musicPaused music' = musicPaused freshMusic /\
     currentTime music' = currentTime freshMusic) /\
  updateMusicSpeed (gameState oneUp) None = None /\
  updateMusicSpeed (set_running false (gameState oneUp)) (Some freshMusic) =
    Some freshMusic.
Proof.
  exact (music_speed_stays_in_range oneUp freshMusic 1 (after_reachable _)
           oneUp_running (or_intror eq_refl)).
Defined.

Lemma Js_lt_spec a b : if Js.lt a b then (a < b)%Q else (b <= a)%Q.
Proof. unfold Js.lt. by destruct (Qlt_le_dec a b). Qed.

(** X18.  part_000: the red flash.  At [elapsed] milliseconds after a
    hostile bunny was struck, [animateFlash] sets an opacity between 0 and
    0.5: it rises linearly to 0.5 at 100 ms and falls linearly to 0 at
    800 ms.  Before 800 ms it requests another frame and stores its
    handle; from 800 ms on it switches the flash off (opacity 0, no
    handle), requests nothing, and [draw()] no longer paints the
    overlay. *)
Theorem red_flash_fades (elapsed : Q) (next : nat) (f : Flash) :
  (0 <= elapsed)%Q ->
  (0 <= redFlashOpacity (fst (animateFlash elapsed next f)))%Q /\
  (redFlashOpacity (fst (animateFlash elapsed next f)) <= 0.5)%Q /\
  ((elapsed < 100)%Q ->
   (redFlashOpacity (fst (animateFlash elapsed next f)) ==
      elapsed / 200)%Q) /\
  ((100 <= elapsed)%Q -> (elapsed < 800)%Q ->
   (redFlashOpacity (fst (animateFlash elapsed next f)) ==
      (800 - elapsed) / 1400)%Q) /\
  ((elapsed < 800)%Q ->
   snd (animateFlash elapsed next f) = true /\
   redFlashAnimation (fst (animateFlash elapsed next f)) = Some next /\
   redFlash (fst (animateFlash elapsed next f)) = redFlash f) /\
  ((800 <= elapsed)%Q ->
   animateFlash elapsed next f = (mkFlash false 0 None, false) /\
   flashDrawn (fst (animateFlash elapsed next f)) = false).
Proof.
  intros H0. unfold animateFlash, totalDuration, fadeInDuration,
    fadeOutDuration.
  pose proof (Js_lt_spec elapsed 100) as H1.
  pose proof (Js_lt_spec elapsed (100 + 700)) as H2.
  destruct (Js.lt elapsed 100); [|destruct (Js.lt elapsed (100 + 700))];
    cbn [fst snd redFlashOpacity redFlashAnimation redFlash].
  - assert (He : (elapsed / 100 * 0.5 == elapsed / 200)%Q) by field.
    assert (0 <= elapsed / 200)%Q by (apply Qle_shift_div_l; lra).
    assert (elapsed / 200 <= 0.5)%Q by (apply Qle_shift_div_r; lra).
    split; [lra|]. split; [lra|]. split; [by intros _|].
    split; [intros; exfalso; lra|]. split; [by intros _|].
    intros; exfalso; lra.
  - assert (He : (0.5 * (1 - (elapsed - 100) / 700) ==
                  (800 - elapsed) / 1400)%Q) by field.
    assert (0 <= (800 - elapsed) / 1400)%Q by (apply Qle_shift_div_l; lra).
    assert ((800 - elapsed) / 1400 <= 0.5)%Q
      by (apply Qle_shift_div_r; lra).
    split; [lra|]. split; [lra|]. split; [intros; exfalso; lra|].
    split; [by intros _ _|]. split; [by intros _|].
    intros; exfalso; lra.
  - split; [lra|]. split; [lra|]. split; [intros; exfalso; lra|].
    split; [intros; exfalso; lra|]. split; [intros; exfalso; lra|].
    by intros _.
Qed.

Lemma red_flash_fades_witness :
  (0 <= redFlashOpacity (fst (animateFlash 100 9 (mkFlash true 0 None))))%Q /\
  (redFlashOpacity (fst (animateFlash 100 9 (mkFlash true 0 None)))
     <= 0.5)%Q /\
  ((100 < 100)%Q ->
   (redFlashOpacity (fst (animateFlash 100 9 (mkFlash true 0 None))) ==
      100 / 200)%Q) /\
  ((100 <= 100)%Q -> (100 < 800)%Q ->
   (redFlashOpacity (fst (animateFlash 100 9 (mkFlash true 0 None))) ==
      (800 - 100) / 1400)%Q) /\
  ((100 < 800)%Q ->
   snd (animateFlash 100 9 (mkFlash true 0 None)) = true /\
   redFlashAnimation (fst (animateFlash 100 9 (mkFlash true 0 None))) =
     Some 9%nat /\
   redFlash (fst (animateFlash 100 9 (mkFlash true 0 None))) =
     redFlash (mkFlash true 0 None)) /\
  ((800 <= 100)%Q ->
   animateFlash 100 9 (mkFlash true 0 None) = (mkFlash false 0 None, false) /\
   flashDrawn (fst (animateFlash 100 9 (mkFlash true 0 None))) = false).
Proof.
  apply (red_flash_fades 100 9 (mkFlash true 0 None)). Qcompare.
Defined.
